(** * Melting-beads designer: the image-to-grid pipeline and the grid editor

    A shallow embedding of [src/lib/bead-palettes.ts],
    [src/lib/image-processor.ts] and the editing handlers of [src/App.tsx].

    Conventions.
    - Channel values, native image sizes and pointer-derived cell coordinates
      are [Z]; loop counters and array indices are [nat].
    - A JavaScript [number] that can be [NaN] is an [option Z] ([None] is NaN);
      a value that can be [undefined] is an [option] as well.
    - A string is the sequence of its code units, each below U+0100.
    - Arithmetic on integers below 2^53 is exact in binary64.  Where the
      source takes square roots and quotients of such integers, the
      embedding computes with the integers ([Math.sqrt] is strictly
      increasing on the radicands that occur) and the properties are stated
      for the real numbers; module [Binary64] evaluates the same
      expressions in binary64 for comparison.  Where the source rounds a
      product that is exactly a half more than an integer, the embedding
      rounds as binary64 does.
    - Typed arrays ([Uint8ClampedArray]) are [list Z] read with [!!] and
      written with [<[ _ := _ ]>]; a write outside the array is dropped, as
      it is for a typed array.
    - A thrown exception is the [Throw] constructor of [result].
    - The browser is outside the embedding: an image is taken as decoded,
      with its pixels at any canvas size given; a canvas is the list of the
      drawing calls made on it; the debounced processing effect runs to its
      end between two events. *)

From Stdlib Require Import Reals Lra QArith ZArith Lia Ascii String List.
From Stdlib Require Floats Uint63.
From stdpp Require Import gmap strings list fin_maps sets.

Local Open Scope Z_scope.

(** ** Results of fallible code *)

Inductive error :=
  | TypeError        (* property access on [undefined] *)
  | IndexSizeError.  (* [getImageData] on a zero-area canvas *)

Inductive result (A : Type) :=
  | Ok (a : A)
  | Throw (e : error).
Arguments Ok {A} a.
Arguments Throw {A} e.

#[global] Instance result_ret : MRet result := fun A a => Ok a.

#[global] Instance result_bind : MBind result := fun A B k m =>
  match m with
  | Ok a => k a
  | Throw e => Throw e
  end.

(** ** bead-palettes.ts *)

Module Palette.

(** The sentinel stored in a grid cell that holds no bead. *)
Definition transparent : string := "transparent".

Definition standard : list string :=
  [ "#FFFFFF"; "#F5F5F5"; "#E0E0E0"; "#A9A9A9"; "#696969"; "#000000";
    "#FFE4E1"; "#FFC0CB"; "#FF69B4"; "#FF1493"; "#DC143C"; "#FF0000";
    "#8B0000";
    "#FFF0F5"; "#FFDAB9"; "#FFEFD5"; "#FFD700"; "#FFA500"; "#FF8C00";
    "#FF4500";
    "#FFFFE0"; "#FFFACD"; "#FFFF00"; "#FFD700"; "#BDB76B";
    "#F0FFF0"; "#98FB98"; "#90EE90"; "#00FF00"; "#32CD32"; "#008000";
    "#006400"; "#2E8B57";
    "#F0FFFF"; "#E0FFFF"; "#AFEEEE"; "#00FFFF"; "#00CED1"; "#1E90FF";
    "#0000FF"; "#0000CD"; "#00008B"; "#191970";
    "#E6E6FA"; "#D8BFD8"; "#DDA0DD"; "#EE82EE"; "#DA70D6"; "#9370DB";
    "#8A2BE2"; "#4B0082" ]%string.

Definition mini : list string :=
  [ "#FFFFFF"; "#E0E0E0"; "#A9A9A9"; "#000000"; "#FFC0CB"; "#FF69B4";
    "#FF0000"; "#8B0000"; "#FFDAB9"; "#FFA500"; "#FFFF00"; "#FFD700";
    "#98FB98"; "#00FF00"; "#008000"; "#2E8B57"; "#AFEEEE"; "#00FFFF";
    "#1E90FF"; "#0000FF"; "#00008B"; "#DDA0DD"; "#EE82EE"; "#8A2BE2" ]%string.

Definition pastel : list string :=
  [ "#FFFFFF"; "#000000"; "#FFE4E1"; "#FFC0CB"; "#FFDAB9"; "#FFFACD";
    "#F0FFF0"; "#98FB98"; "#E0FFFF"; "#AFEEEE"; "#E6E6FA"; "#D8BFD8" ]%string.

Inductive paletteName := Standard | Mini | Pastel.

#[global] Instance paletteName_eq_dec : EqDecision paletteName.
Proof. solve_decision. Defined.

Definition beadPalettes (name : paletteName) : list string :=
  match name with
  | Standard => standard
  | Mini => mini
  | Pastel => pastel
  end.

(** [s.substring(a, b)] for [a <= b]; both ends are clamped to the length. *)
Definition jsSubstring (a b : nat) (s : string) : string :=
  String.substring a (b - a) s.

(** [s.substring(a)]. *)
Definition jsSubstringFrom (a : nat) (s : string) : string :=
  String.substring a (String.length s - a) s.

Definition code (c : ascii) : Z := Z.of_N (N_of_ascii c).

Definition hexDigitValue (c : ascii) : option Z :=
  let n := code c in
  if (48 <=? n) && (n <=? 57) then Some (n - 48)
  else if (65 <=? n) && (n <=? 70) then Some (n - 55)
  else if (97 <=? n) && (n <=? 102) then Some (n - 87)
  else None.

(** White space skipped by [parseInt]: the members of StrWhiteSpaceChar
    below U+0100, which are TAB, LF, VT, FF, CR, SP and NBSP. *)
Definition isWhiteSpace (c : ascii) : bool :=
  let n := code c in
  ((9 <=? n) && (n <=? 13)) || (n =? 32) || (n =? 160).

Fixpoint skipWhiteSpace (s : string) : string :=
  match s with
  | String c rest => if isWhiteSpace c then skipWhiteSpace rest else s
  | EmptyString => s
  end.

(** The value of the longest prefix of hexadecimal digits, most significant
    first; [acc] is [None] until a digit has been read. *)
Fixpoint hexPrefix (s : string) (acc : option Z) : option Z :=
  match s with
  | String c rest =>
      match hexDigitValue c with
      | Some d => hexPrefix rest (Some (16 * default 0 acc + d))
      | None => acc
      end
  | EmptyString => acc
  end.

Definition stripHexPrefix (s : string) : string :=
  match s with
  | String c0 (String c1 rest) =>
      if (code c0 =? 48) && ((code c1 =? 120) || (code c1 =? 88))
      then rest else s
  | _ => s
  end.

(** [Number.parseInt(s, 16)]; [None] is [NaN]. *)
Definition parseInt16 (s : string) : option Z :=
  let s1 := skipWhiteSpace s in
  let '(sign, s2) :=
    match s1 with
    | String c rest =>
        if code c =? 45 then (-1, rest)
        else if code c =? 43 then (1, rest)
        else (1, s1)
    | EmptyString => (1, s1)
    end in
  (fun v => sign * v) <$> hexPrefix (stripHexPrefix s2) None.

(** The three channels of a palette entry, as [findClosestColor] and the
    quantizer read them. *)
Definition parseColor (color : string) : option Z * option Z * option Z :=
  let hex := jsSubstringFrom 1 color in
  (parseInt16 (jsSubstring 0 2 hex),
   parseInt16 (jsSubstring 2 4 hex),
   parseInt16 (jsSubstring 4 6 hex)).

(** A JavaScript number as the nearest-colour search meets it: NaN,
    [Number.POSITIVE_INFINITY], or [Math.sqrt] of the integer [d2]. *)
Inductive distance :=
  | NaN
  | Infinity
  | Sqrt (d2 : Z).

(** [Math.sqrt(Math.pow(r - pr, 2) + Math.pow(g - pg, 2) + Math.pow(b - pb, 2))];
    NaN when a channel of the palette entry is NaN. *)
Definition colorDistance (r g b : Z) (color : string) : distance :=
  let '(pr, pg, pb) := parseColor color in
  match pr, pg, pb with
  | Some pr, Some pg, Some pb =>
      Sqrt ((r - pr) ^ 2 + (g - pg) ^ 2 + (b - pb) ^ 2)
  | _, _, _ => NaN
  end.

(** [d < m] on such numbers; a comparison with NaN is false. *)
Definition distLt (d m : distance) : bool :=
  match d, m with
  | Sqrt a, Sqrt b => a <? b
  | Sqrt _, Infinity => true
  | _, _ => false
  end.

(** The order of the real numbers two distances stand for. *)
Definition distanceLe (d m : distance) : Prop :=
  match d, m with
  | Sqrt a, Sqrt b => (sqrt (IZR a) <= sqrt (IZR b))%R
  | _, _ => False
  end.

Definition distanceLt (d m : distance) : Prop :=
  match d, m with
  | Sqrt a, Sqrt b => (sqrt (IZR a) < sqrt (IZR b))%R
  | _, _ => False
  end.

(** The [for (const color of palette)] loop. *)
Fixpoint closestLoop (r g b : Z) (palette : list string)
    (minDistance : distance) (closestColor : option string) : option string :=
  match palette with
  | [] => closestColor
  | color :: rest =>
      let distance := colorDistance r g b color in
      if distLt distance minDistance
      then closestLoop r g b rest distance (Some color)
      else closestLoop r g b rest minDistance closestColor
  end.

(** [None] is [undefined], the value of [palette[0]] on an empty palette. *)
Definition findClosestColor (r g b : Z) (palette : list string) : option string :=
  closestLoop r g b palette Infinity (head palette).

(** A palette entry as the data model has it: [#] and six hexadecimal
    digits. *)
Definition isHexColor (color : string) : bool :=
  match color with
  | String c0 (String c1 (String c2 (String c3 (String c4 (String c5
      (String c6 EmptyString)))))) =>
      (code c0 =? 35)
      && forallb (fun c => bool_decide (is_Some (hexDigitValue c)))
           [c1; c2; c3; c4; c5; c6]
  | _ => false
  end.

(** A distance that is a number: neither NaN nor infinite. *)
Definition isNumber (d : distance) : Prop := ∃ d2, d = Sqrt d2.

(** [c], at index [i] of [l], is the first of the entries of [l] nearest
    to the query, among the entries whose distance is a number. *)
Definition nearestValid (r g b : Z) (l : list string) (i : nat) (c : string)
    (d : Z) : Prop :=
  l !! i = Some c ∧ colorDistance r g b c = Sqrt d
  ∧ (∀ j c' d', l !! j = Some c' → colorDistance r g b c' = Sqrt d' → d <= d')
  ∧ (∀ j c' d', (j < i)%nat → l !! j = Some c' →
       colorDistance r g b c' = Sqrt d' → d < d').

(** The colour [rgb] is one that an entry of the palette stands for. *)
Definition paletteColour (palette : list string) (rgb : Z * Z * Z) : Prop :=
  ∃ c, c ∈ palette
    ∧ parseColor c = (Some rgb.1.1, Some rgb.1.2, Some rgb.2).

(** The entry [c] parses, and the search for its own colour in [palette]
    returns it. *)
Definition mapsToItself (palette : list string) (c : string) : bool :=
  match parseColor c with
  | (Some r, Some g, Some b) =>
      bool_decide (findClosestColor r g b palette = Some c)
  | _ => false
  end.

End Palette.


(** ** The floating-point expressions of the source in binary64 *)

Module Binary64.

(** A non-negative integer below 2^53 as a binary64 number. *)
Definition ofZ (z : Z) : PrimFloat.float :=
  PrimFloat.of_uint63 (Uint63.of_Z z).

(** [Math.round(x)]: the nearest integer, a half rounded up; [None] for NaN
    and the infinities. *)
Definition mathRound (x : PrimFloat.float) : option Z :=
  match FloatOps.Prim2SF x with
  | SpecFloat.S754_zero _ => Some 0
  | SpecFloat.S754_finite s m e =>
      let v := if s then Z.neg m else Z.pos m in
      Some (if 0 <=? e then v * 2 ^ e
            else (2 * v + 2 ^ (- e)) / 2 ^ (- e + 1))
  | _ => None
  end.

(** [Math.round(a * (b / c))], as in
    [Math.round(height * (maxBeads / width))]. *)
Definition roundScaled (a b c : Z) : option Z :=
  mathRound (PrimFloat.mul (ofZ a) (PrimFloat.div (ofZ b) (ofZ c))).

(** [Math.sqrt(a) < Math.sqrt(b)]. *)
Definition sqrtLt (a b : Z) : bool :=
  PrimFloat.ltb (PrimFloat.sqrt (ofZ a)) (PrimFloat.sqrt (ofZ b)).

(** [Math.sqrt(d2) / (255 * Math.sqrt(3)) < backgroundThreshold / 100]. *)
Definition colorDiffLt (d2 backgroundThreshold : Z) : bool :=
  PrimFloat.ltb
    (PrimFloat.div (PrimFloat.sqrt (ofZ d2))
       (PrimFloat.mul (ofZ 255) (PrimFloat.sqrt (ofZ 3))))
    (PrimFloat.div (ofZ backgroundThreshold) (ofZ 100)).

(** [f] holds of the [n] integers from [i] on. *)
Fixpoint holdsFrom (n : positive) (i : Z) (f : Z → bool) : bool :=
  match n with
  | xH => f i
  | xO n' => holdsFrom n' i f && holdsFrom n' (i + Z.pos n') f
  | xI n' =>
      f i && holdsFrom n' (i + 1) f && holdsFrom n' (i + 1 + Z.pos n') f
  end.

(** [Math.sqrt(d2) < (backgroundThreshold / 100) * 255 * 3]. *)
Definition similarityLt (d2 backgroundThreshold : Z) : bool :=
  PrimFloat.ltb (PrimFloat.sqrt (ofZ d2))
    (PrimFloat.mul
       (PrimFloat.mul (PrimFloat.div (ofZ backgroundThreshold) (ofZ 100))
          (ofZ 255))
       (ofZ 3)).

(** [count < primaryCount * 0.05]. *)
Definition belowFrequency (count primaryCount : Z) : bool :=
  PrimFloat.ltb (ofZ count)
    (PrimFloat.mul (ofZ primaryCount) (PrimFloat.div (ofZ 5) (ofZ 100))).

End Binary64.

(** ** image-processor.ts *)

Module ImageProcessor.
Import Palette.

(** *** Resampling *)

(** [Math.round(num / den)] for [den > 0], the quotient taken exactly:
    the nearest integer, a half rounded up. *)
Definition mathRound (num den : Z) : Z := (2 * num + den) / (2 * den).

(** [Math.round(len * (maxBeads / longer))] for [longer > 0].  The source
    computes the product in binary64.  Where the exact product is not a
    half more than an integer, the binary64 product lies on the same side
    of that half (the lengths being far below 2^25) and the result is that
    of the exact quotient.  Where it
    is, the binary64 product can lie just below that half
    ([49 * (1 / 98)], [25 * (29 / 50)]), and [Math.round] then gives the
    lower neighbour. *)
Definition scaledAxis (len maxBeads longer : Z) : Z :=
  let rounded := mathRound (len * maxBeads) longer in
  let onHalf := (2 * (len * maxBeads)) mod (2 * longer) =? longer in
  let below :=
    match Binary64.roundScaled len maxBeads longer with
    | Some v => v =? rounded - 1
    | None => false
    end in
  if onHalf && below then rounded - 1 else rounded.

(** [s] is an integer nearest to [num / den]. *)
Definition nearestInteger (s num den : Z) : Prop :=
  2 * num - den <= 2 * den * s <= 2 * num + den.

(** The [width] and [height] of the processing canvas. *)
Definition targetSize (imgWidth imgHeight maxBeads : Z) : Z * Z :=
  if imgHeight <? imgWidth then
    if maxBeads <? imgWidth
    then (maxBeads, scaledAxis imgHeight maxBeads imgWidth)
    else (imgWidth, imgHeight)
  else
    if maxBeads <? imgHeight
    then (scaledAxis imgWidth maxBeads imgHeight, maxBeads)
    else (imgWidth, imgHeight).

(** *** Pixel data *)

(** [data[i]] of the [Uint8ClampedArray] returned by
    [getImageData(0, 0, width, height)]: RGBA bytes, row-major, of length
    [4 * width * height], so that every read below is in range. *)
Definition rd (data : list Z) (i : nat) : Z := default 0 (data !! i).

Definition rgbAt (data : list Z) (idx : nat) : Z * Z * Z :=
  (rd data idx, rd data (idx + 1), rd data (idx + 2)).

(** Conversion of a number to an element of a [Uint8ClampedArray], the
    number given in sixteenths: clamp to [0, 255], round to the nearest
    integer, a half to the even neighbour. *)
Definition toUint8Clamp16 (n16 : Z) : Z :=
  if n16 <=? 0 then 0
  else if 255 * 16 <=? n16 then 255
  else
    let f := n16 / 16 in
    let rem := n16 mod 16 in
    if rem <? 8 then f
    else if 8 <? rem then f + 1
    else if Z.even f then f else f + 1.

(** The same for a possibly-NaN integer; NaN is stored as 0. *)
Definition toUint8Clamp (v : option Z) : Z :=
  match v with
  | Some v => toUint8Clamp16 (16 * v)
  | None => 0
  end.

(** *** Background removal *)

Definition samplePoints (width height : nat) : list (nat * nat) :=
  [ (0, 0); (width - 1, 0); (0, height - 1); (width - 1, height - 1);
    (width / 2, 0); (width / 2, height - 1);
    (0, height / 2); (width - 1, height / 2) ]%nat.

(** [colorFreq], an object keyed by ["r,g,b"]: its entries in insertion
    order, each with its count. *)
Fixpoint countColor (rgb : Z * Z * Z) (colorFreq : list (Z * Z * Z * nat))
    : list (Z * Z * Z * nat) :=
  match colorFreq with
  | [] => [(rgb, 1%nat)]
  | (key, count) :: rest =>
      if decide (key = rgb) then (key, S count) :: rest
      else (key, count) :: countColor rgb rest
  end.

Definition sampleFrequencies (data : list Z) (width height : nat)
    : list (Z * Z * Z * nat) :=
  foldl (fun colorFreq '(x, y) =>
           countColor (rgbAt data ((y * width + x) * 4)) colorFreq)
    [] (samplePoints width height).

(** [sort((a, b) => b.count - a.count)]: descending by count, stable. *)
Fixpoint insertByCount (e : Z * Z * Z * nat) (sorted : list (Z * Z * Z * nat))
    : list (Z * Z * Z * nat) :=
  match sorted with
  | [] => [e]
  | e' :: rest =>
      if (e'.2 <=? e.2)%nat then e :: sorted
      else e' :: insertByCount e rest
  end.

Definition sortByCount (l : list (Z * Z * Z * nat)) : list (Z * Z * Z * nat) :=
  foldr insertByCount [] l.

(** [(bgColorR, bgColorG, bgColorB)]. *)
Definition backgroundColor (data : list Z) (width height : nat) : Z * Z * Z :=
  match sortByCount (sampleFrequencies data width height) with
  | (rgb, _) :: _ => rgb
  | [] => (0, 0, 0)
  end.

(** The radicand of the distance between two colours. *)
Definition diff2 (c bg : Z * Z * Z) : Z :=
  let '(r, g, b) := c in
  let '(bgR, bgG, bgB) := bg in
  (r - bgR) ^ 2 + (g - bgG) ^ 2 + (b - bgB) ^ 2.

(** [colorDiff < bgThreshold], where
    [colorDiff = Math.sqrt(d2) / (255 * Math.sqrt(3))] and
    [bgThreshold = backgroundThreshold / 100].  The left side is never
    negative, so the test fails for a threshold of 0 or less; otherwise both
    sides are squared and cleared of denominators
    ([195075 = 3 * 255 ^ 2]). *)
Definition withinThreshold (d2 backgroundThreshold : Z) : bool :=
  (0 <? backgroundThreshold)
  && (d2 * 10000 <? backgroundThreshold ^ 2 * 195075).

Record fillState := FillState {
  queue : list (nat * nat);
  visited : gset nat;
  transparentPixels : gset nat
}.

(** The starting queue: the top and bottom rows, then the left and right
    columns without their corners. *)
Definition borderQueue (width height : nat) : list (nat * nat) :=
  flat_map (fun x => [(x, 0%nat); (x, (height - 1)%nat)]) (seq 0 width)
  ++ flat_map (fun y => [(0%nat, y); ((width - 1)%nat, y)])
       (seq 1 (height - 2)).

(** The pixels pushed after [(x, y)] has been marked. *)
Definition neighbours (width height x y : nat) : list (nat * nat) :=
  (if (0 <? x)%nat then [((x - 1)%nat, y)] else [])
  ++ (if (x <? width - 1)%nat then [((x + 1)%nat, y)] else [])
  ++ (if (0 <? y)%nat then [(x, (y - 1)%nat)] else [])
  ++ (if (y <? height - 1)%nat then [(x, (y + 1)%nat)] else []).

Section FloodFill.
Variables (data : list Z) (width height : nat).
Variables (bg : Z * Z * Z) (backgroundThreshold : Z).

Definition similar (idx : nat) : bool :=
  withinThreshold (diff2 (rgbAt data (idx * 4)) bg) backgroundThreshold.

(** One iteration of [while (queue.length > 0)], the queue not empty. *)
Definition floodStep (st : fillState) : fillState :=
  match queue st with
  | [] => st
  | (x, y) :: rest =>
      let idx := (y * width + x)%nat in
      if decide (idx ∈ visited st)
      then FillState rest (visited st) (transparentPixels st)
      else
        let visited' := {[ idx ]} ∪ visited st in
        if similar idx
        then FillState (rest ++ neighbours width height x y) visited'
               ({[ idx ]} ∪ transparentPixels st)
        else FillState rest visited' (transparentPixels st)
  end.

(** The loop, cut off after [fuel] iterations. *)
Fixpoint floodLoop (fuel : nat) (st : fillState) : fillState :=
  match fuel with
  | O => st
  | S fuel' =>
      match queue st with
      | [] => st
      | _ :: _ => floodLoop fuel' (floodStep st)
      end
  end.

(** Iterations that always empty the queue: every border push, and four
    pushes for each pixel marked. *)
Definition floodFuel : nat :=
  (length (borderQueue width height) + 4 * (width * height) + 1)%nat.

Definition floodFill : fillState :=
  floodLoop floodFuel (FillState (borderQueue width height) ∅ ∅).
End FloodFill.

(** *** Border connectivity, as the flood fill is meant to compute it *)

(** The distance between two colours as a fraction of the distance between
    black and white. *)
Definition normalizedDistance (c bg : Z * Z * Z) : R :=
  (sqrt (IZR (diff2 c bg)) / (255 * sqrt 3))%R.

(** The pixel with index [idx] is nearer to [bg] than the threshold, a
    percentage, allows. *)
Definition nearBackground (data : list Z) (bg : Z * Z * Z)
    (backgroundThreshold : Z) (idx : nat) : Prop :=
  (normalizedDistance (rgbAt data (idx * 4)) bg
   < IZR backgroundThreshold / 100)%R.

Definition pixelIndex (width : nat) (p : nat * nat) : nat :=
  (p.2 * width + p.1)%nat.

Definition inGrid (width height : nat) (p : nat * nat) : Prop :=
  (p.1 < width ∧ p.2 < height)%nat.

Definition onBorder (width height : nat) (p : nat * nat) : Prop :=
  inGrid width height p
  ∧ (p.2 = 0 ∨ p.2 = height - 1 ∨ p.1 = 0 ∨ p.1 = width - 1)%nat.

(** Horizontal or vertical neighbours. *)
Definition adjacent4 (p q : nat * nat) : Prop :=
  (p.1 = q.1 ∧ (p.2 = S q.2 ∨ q.2 = S p.2))
  ∨ (p.2 = q.2 ∧ (p.1 = S q.1 ∨ q.1 = S p.1)).

(** [borderChain sim w h (p :: l)]: a chain of pixels of the grid, each
    satisfying [sim], each adjacent to the next, that ends at [p] and starts
    on the border. *)
Inductive borderChain (sim : nat → Prop) (width height : nat)
    : list (nat * nat) → Prop :=
  | chain_start p :
      onBorder width height p → sim (pixelIndex width p) →
      borderChain sim width height [p]
  | chain_extend p q l :
      borderChain sim width height (p :: l) →
      inGrid width height q → adjacent4 p q →
      sim (pixelIndex width q) →
      borderChain sim width height (q :: p :: l).

Definition borderConnected (sim : nat → Prop) (width height : nat)
    (p : nat * nat) : Prop :=
  ∃ l, borderChain sim width height (p :: l).

(** *** The invariant of the fill loop and its measure *)

Section FloodFillInvariant.
Variables (data : list Z) (width height : nat).
Variables (bg : Z * Z * Z) (backgroundThreshold : Z).

(** What holds of the queue and the two sets before every iteration. *)
Record fillInv (st : fillState) : Prop := FillInv {
  inv_queue_grid : ∀ p, p ∈ queue st → inGrid width height p;
  inv_queue_origin : ∀ p, p ∈ queue st →
    onBorder width height p
    ∨ ∃ q, inGrid width height q
        ∧ pixelIndex width q ∈ transparentPixels st ∧ adjacent4 q p;
  inv_visited_grid : ∀ i, i ∈ visited st → (i < width * height)%nat;
  inv_marked_connected : ∀ i, i ∈ transparentPixels st →
    ∃ p, inGrid width height p ∧ pixelIndex width p = i
      ∧ borderConnected (λ i, similar data bg backgroundThreshold i = true)
          width height p;
  inv_visited_similar : ∀ i, i ∈ visited st →
    similar data bg backgroundThreshold i = true → i ∈ transparentPixels st;
  inv_border_seen : ∀ p, onBorder width height p →
    pixelIndex width p ∈ visited st ∨ p ∈ queue st;
  inv_neighbours_seen : ∀ p q,
    inGrid width height p → pixelIndex width p ∈ transparentPixels st →
    inGrid width height q → adjacent4 p q →
    pixelIndex width q ∈ visited st ∨ q ∈ queue st
}.

(** A bound on the iterations left: the queue, and four pushes for each
    pixel not yet visited. *)
Definition fillMeasure (st : fillState) : nat :=
  (length (queue st) + 4 * (width * height - size (visited st)))%nat.
End FloodFillInvariant.

Arguments inv_queue_grid {data width height bg backgroundThreshold} st _.
Arguments inv_queue_origin {data width height bg backgroundThreshold} st _.
Arguments inv_visited_grid {data width height bg backgroundThreshold} st _.
Arguments inv_marked_connected {data width height bg backgroundThreshold} st _.
Arguments inv_visited_similar {data width height bg backgroundThreshold} st _.
Arguments inv_border_seen {data width height bg backgroundThreshold} st _.
Arguments inv_neighbours_seen {data width height bg backgroundThreshold} st _.

(** [transparentPixels] as [processImage] leaves it before quantizing. *)
Definition backgroundPixels (data : list Z) (width height : nat)
    (removeBackground : bool) (backgroundThreshold : Z) : gset nat :=
  if removeBackground
  then transparentPixels
         (floodFill data width height (backgroundColor data width height)
            backgroundThreshold)
  else ∅.

Definition isBackgroundColor (removeBackground : bool)
    (transparentPixels : gset nat) (width x y : nat) : bool :=
  removeBackground && bool_decide ((y * width + x)%nat ∈ transparentPixels).

(** *** Quantizing *)

(** The two nested [for] loops over [y] and [x]: [body] handles one pixel,
    threading its buffers and giving the cell for [colorGrid[y][x]]. *)
Fixpoint rowLoop {St : Type} (body : St → nat → result (St * string))
    (xs : list nat) (st : St) (row : list string)
    : result (St * list string) :=
  match xs with
  | [] => Ok (st, row)
  | x :: xs' =>
      '(st', cell) ← body st x;
      rowLoop body xs' st' (row ++ [cell])
  end.

Fixpoint gridLoop {St : Type} (body : St → nat → nat → result (St * string))
    (width : nat) (ys : list nat) (st : St) (colorGrid : list (list string))
    : result (St * list (list string)) :=
  match ys with
  | [] => Ok (st, colorGrid)
  | y :: ys' =>
      '(st', row) ← rowLoop (fun st x => body st x y) (seq 0 width) st [];
      gridLoop body width ys' st' (colorGrid ++ [row])
  end.

Section Quantize.
Variables (palette : list string) (width height : nat).
Variables (removeBackground : bool) (transparentPixels : gset nat).

(** The body of the loop without dithering; the state is [data]. *)
Definition mapPixel (data : list Z) (x y : nat) : result (list Z * string) :=
  let index := ((y * width + x) * 4)%nat in
  let '(r, g, b) := rgbAt data index in
  if isBackgroundColor removeBackground transparentPixels width x y
  then Ok (<[(index + 3)%nat := 0]> data, transparent)
  else
    match findClosestColor r g b palette with
    | None => Throw TypeError (* [closestColor.substring] on [undefined] *)
    | Some closestColor =>
        let '(cr, cg, cb) := parseColor closestColor in
        let data := <[index := toUint8Clamp cr]> data in
        let data := <[(index + 1)%nat := toUint8Clamp cg]> data in
        let data := <[(index + 2)%nat := toUint8Clamp cb]> data in
        Ok (data, closestColor)
    end.

(** [pixels[i] += (err * k) / 16]: the sum is exact, the store clamps and
    rounds it; a NaN error stores 0. *)
Definition addError (i : nat) (err : option Z) (k : Z) (pixels : list Z)
    : list Z :=
  <[i := match err with
         | Some e => toUint8Clamp16 (16 * rd pixels i + e * k)
         | None => 0
         end]> pixels.

Definition addError3 (i : nat) (errR errG errB : option Z) (k : Z)
    (pixels : list Z) : list Z :=
  addError (i + 2) errB k (addError (i + 1) errG k (addError i errR k pixels)).

(** The error distribution of one pixel. *)
Definition diffuse (x y idx : nat) (errR errG errB : option Z)
    (pixels : list Z) : list Z :=
  let pixels :=
    if (x + 1 <? width)%nat
    then addError3 (idx + 4) errR errG errB 7 pixels
    else pixels in
  if (y + 1 <? height)%nat then
    let pixels :=
      if (0 <? x)%nat
      then addError3 (idx + 4 * width - 4) errR errG errB 3 pixels
      else pixels in
    let pixels := addError3 (idx + 4 * width) errR errG errB 5 pixels in
    if (x + 1 <? width)%nat
    then addError3 (idx + 4 * width + 4) errR errG errB 1 pixels
    else pixels
  else pixels.

(** The body of the Floyd-Steinberg loop; the state is [(pixels, data)]. *)
Definition ditherPixel (st : list Z * list Z) (x y : nat)
    : result (list Z * list Z * string) :=
  let '(pixels, data) := st in
  let idx := ((y * width + x) * 4)%nat in
  let '(r, g, b) := rgbAt pixels idx in
  if isBackgroundColor removeBackground transparentPixels width x y
  then Ok (pixels, <[(idx + 3)%nat := 0]> data, transparent)
  else
    match findClosestColor r g b palette with
    | None => Throw TypeError (* [closestColor.substring] on [undefined] *)
    | Some closestColor =>
        let '(cr, cg, cb) := parseColor closestColor in
        let errR := (fun c => r - c) <$> cr in
        let errG := (fun c => g - c) <$> cg in
        let errB := (fun c => b - c) <$> cb in
        let pixels := diffuse x y idx errR errG errB pixels in
        let data := <[idx := toUint8Clamp cr]> data in
        let data := <[(idx + 1)%nat := toUint8Clamp cg]> data in
        let data := <[(idx + 2)%nat := toUint8Clamp cb]> data in
        Ok (pixels, data, closestColor)
    end.

(** [colorGrid] after the quantizing loops. *)
Definition quantize (dithering : bool) (data : list Z)
    : result (list (list string)) :=
  if dithering then
    '(_, colorGrid) ← gridLoop ditherPixel width (seq 0 height) (data, data) [];
    Ok colorGrid
  else
    '(_, colorGrid) ← gridLoop mapPixel width (seq 0 height) data [];
    Ok colorGrid.
End Quantize.

(** Channel [c] (0 to 3) of the pixel of column [x] and row [y]. *)
Definition channelAt (pixels : list Z) (width x y c : nat) : Z :=
  rd pixels ((y * width + x) * 4 + c).

(** The sixteenths of the error of the pixel [(x, y)] that the pixel
    [(x', y')] is to receive: the Floyd-Steinberg kernel. *)
Definition kernelWeight (x y x' y' : nat) : Z :=
  if decide (x' = x + 1 ∧ y' = y)%nat then 7
  else if decide (x' + 1 = x ∧ y' = y + 1)%nat then 3
  else if decide (x' = x ∧ y' = y + 1)%nat then 5
  else if decide (x' = x + 1 ∧ y' = y + 1)%nat then 1
  else 0.

(** What the quantizer is to put in the cell of column [x] and row [y]. *)
Definition cellQuantized (palette : list string) (width : nat)
    (removeBackground : bool) (transparentPixels : gset nat)
    (x y : nat) (cell : string) : Prop :=
  if isBackgroundColor removeBackground transparentPixels width x y
  then cell = transparent
  else cell ∈ palette.

(** The grid has [height] rows of [width] cells, each as the quantizer is to
    fill it. *)
Definition gridQuantized (palette : list string) (width height : nat)
    (removeBackground : bool) (transparentPixels : gset nat)
    (grid : list (list string)) : Prop :=
  length grid = height
  ∧ ∀ y row, grid !! y = Some row →
      length row = width
      ∧ ∀ x c, row !! x = Some c →
          cellQuantized palette width removeBackground transparentPixels x y c.

(** *** Drawing the pattern *)

Inductive drawOp :=
  | ClearRect (x y w h : Z)
  | FillRect (fillStyle : option string) (x y w h : Z)
  | StrokeRect (x y w h : Z).

(** A canvas: its size and the drawing calls made on it since it was sized
    (sizing a canvas clears it to transparent). *)
Record canvas := Canvas {
  canvasWidth : Z;
  canvasHeight : Z;
  drawn : list drawOp
}.

(** The calls drawing the bead of column [x] and row [y].  [color] is [None]
    for [undefined], which is no valid [fillStyle]. *)
Definition drawBead (color : option string) (x y : nat) (beadSize : Z)
    (showGrid : bool) : list drawOp :=
  if decide (color = Some transparent) then []
  else
    FillRect color (Z.of_nat x * beadSize) (Z.of_nat y * beadSize)
      beadSize beadSize
    :: (if showGrid
        then [StrokeRect (Z.of_nat x * beadSize) (Z.of_nat y * beadSize)
                beadSize beadSize]
        else []).

(** The loop "draw each bead as a colored square" over a grid of the given
    size. *)
Definition drawBeads (colorGrid : list (list string)) (width height : nat)
    (beadSize : Z) (showGrid : bool) : list drawOp :=
  flat_map (fun y =>
    flat_map (fun x =>
      drawBead (colorGrid !! y ≫= (.!! x)) x y beadSize showGrid)
      (seq 0 width))
    (seq 0 height).

(** *** processImage *)

(** A decoded image: its native size and its pixels once drawn on a canvas
    of a given size and read back ([ctx.drawImage] then [ctx.getImageData],
    both the browser's). *)
Record image := Image {
  imgWidth : Z;
  imgHeight : Z;
  resampled : nat → nat → list Z
}.

(** The promise of [processImage] for an image that has loaded: [Ok] is
    [resolve({patternDataUrl, colorGrid})], with the pattern canvas standing
    for its data URL, and [Throw] is [reject]. *)
Definition processImage (img : image) (beadSize maxBeads : Z)
    (palette : list string) (showGrid dithering removeBackground : bool)
    (backgroundThreshold : Z) : result (canvas * list (list string)) :=
  let '(width, height) := targetSize (imgWidth img) (imgHeight img) maxBeads in
  if (width <=? 0) || (height <=? 0)
  then Throw IndexSizeError (* [getImageData] of an empty rectangle *)
  else
    let w := Z.to_nat width in
    let h := Z.to_nat height in
    let data := resampled img w h in
    let transparentPixels :=
      backgroundPixels data w h removeBackground backgroundThreshold in
    colorGrid ←
      quantize palette w h removeBackground transparentPixels dithering data;
    let cleared :=
      if removeBackground
      then [ClearRect 0 0 (width * beadSize) (height * beadSize)]
      else [] in
    Ok (Canvas (width * beadSize) (height * beadSize)
          (cleared ++ drawBeads colorGrid w h beadSize showGrid),
        colorGrid).

(** *** Counting colours *)

(** The colours read at the sample points, in the order of the points. *)
Definition sampleColors (data : list Z) (width height : nat)
    : list (Z * Z * Z) :=
  (λ '(x, y), rgbAt data ((y * width + x) * 4)) <$> samplePoints width height.

(** How often [rgb] occurs in [colors]. *)
Definition occurrences (rgb : Z * Z * Z) (colors : list (Z * Z * Z)) : nat :=
  length (filter (λ c, c = rgb) colors).

(** The entries of a frequency object after [colors] have been counted in
    turn, starting from the empty object. *)
Definition countAll (colors : list (Z * Z * Z)) : list (Z * Z * Z * nat) :=
  foldl (λ colorFreq rgb, countColor rgb colorFreq) [] colors.

(** What a frequency object holds once [colors] have been counted: one
    entry for each colour, with the number of its occurrences, the entries
    in the order in which the colours first occur. *)
Record counted (colors : list (Z * Z * Z)) (freq : list (Z * Z * Z * nat))
    : Prop := Counted {
  counted_nodup : NoDup freq.*1;
  counted_keys : ∀ c, c ∈ colors → c ∈ freq.*1;
  counted_count : ∀ p k n, freq !! p = Some (k, n) → n = occurrences k colors;
  counted_order : ∀ p k, freq.*1 !! p = Some k →
    ∃ i, colors !! i = Some k
      ∧ ∀ j c, (j < i)%nat → colors !! j = Some c →
          ∃ q, (q < p)%nat ∧ freq.*1 !! q = Some c
}.

(** Every channel of the colour is a byte. *)
Definition inRange (rgb : Z * Z * Z) : Prop :=
  0 <= rgb.1.1 <= 255 ∧ 0 <= rgb.1.2 <= 255 ∧ 0 <= rgb.2 <= 255.

(** *** Cells of the grid *)

(** [colorGrid[y][x]] for a row that exists. *)
Definition cellAt (colorGrid : list (list string)) (x y : nat)
    : option string :=
  colorGrid !! y ≫= (.!! x).

(** The cell for the pixel of column [x] and row [y] of [data] when every
    pixel is mapped on its own: the sentinel for a background pixel, else
    the nearest colour of the palette, [None] being [undefined]. *)
Definition nearestCell (palette : list string) (width : nat)
    (removeBackground : bool) (transparentPixels : gset nat) (data : list Z)
    (x y : nat) : option string :=
  if isBackgroundColor removeBackground transparentPixels width x y
  then Some transparent
  else
    let '(r, g, b) := rgbAt data ((y * width + x) * 4) in
    findClosestColor r g b palette.

(** From the pixel of raster index [k] on, [data] is as [data0] is. *)
Definition untouchedFrom (data0 : list Z) (k : nat) (data : list Z) : Prop :=
  ∀ i, (4 * k ≤ i)%nat → data !! i = data0 !! i.

(** *** Counting what has been drawn *)

Definition isFill (op : drawOp) : bool :=
  match op with FillRect _ _ _ _ _ => true | _ => false end.

Definition isFillOf (color : string) (op : drawOp) : bool :=
  match op with
  | FillRect (Some c) _ _ _ _ => bool_decide (c = color)
  | _ => false
  end.

Definition isStroke (op : drawOp) : bool :=
  match op with StrokeRect _ _ _ _ => true | _ => false end.

(** The number of the calls that satisfy [P]. *)
Definition countOps (P : drawOp → bool) (ops : list drawOp) : nat :=
  length (filter (λ op, P op = true) ops).

(** The beads of a grid: its cells other than the sentinel. *)
Definition beads (grid : list (list string)) : list string :=
  filter (λ c, c ≠ transparent) (concat grid).

End ImageProcessor.

(** ** image-processor.ts, the variant that finds the background by the
    frequency of the colours

    The same pipeline, but for background removal: the most common colour
    of the whole buffer and the frequent colours similar to it are the
    background colours, and a pixel is background when its colour is
    similar to one of them, wherever it lies. *)

Module ByFrequency.
Import Palette ImageProcessor.

(** The colours of the pixels, row by row. *)
Definition pixelColors (data : list Z) (width height : nat)
    : list (Z * Z * Z) :=
  flat_map (λ y, (λ x, rgbAt data ((y * width + x) * 4)) <$> seq 0 width)
    (seq 0 height).

(** [Object.values(colorFrequency)] after the counting loops. *)
Definition colorFrequency (data : list Z) (width height : nat)
    : list (Z * Z * Z * nat) :=
  countAll (pixelColors data width height).

(** [distance < (backgroundThreshold / 100) * 255 * 3] for a distance of
    radicand [d2]: the left side is never negative, and for a positive
    threshold both sides are squared and cleared of denominators
    ([585225 = 765 ^ 2]). *)
Definition withinSimilarity (d2 backgroundThreshold : Z) : bool :=
  (0 <? backgroundThreshold)
  && (d2 * 10000 <? backgroundThreshold ^ 2 * 585225).

(** [backgroundColors]: the most common colour and, of the others, those
    that are similar to it and whose count is not below
    [primaryBackground.count * 0.05]. *)
Definition backgroundColors (data : list Z) (width height : nat)
    (removeBackground : bool) (backgroundThreshold : Z)
    : list (Z * Z * Z * nat) :=
  if removeBackground then
    match sortByCount (colorFrequency data width height) with
    | [] => []
    | primaryBackground :: rest =>
        primaryBackground
        :: filter (λ color,
             ¬ (color.2 * 20 < primaryBackground.2)%nat
             ∧ withinSimilarity (diff2 color.1 primaryBackground.1)
                 backgroundThreshold = true) rest
    end
  else [].

Definition isBackgroundColor (removeBackground : bool)
    (backgroundColors : list (Z * Z * Z * nat)) (backgroundThreshold : Z)
    (rgb : Z * Z * Z) : bool :=
  removeBackground && negb (length backgroundColors =? 0)%nat
  && existsb (λ bgColor,
       withinSimilarity (diff2 rgb bgColor.1) backgroundThreshold)
       backgroundColors.

Section Quantize.
Variables (palette : list string) (width height : nat).
Variables (removeBackground : bool).
Variables (backgroundColors : list (Z * Z * Z * nat)).
Variable backgroundThreshold : Z.

(** The body of the loop without dithering; the state is [data]. *)
Definition mapPixel (data : list Z) (x y : nat) : result (list Z * string) :=
  let index := ((y * width + x) * 4)%nat in
  let '(r, g, b) := rgbAt data index in
  if isBackgroundColor removeBackground backgroundColors backgroundThreshold
       (r, g, b)
  then Ok (<[(index + 3)%nat := 0]> data, transparent)
  else
    match findClosestColor r g b palette with
    | None => Throw TypeError (* [closestColor.substring] on [undefined] *)
    | Some closestColor =>
        let '(cr, cg, cb) := parseColor closestColor in
        let data := <[index := toUint8Clamp cr]> data in
        let data := <[(index + 1)%nat := toUint8Clamp cg]> data in
        let data := <[(index + 2)%nat := toUint8Clamp cb]> data in
        Ok (data, closestColor)
    end.

(** The body of the Floyd-Steinberg loop; the state is [(pixels, data)],
    and the background test is made on the colour read from [pixels]. *)
Definition ditherPixel (st : list Z * list Z) (x y : nat)
    : result (list Z * list Z * string) :=
  let '(pixels, data) := st in
  let idx := ((y * width + x) * 4)%nat in
  let '(r, g, b) := rgbAt pixels idx in
  if isBackgroundColor removeBackground backgroundColors backgroundThreshold
       (r, g, b)
  then Ok (pixels, <[(idx + 3)%nat := 0]> data, transparent)
  else
    match findClosestColor r g b palette with
    | None => Throw TypeError (* [closestColor.substring] on [undefined] *)
    | Some closestColor =>
        let '(cr, cg, cb) := parseColor closestColor in
        let errR := (fun c => r - c) <$> cr in
        let errG := (fun c => g - c) <$> cg in
        let errB := (fun c => b - c) <$> cb in
        let pixels := diffuse width height x y idx errR errG errB pixels in
        let data := <[idx := toUint8Clamp cr]> data in
        let data := <[(idx + 1)%nat := toUint8Clamp cg]> data in
        let data := <[(idx + 2)%nat := toUint8Clamp cb]> data in
        Ok (pixels, data, closestColor)
    end.

Definition quantize (dithering : bool) (data : list Z)
    : result (list (list string)) :=
  if dithering then
    '(_, colorGrid) ← gridLoop ditherPixel width (seq 0 height) (data, data) [];
    Ok colorGrid
  else
    '(_, colorGrid) ← gridLoop mapPixel width (seq 0 height) data [];
    Ok colorGrid.
End Quantize.

Definition processImage (img : image) (beadSize maxBeads : Z)
    (palette : list string) (showGrid dithering removeBackground : bool)
    (backgroundThreshold : Z) : result (canvas * list (list string)) :=
  let '(width, height) := targetSize (imgWidth img) (imgHeight img) maxBeads in
  if (width <=? 0) || (height <=? 0)
  then Throw IndexSizeError (* [getImageData] of an empty rectangle *)
  else
    let w := Z.to_nat width in
    let h := Z.to_nat height in
    let data := resampled img w h in
    let backgroundColors :=
      backgroundColors data w h removeBackground backgroundThreshold in
    colorGrid ←
      quantize palette w h removeBackground backgroundColors
        backgroundThreshold dithering data;
    let cleared :=
      if removeBackground
      then [ClearRect 0 0 (width * beadSize) (height * beadSize)]
      else [] in
    Ok (Canvas (width * beadSize) (height * beadSize)
          (cleared ++ drawBeads colorGrid w h beadSize showGrid),
        colorGrid).

(** The cell for a pixel of colour [rgb] when the colours are mapped
    without dithering. *)
Definition cellOf (palette : list string) (removeBackground : bool)
    (backgroundColors : list (Z * Z * Z * nat)) (backgroundThreshold : Z)
    (rgb : Z * Z * Z) : option string :=
  if isBackgroundColor removeBackground backgroundColors backgroundThreshold
       rgb
  then Some transparent
  else findClosestColor rgb.1.1 rgb.1.2 rgb.2 palette.

End ByFrequency.

(** ** The resampler and the dithered quantizer as the specification
    words them, for comparison with the code *)

Module SpecModel.
Import Palette ImageProcessor.

(** "Target width/height such that max(width,height) == min(maxCells,
    max(nativeWidth,nativeHeight)) when the native long axis exceeds
    maxCells, otherwise dimensions are unchanged from native; the short axis
    is scaled by the same ratio and rounded to the nearest integer, floored
    at 1." *)
Definition targetSize (nativeWidth nativeHeight maxCells : Z) : Z * Z :=
  if Z.max nativeWidth nativeHeight <=? maxCells
  then (nativeWidth, nativeHeight)
  else if nativeHeight <? nativeWidth
  then (maxCells, Z.max 1 (mathRound (nativeHeight * maxCells) nativeWidth))
  else (Z.max 1 (mathRound (nativeWidth * maxCells) nativeHeight), maxCells).

(** "Nearest-color search computes squared (or plain) Euclidean distance in
    RGB space between the query color and every palette entry; returns the
    first entry achieving the minimum distance", for a query with fractional
    channels. *)
Definition channelsQ (color : string) : Q * Q * Q :=
  let '(pr, pg, pb) := parseColor color in
  (inject_Z (default 0 pr), inject_Z (default 0 pg), inject_Z (default 0 pb)).

Definition distanceQ (c : Q * Q * Q) (color : string) : Q :=
  let '(r, g, b) := c in
  let '(pr, pg, pb) := channelsQ color in
  ((r - pr) * (r - pr) + (g - pg) * (g - pg) + (b - pb) * (b - pb))%Q.

Fixpoint nearestFrom (c : Q * Q * Q) (palette : list string) (best : string)
    : string :=
  match palette with
  | [] => best
  | color :: rest =>
      if Qle_bool (distanceQ c best) (distanceQ c color)
      then nearestFrom c rest best
      else nearestFrom c rest color
  end.

Definition nearest (c : Q * Q * Q) (palette : list string) : result string :=
  match palette with
  | [] => Throw TypeError
  | color :: rest => Ok (nearestFrom c rest color)
  end.

(** "Channel values are clamped to [0,255] when read back for the next
    pixel's comparison." *)
Definition clampQ (v : Q) : Q :=
  if Qle_bool v 0 then 0%Q
  else if Qle_bool 255 v then 255%Q
  else v.

Definition rdQ (work : list Q) (i : nat) : Q := default 0%Q (work !! i).

Definition addQ (i : nat) (err : Q) (k : Z) (work : list Q) : list Q :=
  <[i := Qred (rdQ work i + err * (k # 16))]> work.

Definition add3Q (i : nat) (err : Q * Q * Q) (k : Z) (work : list Q)
    : list Q :=
  let '(errR, errG, errB) := err in
  addQ (i + 2) errB k (addQ (i + 1) errG k (addQ i errR k work)).

Section Dither.
Variables (palette : list string) (width height : nat).
Variables (transparentPixels : gset nat).

(** "Propagate it to not-yet-visited neighbors using the classic four-tap
    kernel: 7/16 to the pixel immediately to the right, 3/16 to the pixel
    below-left, 5/16 to the pixel directly below, 1/16 to the pixel
    below-right (skipping any target outside buffer bounds)." *)
Definition propagate (x y : nat) (err : Q * Q * Q) (work : list Q) : list Q :=
  let at_ (x' y' : nat) := ((y' * width + x') * 4)%nat in
  let work :=
    if (x + 1 <? width)%nat then add3Q (at_ (x + 1) y)%nat err 7 work
    else work in
  if (y + 1 <? height)%nat then
    let work :=
      if (0 <? x)%nat then add3Q (at_ (x - 1) (y + 1))%nat err 3 work
      else work in
    let work := add3Q (at_ x (y + 1))%nat err 5 work in
    if (x + 1 <? width)%nat then add3Q (at_ (x + 1) (y + 1))%nat err 1 work
    else work
  else work.

(** "For each non-transparent pixel: read its current (possibly
    error-adjusted) RGB from the working buffer, find the nearest palette
    color, write that color to the grid cell, then compute the per-channel
    quantization error (original - paletteColor) and propagate it ...
    Transparent pixels are assigned the sentinel and propagate no error." *)
Definition ditherPixel (work : list Q) (x y : nat) : result (list Q * string) :=
  let idx := ((y * width + x) * 4)%nat in
  if bool_decide ((y * width + x)%nat ∈ transparentPixels)
  then Ok (work, transparent)
  else
    let c := (clampQ (rdQ work idx), clampQ (rdQ work (idx + 1)),
              clampQ (rdQ work (idx + 2))) in
    color ← nearest c palette;
    let '(r, g, b) := c in
    let '(pr, pg, pb) := channelsQ color in
    Ok (propagate x y (r - pr, g - pg, b - pb)%Q work, color).

(** "Maintain a floating-point working copy of the RGB channels,
    initialized from the original buffer.  Process pixels in row-major
    order." *)
Definition dither (data : list Z) : result (list (list string)) :=
  '(_, colorGrid) ←
    gridLoop ditherPixel width (seq 0 height) (inject_Z <$> data) [];
  Ok colorGrid.
End Dither.

End SpecModel.

(** ** App.tsx: the component state and the editing handlers *)

Module App.
Import Palette ImageProcessor.

Inductive tool := Add | Erase | Pick.

(** The configuration options. *)
Record settings := Settings {
  beadSize : Z;
  maxBeads : Z;
  selectedPalette : paletteName;
  showGrid : bool;
  dithering : bool;
  removeBackground : bool;
  backgroundThreshold : Z
}.

#[global] Instance settings_eq_dec : EqDecision settings.
Proof. solve_decision. Defined.

(** The state of [BeadPatternGenerator].  A grid ([string[][]]) is an array
    of row arrays; the rows are objects that handlers mutate in place, so
    they live in [heap] and a grid is the list of the locations of its rows.
    The outer arrays are never mutated once they are state. *)
Record state := State {
  originalImage : option image;
  config : settings;
  beadPattern : option canvas;
  beadColors : list nat;
  colorCounts : gmap string nat;
  isEditMode : bool;
  editTool : tool;
  selectedColor : string;
  editedBeadColors : list nat;
  hasEdits : bool;
  heap : list (list string)
}.

Definition initialState : state :=
  {| originalImage := None;
     config := Settings 10 29 Standard true false false 30;
     beadPattern := None; beadColors := []; colorCounts := ∅;
     isEditMode := false; editTool := Add; selectedColor := "#000000";
     editedBeadColors := []; hasEdits := false; heap := [] |}.

(** *** Grids in the heap *)

(** The row stored at [loc]. *)
Definition rowAt (heap : list (list string)) (loc : nat) : list string :=
  default [] (heap !! loc).

(** The contents of a grid. *)
Definition contents (heap : list (list string)) (rows : list nat)
    : list (list string) :=
  rowAt heap <$> rows.

(** Fresh row arrays holding [grid]: the grid made of them and the heap
    that has them. *)
Definition allocGrid (grid : list (list string)) (heap : list (list string))
    : list nat * list (list string) :=
  (seq (length heap) (length grid), heap ++ grid).

(** [JSON.parse(JSON.stringify(rows))]: a grid of fresh rows with the same
    contents. *)
Definition deepCopy (rows : list nat) (heap : list (list string))
    : list nat * list (list string) :=
  allocGrid (contents heap rows) heap.

(** [a[i]] for an integer [i]; [None] is [undefined]. *)
Definition jsIndex {A} (a : list A) (i : Z) : option A :=
  if i <? 0 then None else a !! Z.to_nat i.

(** [rows[y][x] = color], for a cell that exists. *)
Definition writeCell (rows : list nat) (x y : Z) (color : string)
    (heap : list (list string)) : list (list string) :=
  match jsIndex rows y with
  | Some loc => <[loc := <[Z.to_nat x := color]> (rowAt heap loc)]> heap
  | None => heap
  end.

(** *** Counting beads *)

(** [counts[color] = (counts[color] || 0) + 1] for every bead of the grid,
    starting from the empty object. *)
Definition countCell (counts : gmap string nat) (color : string)
    : gmap string nat :=
  if decide (color = transparent) then counts
  else <[color := S (default 0%nat (counts !! color))]> counts.

Definition countColors (grid : list (list string)) : gmap string nat :=
  foldl (fun counts row => foldl countCell counts row) ∅ grid.

(** *** Processing *)

(** The state once [processImage] has resolved. *)
Definition setGenerated (patternDataUrl : canvas)
    (colorGrid : list (list string)) (s : state) : state :=
  let '(generated, heap1) := allocGrid colorGrid (heap s) in
  let '(edited, heap2) := deepCopy generated heap1 in
  {| originalImage := originalImage s; config := config s;
     beadPattern := Some patternDataUrl;
     beadColors := generated;
     colorCounts := countColors colorGrid;
     isEditMode := isEditMode s; editTool := editTool s;
     selectedColor := selectedColor s;
     editedBeadColors := edited; hasEdits := false;
     heap := heap2 |}.

(** The timeout callback of the processing effect, which runs after the
    image or a setting has changed. *)
Definition runProcessing (s : state) : state :=
  match originalImage s with
  | None => s
  | Some img =>
      let c := config s in
      match processImage img (beadSize c) (maxBeads c)
              (beadPalettes (selectedPalette c)) (showGrid c) (dithering c)
              (removeBackground c) (backgroundThreshold c) with
      | Ok (patternDataUrl, colorGrid) =>
          setGenerated patternDataUrl colorGrid s
      | Throw _ => s (* [console.error] *)
      end
  end.

Definition setImage (img : image) (s : state) : state :=
  {| originalImage := Some img; config := config s;
     beadPattern := beadPattern s; beadColors := beadColors s;
     colorCounts := colorCounts s; isEditMode := isEditMode s;
     editTool := editTool s; selectedColor := selectedColor s;
     editedBeadColors := editedBeadColors s; hasEdits := hasEdits s;
     heap := heap s |}.

Definition setConfig (c : settings) (s : state) : state :=
  {| originalImage := originalImage s; config := c;
     beadPattern := beadPattern s; beadColors := beadColors s;
     colorCounts := colorCounts s; isEditMode := isEditMode s;
     editTool := editTool s; selectedColor := selectedColor s;
     editedBeadColors := editedBeadColors s; hasEdits := hasEdits s;
     heap := heap s |}.

(** *** Editing *)

(** [patternCanvasRef.current] is set while the editing canvas is
    rendered. *)
Definition canvasMounted (s : state) : bool :=
  isEditMode s && bool_decide (is_Some (beadPattern s))
  && bool_decide (is_Some (originalImage s)).

(** [setEditedBeadColors(newBeadColors); setHasEdits(true)] after the rows
    have been mutated into [heap']. *)
Definition setEdited (heap' : list (list string)) (s : state) : state :=
  {| originalImage := originalImage s; config := config s;
     beadPattern := beadPattern s; beadColors := beadColors s;
     colorCounts := colorCounts s; isEditMode := isEditMode s;
     editTool := editTool s; selectedColor := selectedColor s;
     editedBeadColors := editedBeadColors s; hasEdits := true;
     heap := heap' |}.

(** [setSelectedColor(color); setEditTool('add')]. *)
Definition pickColor (color : string) (s : state) : state :=
  {| originalImage := originalImage s; config := config s;
     beadPattern := beadPattern s; beadColors := beadColors s;
     colorCounts := colorCounts s; isEditMode := isEditMode s;
     editTool := Add; selectedColor := color;
     editedBeadColors := editedBeadColors s; hasEdits := hasEdits s;
     heap := heap s |}.

Definition setEditTool (t : tool) (s : state) : state :=
  {| originalImage := originalImage s; config := config s;
     beadPattern := beadPattern s; beadColors := beadColors s;
     colorCounts := colorCounts s; isEditMode := isEditMode s;
     editTool := t; selectedColor := selectedColor s;
     editedBeadColors := editedBeadColors s; hasEdits := hasEdits s;
     heap := heap s |}.

(** [editedBeadColors[y][x]]; [Throw] when the row is [undefined], [Ok None]
    when only the cell is. *)
Definition readCell (s : state) (x y : Z) : result (option string) :=
  match jsIndex (editedBeadColors s) y with
  | Some loc => Ok (jsIndex (rowAt (heap s) loc) x)
  | None => Throw TypeError
  end.

(** The new outer array [[...editedBeadColors]] has the rows of the old
    one, which the assignment then mutates.  The rows of a grid all have the
    length of the first ([rectangular], below), so that the cell read or
    written after the bounds check exists. *)
Definition handlePatternEdit (x y : Z) (s : state) : state :=
  if (length (editedBeadColors s) =? 0)%nat || negb (isEditMode s) then s
  else
    let width :=
      Z.of_nat (length (default [] (head (contents (heap s) (editedBeadColors s))))) in
    let height := Z.of_nat (length (editedBeadColors s)) in
    if (x <? 0) || (width <=? x) || (y <? 0) || (height <=? y) then s
    else
      match editTool s with
      | Add =>
          setEdited
            (writeCell (editedBeadColors s) x y (selectedColor s) (heap s)) s
      | Erase =>
          setEdited
            (writeCell (editedBeadColors s) x y transparent (heap s)) s
      | Pick =>
          match readCell s x y with
          | Ok (Some pickedColor) =>
              if decide (pickedColor = transparent)
              then setEdited (heap s) s
              else setEdited (heap s) (pickColor pickedColor s)
          | _ => setEdited (heap s) s
          end
      end.

(** [handleCanvasDraw] once the pointer position has been turned into the
    cell [(x, y)] by [Math.floor]: the state the handler leaves and the
    exception, if any, that ends it.  The handler reads [editTool] and the
    outer array of [editedBeadColors] from the render it was created in;
    what it then draws on the canvas is replaced by the redraw of the
    editing effect and is left out. *)
Definition handleCanvasDraw (x y : Z) (s : state) : state * option error :=
  if negb (canvasMounted s) || (length (editedBeadColors s) =? 0)%nat
  then (s, None)
  else
    let s' := handlePatternEdit x y s in
    match editTool s with
    | Erase => (s', None)
    | _ =>
        match jsIndex (editedBeadColors s) y with
        | Some _ => (s', None)
        | None => (s', Some TypeError)
        end
    end.

(** [setBeadPattern(patternDataUrl); setColorCounts(counts)]. *)
Definition setPattern (patternDataUrl : canvas) (counts : gmap string nat)
    (s : state) : state :=
  {| originalImage := originalImage s; config := config s;
     beadPattern := Some patternDataUrl; beadColors := beadColors s;
     colorCounts := counts; isEditMode := isEditMode s;
     editTool := editTool s; selectedColor := selectedColor s;
     editedBeadColors := editedBeadColors s; hasEdits := hasEdits s;
     heap := heap s |}.

Definition generateEditedPattern (s : state) : state :=
  if (length (editedBeadColors s) =? 0)%nat || negb (canvasMounted s) then s
  else
    let grid := contents (heap s) (editedBeadColors s) in
    let width := length (default [] (head grid)) in
    let height := length grid in
    let w := Z.of_nat width * beadSize (config s) in
    let h := Z.of_nat height * beadSize (config s) in
    setPattern
      (Canvas w h
         (ClearRect 0 0 w h
          :: drawBeads grid width height (beadSize (config s))
               (showGrid (config s))))
      (countColors grid) s.

Definition setIsEditMode (b : bool) (s : state) : state :=
  {| originalImage := originalImage s; config := config s;
     beadPattern := beadPattern s; beadColors := beadColors s;
     colorCounts := colorCounts s; isEditMode := b;
     editTool := editTool s; selectedColor := selectedColor s;
     editedBeadColors := editedBeadColors s; hasEdits := hasEdits s;
     heap := heap s |}.

Definition applyEdits (s : state) : state :=
  setIsEditMode false (generateEditedPattern s).

Definition cancelEdits (s : state) : state :=
  let '(restored, heap') := deepCopy (beadColors s) (heap s) in
  {| originalImage := originalImage s; config := config s;
     beadPattern := beadPattern s; beadColors := beadColors s;
     colorCounts := colorCounts s; isEditMode := false;
     editTool := editTool s; selectedColor := selectedColor s;
     editedBeadColors := restored; hasEdits := false;
     heap := heap' |}.

Definition handleDownload (s : state) : state :=
  if bool_decide (is_Some (beadPattern s)) && isEditMode s && hasEdits s
  then generateEditedPattern s else s.

(** *** The component as a state machine *)

(** What the user can do; a control that is not rendered or is disabled in
    the current state does nothing, and neither does a setting put to the
    value it has.  Every upload counts as a new image. *)
Inductive event :=
  | Upload (img : image)
  | ChangeSettings (c : settings)
  | ClickEdit
  | ClickTool (t : tool)
  | ClickColor (color : string)
  | PointerAt (x y : Z)
  | ClickApply
  | ClickCancel
  | ClickDownload.

Definition editingToolsShown (s : state) : bool :=
  isEditMode s && bool_decide (is_Some (beadPattern s)).

Definition handle (e : event) (s : state) : state :=
  match e with
  | Upload img => runProcessing (setImage img s)
  | ChangeSettings c =>
      if decide (c = config s) then s else runProcessing (setConfig c s)
  | ClickEdit =>
      if bool_decide (is_Some (beadPattern s)) && negb (isEditMode s)
      then setIsEditMode true s else s
  | ClickTool t => if editingToolsShown s then setEditTool t s else s
  | ClickColor color =>
      if editingToolsShown s
         && (bool_decide (color ∈ beadPalettes (selectedPalette (config s)))
             || bool_decide (color ∈ dom (colorCounts s)))
      then pickColor color s else s
  | PointerAt x y => (handleCanvasDraw x y s).1
  | ClickApply => if isEditMode s && hasEdits s then applyEdits s else s
  | ClickCancel => if isEditMode s then cancelEdits s else s
  | ClickDownload =>
      if bool_decide (is_Some (beadPattern s)) && negb (isEditMode s)
      then handleDownload s else s
  end.

Definition run (events : list event) (s : state) : state :=
  foldl (fun s e => handle e s) s events.

(** The states the component can be in. *)
Definition reachable (s : state) : Prop :=
  ∃ events, s = run events initialState.

(** Every row of the grid has the length of the first. *)
Definition rectangular (grid : list (list string)) : Prop :=
  ∀ row, row ∈ grid → length row = length (default [] (head grid)).

(** The colours of the built-in palettes. *)
Definition allColors : list string := standard ++ mini ++ pastel.

(** Every cell holds the sentinel or one of [colors]. *)
Definition cellsIn (colors : list string) (grid : list (list string)) : Prop :=
  ∀ row, row ∈ grid → ∀ c, c ∈ row → c = transparent ∨ c ∈ colors.

(** The cell of column [x] and row [y] of the edit buffer. *)
Definition editedCell (s : state) (x y : Z) : option string :=
  jsIndex (contents (heap s) (editedBeadColors s)) y ≫= (λ row, jsIndex row x).

(** The events of an editing session: pointer input on the canvas and the
    choice of a tool or a colour. *)
Definition isEdit (e : event) : Prop :=
  match e with
  | PointerAt _ _ | ClickTool _ | ClickColor _ => True
  | _ => False
  end.

(** The number of cells of the grid that hold [color]. *)
Definition beadCount (color : string) (grid : list (list string)) : nat :=
  length (filter (λ c, c = color) (concat grid)).

(** The cells the pointer has been at. *)
Definition targets (events : list event) : list (Z * Z) :=
  flat_map (λ e, match e with PointerAt x y => [(x, y)] | _ => [] end) events.

(** What holds of every state of the component. *)
Record wellFormed (s : state) : Prop := WellFormed {
  wf_generated_alloc : ∀ loc, loc ∈ beadColors s → (loc < length (heap s))%nat;
  wf_edited_alloc :
    ∀ loc, loc ∈ editedBeadColors s → (loc < length (heap s))%nat;
  wf_edited_nodup : NoDup (editedBeadColors s);
  wf_separate : ∀ loc, loc ∈ editedBeadColors s → loc ∉ beadColors s;
  wf_shape :
    length <$> contents (heap s) (editedBeadColors s)
    = length <$> contents (heap s) (beadColors s);
  wf_rectangular : rectangular (contents (heap s) (beadColors s));
  wf_generated_cells : cellsIn allColors (contents (heap s) (beadColors s));
  wf_edited_cells : cellsIn allColors (contents (heap s) (editedBeadColors s));
  wf_selected : selectedColor s ∈ allColors;
  wf_counts : ∀ c, c ∈ dom (colorCounts s) → c ∈ allColors;
  wf_edit_pattern : isEditMode s = true → is_Some (beadPattern s);
  wf_pattern_image : is_Some (beadPattern s) → is_Some (originalImage s);
  wf_pattern_grid : is_Some (beadPattern s) → editedBeadColors s ≠ []
}.

(** *** The counts and the pattern shown *)

(** The sum of the counts of a count object. *)
Definition totalCount (counts : gmap string nat) : nat :=
  map_fold (λ _ count sum, (sum + count)%nat) 0%nat counts.

(** [Object.values(colorCounts).reduce((sum, count) => sum + count, 0)]. *)
Definition totalBeadCount (s : state) : nat := totalCount (colorCounts s).

(** [p] is a picture of [grid]: a canvas, fresh or cleared, on which the
    beads of the grid have been drawn. *)
Definition patternOf (grid : list (list string)) (p : canvas) : Prop :=
  ∃ width beadSize showGrid cleared,
    (∀ row, row ∈ grid → length row = width)
    ∧ (cleared = [] ∨ ∃ w h, cleared = [ClearRect 0 0 w h])
    ∧ drawn p
      = cleared ++ drawBeads grid width (length grid) beadSize showGrid.

(** The pattern shown and the counts shown come from one grid. *)
Definition patternCounted (s : state) : Prop :=
  ∀ p, beadPattern s = Some p →
  ∃ grid, patternOf grid p ∧ colorCounts s = countColors grid.

(** [processImage] called with the settings [c], as the processing effect
    calls it. *)
Definition processWith (img : image) (c : settings)
    : result (canvas * list (list string)) :=
  processImage img (beadSize c) (maxBeads c) (beadPalettes (selectedPalette c))
    (showGrid c) (dithering c) (removeBackground c) (backgroundThreshold c).

End App.

(** ** Inputs used in examples *)

Module Inputs.

(** A white 5 by 5 image with a black ring around a white centre. *)
Definition ringImage : list Z :=
  flat_map (λ v, [v; v; v; 255])
    [ 255; 255; 255; 255; 255;
      255;   0;   0;   0; 255;
      255;   0; 255;   0; 255;
      255;   0;   0;   0; 255;
      255; 255; 255; 255; 255 ].

(** The same as a decoded image, and an image of one black pixel. *)
Definition ringPhoto : ImageProcessor.image :=
  ImageProcessor.Image 5 5 (λ _ _, ringImage).

Definition blackPixel : ImageProcessor.image :=
  ImageProcessor.Image 1 1 (λ _ _, [0; 0; 0; 255]).

(** A 2 by 2 image of greys and a palette of black, a light grey and
    white. *)
Definition greyImage : list Z :=
  flat_map (λ v, [v; v; v; 255]) [0; 100; 201; 250].

Definition greyPalette : list string :=
  ["#000000"; "#F0F0F0"; "#FFFFFF"]%string.

(** States of the component: a one-pixel pattern generated, and the same
    in the editing mode; and settings with the pastel palette. *)
Definition loadedBlack : App.state :=
  App.run [App.Upload blackPixel] App.initialState.

Definition editingBlack : App.state :=
  App.run [App.Upload blackPixel; App.ClickEdit] App.initialState.

Definition pastelSettings : App.settings :=
  App.Settings 10 29 Palette.Pastel true false false 30.

(** A black pixel beside a white one; a state with an unapplied edit; a
    palette with entries that are no colours. *)
Definition blackWhite : list Z := [0; 0; 0; 255; 255; 255; 255; 255].

Definition erasedBlack : App.state :=
  App.run [App.ClickTool App.Erase; App.PointerAt 0 0] editingBlack.

Definition mixedPalette : list string :=
  ["red"; "#FFF"; "#00ff00"; "#00FF00"]%string.

End Inputs.

(** * Properties *)

Module PaletteFacts.
Import Palette.

Example findClosestColor_red :
  findClosestColor 250 10 10 standard = Some "#FF0000"%string.
Proof. reflexivity. Qed.

Ltac case_codes :=
  repeat match goal with
  | |- context [Z.leb ?a ?b] => destruct (Z.leb_spec a b)
  | |- context [Z.eqb ?a ?b] => destruct (Z.eqb_spec a b)
  | H : context [Z.leb ?a ?b] |- _ => destruct (Z.leb_spec a b)
  end; simpl in *; try congruence; try lia.

Lemma hexDigitValue_range c d :
  hexDigitValue c = Some d → 0 <= d <= 15.
Proof.
  unfold hexDigitValue. intros H. case_codes; inversion H; lia.
Qed.

Lemma parseInt16_two_digits a b x y :
  hexDigitValue a = Some x → hexDigitValue b = Some y →
  parseInt16 (String a (String b EmptyString)) = Some (16 * x + y).
Proof.
  intros Ha Hb.
  assert (Hws : isWhiteSpace a = false).
  { revert Ha. unfold hexDigitValue, isWhiteSpace. case_codes. }
  assert (Hm : (code a =? 45) = false).
  { revert Ha. unfold hexDigitValue. case_codes. }
  assert (Hp : (code a =? 43) = false).
  { revert Ha. unfold hexDigitValue. case_codes. }
  assert (Hx : ((code b =? 120) || (code b =? 88)) = false).
  { revert Hb. unfold hexDigitValue. case_codes. }
  unfold parseInt16. simpl. rewrite Hws, Hm, Hp. simpl.
  rewrite Hx, andb_false_r. simpl. rewrite Ha, Hb. simpl.
  f_equal. lia.
Qed.

Lemma parseColor_hex color :
  isHexColor color = true →
  ∃ pr pg pb, parseColor color = (Some pr, Some pg, Some pb)
    ∧ 0 <= pr <= 255 ∧ 0 <= pg <= 255 ∧ 0 <= pb <= 255.
Proof.
  destruct color as [|c0 [|c1 [|c2 [|c3 [|c4 [|c5 [|c6 [|? ?]]]]]]]];
    try discriminate.
  simpl. intros H.
  repeat (apply andb_prop in H; destruct H as [? H]).
  repeat match goal with
  | H : bool_decide (is_Some _) = true |- _ =>
      apply bool_decide_eq_true in H; destruct H as [? H]
  end.
  do 3 eexists. unfold parseColor, jsSubstringFrom, jsSubstring. simpl.
  erewrite !parseInt16_two_digits by eassumption.
  split; [reflexivity|].
  repeat match goal with
  | H : hexDigitValue _ = Some _ |- _ => apply hexDigitValue_range in H
  end.
  lia.
Qed.

(** [c], at index [i] of [l], is the first entry of [l] at the least
    distance [Sqrt d] from the query. *)
Definition firstNearest (r g b : Z) (l : list string) (i : nat) (c : string)
    (d : Z) : Prop :=
  l !! i = Some c ∧ colorDistance r g b c = Sqrt d
  ∧ (∀ j c', l !! j = Some c' →
       ∃ d', colorDistance r g b c' = Sqrt d' ∧ d <= d')
  ∧ (∀ j c', (j < i)%nat → l !! j = Some c' →
       ∃ d', colorDistance r g b c' = Sqrt d' ∧ d < d').

Lemma colorDistance_hex r g b color :
  isHexColor color = true → ∃ d, colorDistance r g b color = Sqrt d ∧ 0 <= d.
Proof.
  intros H. destruct (parseColor_hex _ H) as (pr & pg & pb & E & _).
  unfold colorDistance. rewrite E. eexists. split; [reflexivity|]. nia.
Qed.

Lemma closestLoop_firstNearest r g b rest :
  Forall (λ c, isHexColor c = true) rest →
  ∀ pre i c d, firstNearest r g b pre i c d →
  ∃ i' c' d', closestLoop r g b rest (Sqrt d) (Some c) = Some c'
    ∧ firstNearest r g b (pre ++ rest) i' c' d'.
Proof.
  induction 1 as [|x rest Hx _ IH]; intros pre i c d Hmin.
  - exists i, c, d. rewrite app_nil_r. done.
  - destruct (colorDistance_hex r g b x Hx) as (dx & Edx & _).
    destruct Hmin as (Hi & Hd & Hle & Hlt).
    assert (Hlen : (i < length pre)%nat) by (eapply lookup_lt_Some; eauto).
    cbn [closestLoop]. rewrite Edx. cbn [distLt].
    replace (pre ++ x :: rest) with ((pre ++ [x]) ++ rest)
      by (rewrite <- app_assoc; reflexivity).
    destruct (Z.ltb_spec dx d) as [Hlt'|Hge];
      [apply (IH (pre ++ [x]) (length pre)) | apply (IH (pre ++ [x]) i)].
    + split_and!.
      * rewrite lookup_app_r, Nat.sub_diag by lia. done.
      * done.
      * intros j c' Hj. apply lookup_app_Some in Hj as [Hj|[_ Hj]].
        -- destruct (Hle _ _ Hj) as (d' & ? & ?). exists d'. split; [done|lia].
        -- apply list_lookup_singleton_Some in Hj as [_ <-].
           exists dx. split; [done|lia].
      * intros j c' Hjl Hj. rewrite lookup_app_l in Hj by lia.
        destruct (Hle _ _ Hj) as (d' & ? & ?). exists d'. split; [done|lia].
    + split_and!.
      * rewrite lookup_app_l by lia. done.
      * done.
      * intros j c' Hj. apply lookup_app_Some in Hj as [Hj|[_ Hj]].
        -- eauto.
        -- apply list_lookup_singleton_Some in Hj as [_ <-].
           exists dx. split; [done|lia].
      * intros j c' Hjl Hj. rewrite lookup_app_l in Hj by lia. eauto.
Qed.

Lemma findClosestColor_firstNearest r g b palette :
  palette ≠ [] → Forall (λ c, isHexColor c = true) palette →
  ∃ i c d, findClosestColor r g b palette = Some c
    ∧ firstNearest r g b palette i c d.
Proof.
  destruct palette as [|x rest]; [done|]. intros _ Hall.
  apply Forall_cons in Hall as [Hx Hrest].
  destruct (colorDistance_hex r g b x Hx) as (dx & Edx & _).
  unfold findClosestColor. cbn [head closestLoop]. rewrite Edx. cbn [distLt].
  apply (closestLoop_firstNearest r g b rest Hrest [x] 0%nat x dx).
  split_and!; [done|done| |].
  - intros j c' Hj. apply list_lookup_singleton_Some in Hj as [_ <-].
    exists dx. split; [done|lia].
  - intros j c' Hj. lia.
Qed.

Lemma findClosestColor_elem r g b palette c :
  findClosestColor r g b palette = Some c → c ∈ palette.
Proof.
  unfold findClosestColor.
  assert (Hgen : ∀ rest m cc pre,
    closestLoop r g b rest m cc = Some c →
    (∀ c0, cc = Some c0 → c0 ∈ pre ++ rest) → c ∈ pre ++ rest).
  { induction rest as [|x rest IH]; intros m cc pre; cbn [closestLoop].
    - intros -> H. by apply H.
    - replace (pre ++ x :: rest) with ((pre ++ [x]) ++ rest)
        by (rewrite <- app_assoc; reflexivity).
      destruct (distLt _ _); intros Hc Hin; eapply IH; try exact Hc.
      + intros c0 [= <-]. set_solver.
      + done. }
  intros H. apply (Hgen palette Infinity (head palette) [] H).
  intros c0 Hc0. destruct palette; [done|]. injection Hc0 as ->. set_solver.
Qed.

Lemma findClosestColor_is_Some r g b palette :
  palette ≠ [] → is_Some (findClosestColor r g b palette).
Proof.
  unfold findClosestColor. destruct palette as [|x rest]; [done|]. intros _.
  assert (Hgen : ∀ l m c0, is_Some (closestLoop r g b l m (Some c0))).
  { induction l as [|y l IH]; intros m c0; cbn [closestLoop]; [by eexists|].
    destruct (distLt _ _); apply IH. }
  apply Hgen.
Qed.

Lemma findClosestColor_empty r g b : findClosestColor r g b [] = None.
Proof. reflexivity. Qed.

(** C1.  For every query colour and every non-empty palette of hexadecimal
    colours, [findClosestColor] returns an entry of the palette whose
    Euclidean distance to the query is at most that of every entry, and
    every entry at a smaller index is strictly farther: among the entries at
    the least distance the first is returned. *)
Theorem findClosestColor_nearest (r g b : Z) (palette : list string) :
  palette ≠ [] → Forall (λ c, isHexColor c = true) palette →
  ∃ i c, findClosestColor r g b palette = Some c
    ∧ palette !! i = Some c
    ∧ (∀ j c', palette !! j = Some c' →
         distanceLe (colorDistance r g b c) (colorDistance r g b c'))
    ∧ (∀ j c', (j < i)%nat → palette !! j = Some c' →
         distanceLt (colorDistance r g b c) (colorDistance r g b c')).
Proof.
  intros Hne Hhex.
  destruct (findClosestColor_firstNearest r g b palette Hne Hhex)
    as (i & c & d & Hfind & Hi & Hd & Hle & Hlt).
  assert (Hd0 : 0 <= d).
  { destruct (colorDistance_hex r g b c) as (d0 & E & ?).
    - rewrite Forall_forall in Hhex. apply Hhex.
      by eapply list_elem_of_lookup_2.
    - congruence. }
  exists i, c. split_and!; [done|done| |].
  - intros j c' Hj. destruct (Hle j c' Hj) as (d' & -> & ?). rewrite Hd.
    simpl. apply sqrt_le_1_alt. by apply IZR_le.
  - intros j c' Hji Hj. destruct (Hlt j c' Hji Hj) as (d' & -> & ?).
    rewrite Hd. simpl. apply sqrt_lt_1_alt.
    split; [by apply IZR_le|by apply IZR_lt].
Qed.

Lemma standard_hex : Forall (λ c, isHexColor c = true) standard.
Proof. repeat constructor. Qed.

Lemma findClosestColor_nearest_witness :
  standard ≠ [] ∧ Forall (λ c, isHexColor c = true) standard
  ∧ ∃ i c, findClosestColor 250 10 10 standard = Some c
      ∧ standard !! i = Some c
      ∧ (∀ j c', standard !! j = Some c' →
           distanceLe (colorDistance 250 10 10 c) (colorDistance 250 10 10 c'))
      ∧ (∀ j c', (j < i)%nat → standard !! j = Some c' →
           distanceLt (colorDistance 250 10 10 c) (colorDistance 250 10 10 c')).
Proof.
  split; [discriminate|]. split; [exact standard_hex|].
  apply (findClosestColor_nearest 250 10 10 standard);
    [discriminate|exact standard_hex].
Defined.

(** The second "#FFD700" of the standard palette (index 23) is never the
    entry returned. *)
Lemma standard_gold_duplicate r g b :
  ∃ i, (i ≠ 23)%nat ∧ standard !! i = findClosestColor r g b standard.
Proof.
  destruct (findClosestColor_firstNearest r g b standard)
    as (i & c & d & Hfind & Hi & Hd & _ & Hlt);
    [discriminate|exact standard_hex|].
  exists i. split; [|congruence]. intros ->.
  injection Hi as <-.
  destruct (Hlt 16%nat "#FFD700"%string) as (d' & Hd' & ?); [lia|done|].
  rewrite Hd in Hd'. injection Hd' as <-. lia.
Qed.

End PaletteFacts.

Module Binary64Facts.
Import Palette ImageProcessor Binary64.

(** [Math.sqrt] separates any two consecutive radicands up to
    [3 * 255 ^ 2], so that it is strictly increasing on them. *)
Example sqrt_separates_radicands :
  holdsFrom 195075 0 (λ d2, sqrtLt d2 (d2 + 1)) = true.
Proof. vm_compute. reflexivity. Qed.

(** For every threshold from 1 to 100 the test of the source and the
    integer test agree on the last radicand that passes and on the first
    that fails, the test of the source being monotone in the radicand; for a
    threshold of 0 both fail at 0. *)
Example threshold_boundaries :
  holdsFrom 100 1 (λ t,
    let last := (t ^ 2 * 195075 - 1) / 10000 in
    colorDiffLt last t && withinThreshold last t
    && negb (colorDiffLt (last + 1) t) && negb (withinThreshold (last + 1) t))
  && negb (colorDiffLt 0 0) && negb (withinThreshold 0 0) = true.
Proof. vm_compute. reflexivity. Qed.

(** The scaled lengths of the examples, and a quotient of exactly one half
    that binary64 puts below it. *)
Example roundScaled_examples :
  roundScaled 10 10 20 = Some (ImageProcessor.mathRound (10 * 10) 20)
  ∧ roundScaled 1 10 100 = Some (ImageProcessor.mathRound (1 * 10) 100)
  ∧ roundScaled 49 1 98 = Some 0
  ∧ ImageProcessor.mathRound (49 * 1) 98 = 1.
Proof. vm_compute. by split_and!. Qed.

End Binary64Facts.

Module ResamplerFacts.
Import ImageProcessor.

Lemma mathRound_nearest num den :
  0 < den → 0 <= num →
  nearestInteger (mathRound num den) num den ∧ 0 <= mathRound num den.
Proof.
  intros Hden Hnum. unfold nearestInteger, mathRound.
  pose proof (Z.div_mod (2 * num + den) (2 * den) ltac:(lia)) as Hdm.
  pose proof (Z.mod_pos_bound (2 * num + den) (2 * den) ltac:(lia)) as Hmod.
  pose proof (Z.div_pos (2 * num + den) (2 * den) ltac:(lia) ltac:(lia)).
  lia.
Qed.

Lemma mathRound_le num den m :
  0 < den → 0 <= num → num <= m * den → mathRound num den <= m.
Proof.
  intros Hden Hnum Hle. unfold mathRound.
  apply Z.lt_succ_r, Z.div_lt_upper_bound; nia.
Qed.

Lemma mathRound_zero num den :
  0 < den → 0 <= num → mathRound num den = 0 ↔ 2 * num < den.
Proof.
  intros Hden Hnum. unfold mathRound. split.
  - intros H.
    pose proof (Z.div_mod (2 * num + den) (2 * den) ltac:(lia)) as Hdm.
    pose proof (Z.mod_pos_bound (2 * num + den) (2 * den) ltac:(lia)).
    rewrite H in Hdm. lia.
  - intros H. apply Z.div_small. lia.
Qed.

Lemma scaledAxis_cases a b c :
  scaledAxis a b c = mathRound (a * b) c
  ∨ ((2 * (a * b)) mod (2 * c) = c
     ∧ scaledAxis a b c = mathRound (a * b) c - 1).
Proof.
  unfold scaledAxis. cbv zeta.
  destruct (Z.eqb_spec ((2 * (a * b)) mod (2 * c)) c) as [Hhalf|_];
    [|by left].
  destruct (Binary64.roundScaled a b c) as [v|]; [|by left].
  cbn [andb]. destruct (v =? _); [by right|by left].
Qed.

(** On a half the exact rounding goes up. *)
Lemma mathRound_half num den :
  0 < den → (2 * num) mod (2 * den) = den →
  2 * den * mathRound num den = 2 * num + den.
Proof.
  intros Hden Hhalf. unfold mathRound.
  pose proof (Z.div_mod (2 * num) (2 * den) ltac:(lia)) as Hdm.
  rewrite Hhalf in Hdm.
  replace (2 * num + den) with ((2 * num / (2 * den) + 1) * (2 * den))
    by lia.
  rewrite Z.div_mul by lia. lia.
Qed.

Lemma scaledAxis_nearest a b c :
  0 < c → 0 <= a * b →
  nearestInteger (scaledAxis a b c) (a * b) c ∧ 0 <= scaledAxis a b c.
Proof.
  intros Hc Hab. destruct (mathRound_nearest (a * b) c Hc Hab) as [Hn H0].
  destruct (scaledAxis_cases a b c) as [->|[Hhalf ->]]; [done|].
  pose proof (mathRound_half (a * b) c Hc Hhalf).
  unfold nearestInteger in *. split; [lia|].
  assert (0 < mathRound (a * b) c) by nia. lia.
Qed.

Lemma scaledAxis_le a b c m :
  0 < c → 0 <= a * b → a * b <= m * c → scaledAxis a b c <= m.
Proof.
  intros Hc Hab Hle. pose proof (mathRound_le (a * b) c m Hc Hab Hle).
  destruct (scaledAxis_cases a b c) as [->|[_ ->]]; lia.
Qed.

Lemma scaledAxis_zero a b c :
  0 < c → 0 <= a * b → 2 * (a * b) < c → scaledAxis a b c = 0.
Proof.
  intros Hc Hab Hlt.
  destruct (scaledAxis_cases a b c) as [->|[Hhalf _]].
  - by apply mathRound_zero.
  - rewrite Z.mod_small in Hhalf by lia. lia.
Qed.

Lemma scaledAxis_pos a b c :
  0 < c → 0 <= a * b → c < 2 * (a * b) → 1 <= scaledAxis a b c.
Proof.
  intros Hc Hab Hlt.
  destruct (mathRound_nearest (a * b) c Hc Hab) as [_ H0].
  pose proof (mathRound_zero (a * b) c Hc Hab) as Hz.
  destruct (scaledAxis_cases a b c) as [->|[Hhalf ->]]; [lia|].
  pose proof (mathRound_half (a * b) c Hc Hhalf). nia.
Qed.

Example targetSize_20_10 : targetSize 20 10 10 = (10, 5).
Proof. reflexivity. Qed.

(** A 50 by 25 image capped at 29: the exact height is 14.5, the binary64
    product lies below it, and the height is 14. *)
Example targetSize_50_25 :
  targetSize 50 25 29 = (29, 14)
  ∧ Binary64.roundScaled 25 29 50 = Some 14
  ∧ mathRound (25 * 29) 50 = 15.
Proof. vm_compute. split_and!; reflexivity. Qed.

(** For every cap of the slider, from 10 to 50, every longer side up to
    20 more than the cap and every shorter side, the scaled length is what
    binary64 gives. *)
Example scaledAxis_binary64 :
  Binary64.holdsFrom 41 10 (λ maxBeads,
    Binary64.holdsFrom 20 (maxBeads + 1) (λ longer,
      Binary64.holdsFrom (Z.to_pos longer) 1 (λ len,
        match Binary64.roundScaled len maxBeads longer with
        | Some v => v =? scaledAxis len maxBeads longer
        | None => false
        end))) = true.
Proof. vm_compute. reflexivity. Qed.

(** The short axis of a 100 by 1 image capped at 10 cells is 0, in exact
    arithmetic and in binary64, where the specification has 1. *)
Lemma targetSize_short_axis_zero :
  targetSize 100 1 10 = (10, 0)
  ∧ Binary64.roundScaled 1 10 100 = Some 0
  ∧ ¬ (1 <= (targetSize 100 1 10).2)
  ∧ SpecModel.targetSize 100 1 10 = (10, 1)
  ∧ ¬ (∀ w h m, 0 < w → 0 < h → 0 < m →
         targetSize w h m = SpecModel.targetSize w h m).
Proof.
  split; [reflexivity|]. split; [by vm_compute|].
  split; [vm_compute; by intros []|]. split; [reflexivity|].
  intros H. specialize (H 100 1 10). discriminate H; lia.
Qed.

(** C2, amended.  For positive native sizes and a positive cap: a size
    within the cap is returned unchanged; otherwise the longer axis becomes
    the cap and the shorter axis is the native length scaled by the same
    ratio and rounded to a nearest integer, never more than the cap: it is
    0 when the scaled length is below one half and at least 1 when it is
    above.  A native 20 by 10 image capped at 10 gives 10 by 5. *)
Theorem targetSize_scaled (w h m : Z) :
  0 < w → 0 < h → 0 < m →
  (Z.max w h <= m → targetSize w h m = (w, h))
  ∧ (m < Z.max w h → h < w →
       ∃ h', targetSize w h m = (m, h') ∧ nearestInteger h' (h * m) w
         ∧ 0 <= h' <= m
         ∧ (2 * (h * m) < w → h' = 0) ∧ (w < 2 * (h * m) → 1 <= h'))
  ∧ (m < Z.max w h → w <= h →
       ∃ w', targetSize w h m = (w', m) ∧ nearestInteger w' (w * m) h
         ∧ 0 <= w' <= m
         ∧ (2 * (w * m) < h → w' = 0) ∧ (h < 2 * (w * m) → 1 <= w'))
  ∧ targetSize 20 10 10 = (10, 5).
Proof.
  intros Hw Hh Hm. unfold targetSize. split_and!.
  - intros Hle. destruct (Z.ltb_spec h w), (Z.ltb_spec m w), (Z.ltb_spec m h);
      (reflexivity || lia).
  - intros Hlt Hhw. destruct (Z.ltb_spec h w); [|lia].
    destruct (Z.ltb_spec m w); [|lia].
    eexists. split; [reflexivity|].
    destruct (scaledAxis_nearest h m w) as [? ?]; [lia|nia|].
    split_and!; [done|done| | |].
    + apply scaledAxis_le; [lia|nia|nia].
    + intros ?. apply scaledAxis_zero; [lia|nia|lia].
    + intros ?. apply scaledAxis_pos; [lia|nia|lia].
  - intros Hlt Hhw. destruct (Z.ltb_spec h w); [lia|].
    destruct (Z.ltb_spec m h); [|lia].
    eexists. split; [reflexivity|].
    destruct (scaledAxis_nearest w m h) as [? ?]; [lia|nia|].
    split_and!; [done|done| | |].
    + apply scaledAxis_le; [lia|nia|nia].
    + intros ?. apply scaledAxis_zero; [lia|nia|lia].
    + intros ?. apply scaledAxis_pos; [lia|nia|lia].
  - reflexivity.
Qed.

Lemma targetSize_scaled_witness :
  0 < 100 ∧ 0 < 1 ∧ 0 < 10
  ∧ (Z.max 100 1 <= 10 → targetSize 100 1 10 = (100, 1))
  ∧ (10 < Z.max 100 1 → 1 < 100 →
       ∃ h', targetSize 100 1 10 = (10, h') ∧ nearestInteger h' (1 * 10) 100
         ∧ 0 <= h' <= 10
         ∧ (2 * (1 * 10) < 100 → h' = 0) ∧ (100 < 2 * (1 * 10) → 1 <= h'))
  ∧ (10 < Z.max 100 1 → 100 <= 1 →
       ∃ w', targetSize 100 1 10 = (w', 10) ∧ nearestInteger w' (100 * 10) 1
         ∧ 0 <= w' <= 10
         ∧ (2 * (100 * 10) < 1 → w' = 0) ∧ (1 < 2 * (100 * 10) → 1 <= w'))
  ∧ targetSize 20 10 10 = (10, 5).
Proof.
  split; [lia|]. split; [lia|]. split; [lia|].
  apply (targetSize_scaled 100 1 10); lia.
Defined.

End ResamplerFacts.

Module FloodFillFacts.
Import Palette ImageProcessor Inputs.

Lemma pixelIndex_lt width height p :
  inGrid width height p → (pixelIndex width p < width * height)%nat.
Proof. unfold inGrid, pixelIndex. nia. Qed.

Lemma pixelIndex_inj width height p q :
  inGrid width height p → inGrid width height q →
  pixelIndex width p = pixelIndex width q → p = q.
Proof.
  destruct p as [x y], q as [x' y']. unfold inGrid, pixelIndex. simpl.
  intros [Hx _] [Hx' _] E.
  assert (y = y') by nia. subst y'.
  f_equal. lia.
Qed.

Lemma elem_of_neighbours width height x y q :
  inGrid width height (x, y) →
  q ∈ neighbours width height x y ↔
  adjacent4 (x, y) q ∧ inGrid width height q.
Proof.
  destruct q as [x' y']. unfold inGrid, adjacent4, neighbours. simpl.
  intros [Hx Hy].
  rewrite !elem_of_app.
  destruct (Nat.ltb_spec 0 x), (Nat.ltb_spec x (width - 1)),
    (Nat.ltb_spec 0 y), (Nat.ltb_spec y (height - 1));
    rewrite ?elem_of_cons, ?elem_of_nil;
    (split; [intros H'; repeat destruct H' as [H'|H'];
               try done; inversion H'; subst; lia
            | intros [H' [? ?]];
              assert (x' = x - 1 ∧ y' = y ∨ x' = x + 1 ∧ y' = y
                      ∨ x' = x ∧ y' = y - 1 ∨ x' = x ∧ y' = y + 1)%nat
                as Hc by lia;
              destruct Hc as [[-> ->]|[[-> ->]|[[-> ->]|[-> ->]]]];
              first [lia | tauto]]).
Qed.

Lemma elem_of_borderQueue width height p :
  (0 < width)%nat → (0 < height)%nat →
  p ∈ borderQueue width height ↔ onBorder width height p.
Proof.
  intros Hw Hh. destruct p as [x y].
  unfold borderQueue, onBorder, inGrid. simpl.
  rewrite elem_of_app, !list_elem_of_In, !in_flat_map.
  split.
  - intros [(x0 & Hin & Hp)|(y0 & Hin & Hp)]; apply in_seq in Hin;
      simpl in Hp; destruct Hp as [Hp|[Hp|[]]]; inversion Hp; subst; lia.
  - intros [[Hx Hy] Hb].
    destruct (decide (y = 0 ∨ y = height - 1)%nat) as [Hy'|Hy'].
    + left. exists x. split; [apply in_seq; lia|].
      simpl. destruct Hy' as [->| ->]; auto.
    + right. exists y. split; [apply in_seq; lia|].
      simpl. destruct Hb as [?|[?|[->| ->]]]; auto; lia.
Qed.

Section Fill.
Variables (data : list Z) (width height : nat).
Variables (bg : Z * Z * Z) (backgroundThreshold : Z).

Local Abbreviation sim := (similar data bg backgroundThreshold).
Local Abbreviation step := (floodStep data width height bg backgroundThreshold).
Local Abbreviation loop := (floodLoop data width height bg backgroundThreshold).
Local Abbreviation grid := (inGrid width height).
Local Abbreviation idx := (pixelIndex width).
Local Abbreviation simP := (fun i => sim i = true).
Local Abbreviation connected := (borderConnected simP width height).

Local Abbreviation fillInv :=
  (fillInv data width height bg backgroundThreshold).
Local Abbreviation fillMeasure := (fillMeasure width height).

Lemma fillInv_start :
  (0 < width)%nat → (0 < height)%nat →
  fillInv (FillState (borderQueue width height) ∅ ∅).
Proof.
  intros Hw Hh. split; simpl.
  - intros p Hp. apply elem_of_borderQueue in Hp as [Hp _]; done.
  - intros p Hp. left. by apply elem_of_borderQueue in Hp.
  - set_solver.
  - set_solver.
  - set_solver.
  - intros p Hp. right. by apply elem_of_borderQueue.
  - set_solver.
Qed.

Lemma popped_connected st p rest :
  fillInv st → queue st = p :: rest → sim (idx p) = true → connected p.
Proof.
  intros Hinv Hq Hsim.
  assert (Hin : p ∈ queue st) by (rewrite Hq; left).
  destruct (inv_queue_origin st Hinv p Hin) as [Hb|(q & Hgq & Hq' & Hadj)].
  - exists []. by constructor.
  - destruct (inv_marked_connected st Hinv _ Hq') as (q' & Hgq' & E & [l Hl]).
    apply (pixelIndex_inj width height) in E; [subst q'|done..].
    exists (q :: l). constructor; try done.
    by apply (inv_queue_grid st Hinv).
Qed.

Lemma fillInv_step st :
  fillInv st → fillInv (step st).
Proof.
  intros Hinv. unfold floodStep.
  destruct (queue st) as [|[x y] rest] eqn:Hq; [done|].
  assert (Hp : grid (x, y)).
  { apply (inv_queue_grid st Hinv). rewrite Hq. left. }
  assert (Hrest : ∀ q, q ∈ rest → q ∈ queue st).
  { intros q ?. rewrite Hq. by right. }
  assert (Hseen : ∀ q, q ∈ queue st → q = (x, y) ∨ q ∈ rest).
  { intros q. rewrite Hq. by intros ?%elem_of_cons. }
  change (y * width + x)%nat with (idx (x, y)) in *.
  destruct (decide _) as [Hvis|Hnew]; [|destruct (sim _) eqn:Hsim];
    split; simpl.
  (* already visited *)
  - intros q ?. apply (inv_queue_grid st Hinv); auto.
  - intros q ?. apply (inv_queue_origin st Hinv); auto.
  - apply (inv_visited_grid st Hinv).
  - apply (inv_marked_connected st Hinv).
  - apply (inv_visited_similar st Hinv).
  - intros q Hb.
    destruct (inv_border_seen st Hinv q Hb) as [?|[->|?]%Hseen]; auto.
  - intros q q' Hgq Hm Hgq' Hadj.
    destruct (inv_neighbours_seen st Hinv q q' Hgq Hm Hgq' Hadj)
      as [?|[->|?]%Hseen]; auto.
  (* marked transparent *)
  - intros q [?|Hn]%elem_of_app.
    + apply (inv_queue_grid st Hinv); auto.
    + by apply (elem_of_neighbours width height) in Hn as [_ ?].
  - intros q [Hr|Hn]%elem_of_app.
    + destruct (inv_queue_origin st Hinv q (Hrest _ Hr))
        as [?|(q' & ? & ? & ?)]; [by left|].
      right. exists q'. split_and!; [done|set_solver|done].
    + apply (elem_of_neighbours width height) in Hn as [? _]; [|done].
      right. exists (x, y). split_and!; [done|set_solver|done].
  - intros i [->%elem_of_singleton|?]%elem_of_union.
    + by apply pixelIndex_lt.
    + by apply (inv_visited_grid st Hinv).
  - intros i [->%elem_of_singleton|?]%elem_of_union.
    + exists (x, y). split_and!; [done..|].
      by apply (popped_connected st (x, y) rest).
    + by apply (inv_marked_connected st Hinv).
  - intros i [->%elem_of_singleton|?]%elem_of_union ?; [set_solver|].
    apply elem_of_union. right. by apply (inv_visited_similar st Hinv).
  - intros q Hb. rewrite elem_of_union, elem_of_app.
    destruct (inv_border_seen st Hinv q Hb) as [?|[->|?]%Hseen]; auto.
    left. left. by apply elem_of_singleton.
  - intros q q' Hgq [E%elem_of_singleton|Hm]%elem_of_union Hgq' Hadj;
      rewrite elem_of_union, elem_of_app.
    + apply (pixelIndex_inj width height) in E; [subst q|done..].
      right. right. by apply (elem_of_neighbours width height).
    + destruct (inv_neighbours_seen st Hinv q q' Hgq Hm Hgq' Hadj)
        as [?|[->|?]%Hseen]; auto.
      left. left. by apply elem_of_singleton.
  (* visited, not similar *)
  - intros q ?. apply (inv_queue_grid st Hinv); auto.
  - intros q ?. apply (inv_queue_origin st Hinv); auto.
  - intros i [->%elem_of_singleton|?]%elem_of_union.
    + by apply pixelIndex_lt.
    + by apply (inv_visited_grid st Hinv).
  - apply (inv_marked_connected st Hinv).
  - intros i [->%elem_of_singleton|?]%elem_of_union ?; [congruence|].
    by apply (inv_visited_similar st Hinv).
  - intros q Hb. rewrite elem_of_union.
    destruct (inv_border_seen st Hinv q Hb) as [?|[->|?]%Hseen]; auto.
    left. left. by apply elem_of_singleton.
  - intros q q' Hgq Hm Hgq' Hadj. rewrite elem_of_union.
    destruct (inv_neighbours_seen st Hinv q q' Hgq Hm Hgq' Hadj)
      as [?|[->|?]%Hseen]; auto.
    left. left. by apply elem_of_singleton.
Qed.

Lemma visited_size st :
  fillInv st → (size (visited st) ≤ width * height)%nat.
Proof.
  intros Hinv.
  rewrite <- (size_set_seq (C := gset nat) 0 (width * height)).
  apply subseteq_size. intros i Hi. apply elem_of_set_seq.
  apply (inv_visited_grid st Hinv) in Hi. lia.
Qed.

Lemma neighbours_length x y :
  (length (neighbours width height x y) ≤ 4)%nat.
Proof.
  unfold neighbours. rewrite !length_app.
  repeat match goal with |- context [if ?c then _ else _] => destruct c end;
    simpl; lia.
Qed.

Lemma floodStep_decreases st :
  fillInv st → queue st ≠ [] → (fillMeasure (step st) < fillMeasure st)%nat.
Proof.
  intros Hinv Hne.
  pose proof (visited_size _ (fillInv_step st Hinv)) as Hsize'.
  revert Hsize'. unfold fillMeasure, floodStep.
  destruct (queue st) as [|[x y] rest]; [done|].
  destruct (decide _) as [Hvis|Hnew]; [simpl; lia|].
  pose proof (neighbours_length x y).
  destruct (sim _); simpl; rewrite size_union, size_singleton by set_solver;
    rewrite ?length_app; lia.
Qed.

Lemma floodLoop_exits fuel : ∀ st,
  fillInv st → (fillMeasure st < fuel)%nat →
  queue (loop fuel st) = [] ∧ fillInv (loop fuel st).
Proof.
  induction fuel as [|fuel IH]; intros st Hinv Hfuel; [lia|].
  simpl. destruct (queue st) eqn:Hq; [done|].
  apply IH; [by apply fillInv_step|].
  assert (queue st ≠ []) as Hne by congruence.
  pose proof (floodStep_decreases st Hinv Hne). lia.
Qed.

Lemma floodFill_exits :
  (0 < width)%nat → (0 < height)%nat →
  queue (floodFill data width height bg backgroundThreshold) = []
  ∧ fillInv (floodFill data width height bg backgroundThreshold).
Proof.
  intros Hw Hh. apply floodLoop_exits; [by apply fillInv_start|].
  unfold fillMeasure, floodFuel. simpl. lia.
Qed.

Lemma borderChain_head_grid p l :
  borderChain simP width height (p :: l) → grid p.
Proof. inversion 1 as [? [? _] ?|]; subst; done. Qed.

Lemma exit_marks_chain st :
  fillInv st → queue st = [] →
  ∀ l, borderChain simP width height l →
  ∀ p l', l = p :: l' → idx p ∈ transparentPixels st.
Proof.
  intros Hinv Hq. induction 1 as [p Hb Hs|p q l Hc IH Hg Hadj Hs];
    intros p0 l' [= <- <-]; apply (inv_visited_similar st Hinv); try done.
  - destruct (inv_border_seen st Hinv p Hb) as [?|Hin]; [done|].
    rewrite Hq in Hin. by apply elem_of_nil in Hin.
  - destruct (inv_neighbours_seen st Hinv p q) as [?|Hin]; try done.
    + by eapply borderChain_head_grid.
    + by eapply IH.
    + rewrite Hq in Hin. by apply elem_of_nil in Hin.
Qed.

End Fill.

Lemma diff2_nonneg c bg : 0 <= diff2 c bg.
Proof. destruct c as [[r g] b], bg as [[r' g'] b']. unfold diff2. nia. Qed.

Lemma sqrt_scaled (d2 : Z) :
  0 <= d2 → sqrt (IZR (d2 * 10000)) = (sqrt (IZR d2) * 100)%R.
Proof.
  intros H. rewrite mult_IZR, sqrt_mult; [|apply IZR_le; lia..].
  f_equal. replace (IZR 10000) with (100 * 100)%R by lra.
  apply sqrt_square. lra.
Qed.

Lemma sqrt_bound (t : Z) :
  0 <= t → sqrt (IZR (t ^ 2 * 195075)) = (IZR t * (255 * sqrt 3))%R.
Proof.
  intros H. rewrite mult_IZR, sqrt_mult; [|apply IZR_le; nia|apply IZR_le; lia].
  f_equal.
  - replace (t ^ 2) with (t * t) by lia. rewrite mult_IZR.
    apply sqrt_square. apply IZR_le; lia.
  - replace (IZR 195075) with ((255 * 255) * 3)%R by lra.
    rewrite sqrt_mult by lra. rewrite sqrt_square by lra. reflexivity.
Qed.

(** The integer test of the code is the strict comparison of the normalized
    distance with the threshold as a fraction. *)
Lemma withinThreshold_real d2 t :
  0 <= d2 →
  withinThreshold d2 t = true
  ↔ (sqrt (IZR d2) / (255 * sqrt 3) < IZR t / 100)%R.
Proof.
  intros Hd. unfold withinThreshold.
  assert (Hs3 : (0 < sqrt 3)%R) by (apply sqrt_lt_R0; lra).
  assert (Hden : (0 < 255 * sqrt 3)%R) by nra.
  assert (Hsd : (0 <= sqrt (IZR d2))%R) by apply sqrt_pos.
  rewrite andb_true_iff, Z.ltb_lt, Z.ltb_lt.
  split.
  - intros [Ht Hlt].
    assert (Hr : (sqrt (IZR (d2 * 10000)) < sqrt (IZR (t ^ 2 * 195075)))%R).
    { apply sqrt_lt_1_alt. split; [apply IZR_le; lia|by apply IZR_lt]. }
    rewrite sqrt_scaled, sqrt_bound in Hr by lia.
    apply (Rmult_lt_reg_r (255 * sqrt 3)); [done|].
    unfold Rdiv. rewrite Rmult_assoc, Rinv_l by lra. lra.
  - intros Hlt.
    assert (Hlt' : (sqrt (IZR d2) * 100 < IZR t * (255 * sqrt 3))%R).
    { apply (Rmult_lt_compat_r (255 * sqrt 3)) in Hlt; [|done].
      unfold Rdiv in Hlt. rewrite Rmult_assoc, Rinv_l in Hlt by lra. lra. }
    assert (Ht : 0 < t).
    { destruct (Z.lt_ge_cases 0 t) as [|Hle]; [done|].
      apply IZR_le in Hle. nra. }
    split; [done|].
    destruct (Z.lt_ge_cases (d2 * 10000) (t ^ 2 * 195075)) as [|Hge]; [done|].
    assert (Hr : (sqrt (IZR (t ^ 2 * 195075)) <= sqrt (IZR (d2 * 10000)))%R).
    { apply sqrt_le_1_alt. by apply IZR_le. }
    rewrite sqrt_scaled, sqrt_bound in Hr by lia. lra.
Qed.

Lemma similar_nearBackground data bg t i :
  similar data bg t i = true ↔ nearBackground data bg t i.
Proof. apply withinThreshold_real, diff2_nonneg. Qed.

Lemma borderChain_iff (P Q : nat → Prop) width height l :
  (∀ i, P i ↔ Q i) →
  borderChain P width height l → borderChain Q width height l.
Proof.
  intros HPQ. induction 1; constructor; try done; by apply HPQ.
Qed.

Lemma borderConnected_iff (P Q : nat → Prop) width height p :
  (∀ i, P i ↔ Q i) →
  borderConnected P width height p ↔ borderConnected Q width height p.
Proof.
  intros HPQ. split; intros [l Hl]; exists l;
    eapply borderChain_iff; try exact Hl; intros i; by rewrite HPQ.
Qed.

(** The pixels [floodFill] marks are the pixels of the grid joined to the
    border by a chain of pixels passing the test of the code. *)
Lemma floodFill_connected data width height bg t p :
  inGrid width height p →
  pixelIndex width p ∈ transparentPixels (floodFill data width height bg t)
  ↔ borderConnected (λ i, similar data bg t i = true) width height p.
Proof.
  intros Hp.
  destruct (floodFill_exits data width height bg t) as [Hq Hinv];
    [destruct Hp; lia..|].
  split.
  - intros Hin.
    destruct (inv_marked_connected _ Hinv _ Hin) as (q & Hq' & E & Hc).
    by apply (pixelIndex_inj width height) in E; [subst q|..].
  - intros [l Hl]. by eapply exit_marks_chain.
Qed.

(** C3.  With background removal enabled the fill loop runs until its
    queue is empty, and a pixel of the buffer is then in the transparent
    set exactly when a chain of horizontally or vertically adjacent pixels
    joins it to a pixel of the border, every pixel of the chain, both ends
    included, having a normalized distance to the seed colour strictly
    below a hundredth of the threshold.  A pixel not so joined stays
    foreground whatever its colour. *)
Theorem background_iff_border_connected (data : list Z) (width height : nat)
    (backgroundThreshold : Z) (x y : nat) :
  (x < width)%nat → (y < height)%nat →
  queue (floodFill data width height (backgroundColor data width height)
           backgroundThreshold) = []
  ∧ (isBackgroundColor true
       (backgroundPixels data width height true backgroundThreshold)
       width x y = true
     ↔ borderConnected
         (nearBackground data (backgroundColor data width height)
            backgroundThreshold)
         width height (x, y)).
Proof.
  intros Hx Hy. split.
  - apply floodFill_exits; lia.
  - unfold isBackgroundColor, backgroundPixels. simpl.
    rewrite bool_decide_eq_true.
    change (y * width + x)%nat with (pixelIndex width (x, y)).
    rewrite floodFill_connected by done.
    apply borderConnected_iff, similar_nearBackground.
Qed.

Lemma background_iff_border_connected_witness :
  (2 < 5)%nat ∧ (2 < 5)%nat
  ∧ queue (floodFill ringImage 5 5 (backgroundColor ringImage 5 5) 30) = []
  ∧ (isBackgroundColor true (backgroundPixels ringImage 5 5 true 30) 5 2 2
       = true
     ↔ borderConnected
         (nearBackground ringImage (backgroundColor ringImage 5 5) 30)
         5 5 (2%nat, 2%nat)).
Proof.
  split; [lia|]. split; [lia|].
  apply (background_iff_border_connected ringImage 5 5 30 2 2); lia.
Defined.

(** The border of [ringImage] is removed, the ring and the enclosed centre,
    which has the colour of the border, are kept. *)
Example ring_centre_kept :
  backgroundColor ringImage 5 5 = (255, 255, 255)
  ∧ ∀ x y, (x < 5)%nat → (y < 5)%nat →
      isBackgroundColor true (backgroundPixels ringImage 5 5 true 30) 5 x y
      = bool_decide (x = 0 ∨ x = 4 ∨ y = 0 ∨ y = 4)%nat.
Proof.
  split; [reflexivity|]. intros x y Hx Hy.
  assert (Hc : (x = 0 ∨ x = 1 ∨ x = 2 ∨ x = 3 ∨ x = 4)%nat) by lia.
  assert (Hr : (y = 0 ∨ y = 1 ∨ y = 2 ∨ y = 3 ∨ y = 4)%nat) by lia.
  destruct Hc as [->|[->|[->|[->| ->]]]], Hr as [->|[->|[->|[->| ->]]]];
    vm_compute; reflexivity.
Qed.

(** With a threshold of 0 no pixel passes the test, so nothing is marked. *)
Lemma floodLoop_zero_threshold data width height bg fuel : ∀ st,
  transparentPixels (floodLoop data width height bg 0 fuel st)
  = transparentPixels st.
Proof.
  induction fuel as [|fuel IH]; intros st; [done|].
  simpl. destruct (queue st) as [|[x y] rest] eqn:Hq; [done|].
  rewrite IH. unfold floodStep. rewrite Hq.
  destruct (decide _); [done|].
  unfold similar, withinThreshold. simpl. done.
Qed.

Lemma backgroundPixels_zero_threshold data width height removeBackground :
  backgroundPixels data width height removeBackground 0 = ∅.
Proof.
  unfold backgroundPixels. destruct removeBackground; [|done].
  apply floodLoop_zero_threshold.
Qed.

End FloodFillFacts.

Module QuantizerFacts.
Import Palette ImageProcessor Inputs PaletteFacts.

Section Loops.
Context {St : Type}.

Lemma rowLoop_Ok (body : St → nat → result (St * string)) xs : ∀ st row st' row',
  rowLoop body xs st row = Ok (st', row') →
  ∃ cells, row' = row ++ cells
    ∧ Forall2 (λ x c, ∃ s0 s1, body s0 x = Ok (s1, c)) xs cells.
Proof.
  induction xs as [|x xs IH]; intros st row st' row'; simpl.
  - intros [= <- <-]. exists []. by rewrite app_nil_r.
  - destruct (body st x) as [[s1 c]|e] eqn:Hb; [|done]. simpl.
    intros (cells & -> & Hcells)%IH.
    exists (c :: cells). rewrite <- app_assoc. split; [done|].
    constructor; [by eauto|done].
Qed.

Lemma rowLoop_total (body : St → nat → result (St * string)) xs :
  (∀ st x, ∃ r, body st x = Ok r) →
  ∀ st row, ∃ r, rowLoop body xs st row = Ok r.
Proof.
  intros Hb. induction xs as [|x xs IH]; intros st row; simpl; [by eexists|].
  destruct (Hb st x) as [[s1 c] ->]. simpl. apply IH.
Qed.

Lemma rowLoop_Throw (body : St → nat → result (St * string)) e xs x0 :
  (∀ st x e', body st x = Throw e' → e' = e) →
  x0 ∈ xs → (∀ st, body st x0 = Throw e) →
  ∀ st row, rowLoop body xs st row = Throw e.
Proof.
  intros Honly Hin Hthrow.
  induction xs as [|x xs IH]; intros st row; [by apply elem_of_nil in Hin|].
  simpl. destruct (body st x) as [[s1 c]|e'] eqn:Hb; simpl.
  - apply elem_of_cons in Hin as [->|Hin]; [|by apply IH].
    rewrite Hthrow in Hb. done.
  - by rewrite (Honly _ _ _ Hb).
Qed.

Lemma rowLoop_only_throws (body : St → nat → result (St * string)) e xs :
  (∀ st x e', body st x = Throw e' → e' = e) →
  ∀ st row e', rowLoop body xs st row = Throw e' → e' = e.
Proof.
  intros Honly. induction xs as [|x xs IH]; intros st row e'; simpl; [done|].
  destruct (body st x) as [[s1 c]|e0] eqn:Hb; simpl.
  - apply IH.
  - intros [= <-]. by eapply Honly.
Qed.

Lemma gridLoop_Ok (body : St → nat → nat → result (St * string)) width ys :
  ∀ st grid st' grid',
  gridLoop body width ys st grid = Ok (st', grid') →
  ∃ rows, grid' = grid ++ rows
    ∧ Forall2 (λ y row,
        Forall2 (λ x c, ∃ s0 s1, body s0 x y = Ok (s1, c)) (seq 0 width) row)
        ys rows.
Proof.
  induction ys as [|y ys IH]; intros st grid st' grid'; simpl.
  - intros [= <- <-]. exists []. by rewrite app_nil_r.
  - destruct (rowLoop _ _ _ _) as [[s1 row]|e] eqn:Hr; [|done]. simpl.
    apply rowLoop_Ok in Hr as (cells & -> & Hcells).
    intros (rows & -> & Hrows)%IH.
    exists (cells :: rows). rewrite <- app_assoc. split; [done|].
    by constructor.
Qed.

Lemma gridLoop_total (body : St → nat → nat → result (St * string)) width ys :
  (∀ st x y, ∃ r, body st x y = Ok r) →
  ∀ st grid, ∃ r, gridLoop body width ys st grid = Ok r.
Proof.
  intros Hb. induction ys as [|y ys IH]; intros st grid; simpl; [by eexists|].
  destruct (rowLoop_total (λ st x, body st x y) (seq 0 width)
              (λ st x, Hb st x y) st []) as [[s1 row] ->].
  simpl. apply IH.
Qed.

Lemma gridLoop_Throw (body : St → nat → nat → result (St * string)) e
    width ys x0 y0 :
  (∀ st x y e', body st x y = Throw e' → e' = e) →
  (x0 < width)%nat → y0 ∈ ys → (∀ st, body st x0 y0 = Throw e) →
  ∀ st grid, gridLoop body width ys st grid = Throw e.
Proof.
  intros Honly Hx Hin Hthrow.
  induction ys as [|y ys IH]; intros st grid; [by apply elem_of_nil in Hin|].
  simpl. destruct (rowLoop _ _ _ _) as [[s1 row]|e'] eqn:Hr; simpl.
  - apply elem_of_cons in Hin as [->|Hin]; [|by apply IH].
    rewrite (rowLoop_Throw (λ st x, body st x y) e (seq 0 width) x0) in Hr;
      [done|by eauto| |done].
    apply list_elem_of_In, in_seq. lia.
  - f_equal. eapply (rowLoop_only_throws (λ st x, body st x y)); [|exact Hr].
    eauto.
Qed.

End Loops.

Section Pixels.
Variables (palette : list string) (width height : nat).
Variables (removeBackground : bool) (transparentPixels : gset nat).

Local Abbreviation background :=
  (isBackgroundColor removeBackground transparentPixels width).
Local Abbreviation quantized :=
  (cellQuantized palette width removeBackground transparentPixels).
Local Abbreviation mapPx :=
  (mapPixel palette width removeBackground transparentPixels).
Local Abbreviation ditherPx :=
  (ditherPixel palette width height removeBackground transparentPixels).

Lemma mapPixel_Ok data x y data' c :
  mapPx data x y = Ok (data', c) → quantized x y c.
Proof.
  unfold mapPixel, cellQuantized, rgbAt.
  destruct (background x y); [by intros [= _ <-]|].
  destruct (findClosestColor _ _ _ _) as [cc|] eqn:Hc; [|done].
  destruct (parseColor cc) as [[cr cg] cb]. intros [= _ <-].
  by eapply findClosestColor_elem.
Qed.

Lemma ditherPixel_Ok st x y st' c :
  ditherPx st x y = Ok (st', c) → quantized x y c.
Proof.
  destruct st as [pixels data]. unfold ditherPixel, cellQuantized, rgbAt.
  destruct (background x y); [by intros [= _ <-]|].
  destruct (findClosestColor _ _ _ _) as [cc|] eqn:Hc; [|done].
  destruct (parseColor cc) as [[cr cg] cb]. intros [= _ <-].
  by eapply findClosestColor_elem.
Qed.

Lemma mapPixel_Throw data x y e :
  mapPx data x y = Throw e → e = TypeError.
Proof.
  unfold mapPixel, rgbAt. destruct (background x y); [done|].
  destruct (findClosestColor _ _ _ _) as [cc|]; [|by intros [= <-]].
  by destruct (parseColor cc) as [[cr cg] cb].
Qed.

Lemma ditherPixel_Throw st x y e :
  ditherPx st x y = Throw e → e = TypeError.
Proof.
  destruct st as [pixels data]. unfold ditherPixel, rgbAt.
  destruct (background x y); [done|].
  destruct (findClosestColor _ _ _ _) as [cc|]; [|by intros [= <-]].
  by destruct (parseColor cc) as [[cr cg] cb].
Qed.

Lemma mapPixel_total data x y :
  palette ≠ [] → ∃ r, mapPx data x y = Ok r.
Proof.
  intros Hne. unfold mapPixel, rgbAt. destruct (background x y); [by eexists|].
  destruct (findClosestColor_is_Some (rd data ((y * width + x) * 4))
              (rd data ((y * width + x) * 4 + 1))
              (rd data ((y * width + x) * 4 + 2)) palette Hne) as [cc ->].
  destruct (parseColor cc) as [[cr cg] cb]. by eexists.
Qed.

Lemma ditherPixel_total st x y :
  palette ≠ [] → ∃ r, ditherPx st x y = Ok r.
Proof.
  intros Hne. destruct st as [pixels data]. unfold ditherPixel, rgbAt.
  destruct (background x y); [by eexists|].
  destruct (findClosestColor_is_Some (rd pixels ((y * width + x) * 4))
              (rd pixels ((y * width + x) * 4 + 1))
              (rd pixels ((y * width + x) * 4 + 2)) palette Hne) as [cc ->].
  destruct (parseColor cc) as [[cr cg] cb]. by eexists.
Qed.

Lemma mapPixel_empty_palette data x y :
  palette = [] → background x y = false → mapPx data x y = Throw TypeError.
Proof. intros -> Hb. unfold mapPixel, rgbAt. by rewrite Hb. Qed.

Lemma ditherPixel_empty_palette st x y :
  palette = [] → background x y = false → ditherPx st x y = Throw TypeError.
Proof.
  intros -> Hb. destruct st. unfold ditherPixel, rgbAt. by rewrite Hb.
Qed.

Local Abbreviation quantizeAll :=
  (quantize palette width height removeBackground transparentPixels).

Local Abbreviation gridQuantized :=
  (gridQuantized palette width height removeBackground transparentPixels).

Lemma loops_gridQuantized {St} (body : St → nat → nat → result (St * string))
    st st' grid :
  (∀ s x y s' c, body s x y = Ok (s', c) → quantized x y c) →
  gridLoop body width (seq 0 height) st [] = Ok (st', grid) →
  gridQuantized grid.
Proof.
  intros Hbody (rows & -> & Hrows)%gridLoop_Ok. simpl. split.
  - apply Forall2_length in Hrows. by rewrite length_seq in Hrows.
  - intros y row Hy.
    destruct (Forall2_lookup_r _ _ _ _ _ Hrows Hy) as (y' & Hy' & Hrow).
    apply lookup_seq in Hy' as [-> _]. simpl in Hrow. split.
    + apply Forall2_length in Hrow. by rewrite length_seq in Hrow.
    + intros x c Hx.
      destruct (Forall2_lookup_r _ _ _ _ _ Hrow Hx) as (x' & Hx' & s0 & s1 & Hc).
      apply lookup_seq in Hx' as [-> _]. simpl in Hc. by eapply Hbody.
Qed.

Lemma quantize_Ok dithering data grid :
  quantizeAll dithering data = Ok grid → gridQuantized grid.
Proof.
  unfold quantize. destruct dithering.
  - destruct (gridLoop _ _ _ _ _) as [[st' g]|e] eqn:Hl; [|done].
    intros [= <-]. eapply loops_gridQuantized; [|exact Hl].
    intros. by eapply ditherPixel_Ok.
  - destruct (gridLoop _ _ _ _ _) as [[st' g]|e] eqn:Hl; [|done].
    intros [= <-]. eapply loops_gridQuantized; [|exact Hl].
    intros. by eapply mapPixel_Ok.
Qed.

Lemma quantize_total dithering data :
  palette ≠ [] → ∃ grid, quantizeAll dithering data = Ok grid.
Proof.
  intros Hne. unfold quantize. destruct dithering.
  - destruct (gridLoop_total ditherPx width (seq 0 height)
                (λ st x y, ditherPixel_total st x y Hne) (data, data) [])
      as [[st' g] ->]. by eexists.
  - destruct (gridLoop_total mapPx width (seq 0 height)
                (λ st x y, mapPixel_total st x y Hne) data [])
      as [[st' g] ->]. by eexists.
Qed.

Lemma quantize_empty_palette dithering data x y :
  palette = [] → (x < width)%nat → (y < height)%nat →
  background x y = false →
  quantizeAll dithering data = Throw TypeError.
Proof.
  intros Hp Hx Hy Hb. unfold quantize.
  assert (Hin : y ∈ seq 0 height) by (apply list_elem_of_In, in_seq; lia).
  destruct dithering.
  - rewrite (gridLoop_Throw ditherPx TypeError width (seq 0 height) x y); try done.
    + intros ????. apply ditherPixel_Throw.
    + intros st. by apply ditherPixel_empty_palette.
  - rewrite (gridLoop_Throw mapPx TypeError width (seq 0 height) x y); try done.
    + intros ????. apply mapPixel_Throw.
    + intros st. by apply mapPixel_empty_palette.
Qed.

End Pixels.

End QuantizerFacts.

Module PipelineFacts.
Import Palette ImageProcessor Inputs PaletteFacts FloodFillFacts QuantizerFacts.

Lemma processImage_Ok img beadSize maxBeads palette showGrid dithering
    removeBackground backgroundThreshold pattern grid :
  processImage img beadSize maxBeads palette showGrid dithering
    removeBackground backgroundThreshold = Ok (pattern, grid) →
  ∃ w h, targetSize (imgWidth img) (imgHeight img) maxBeads = (w, h)
    ∧ 0 < w ∧ 0 < h
    ∧ gridQuantized palette (Z.to_nat w) (Z.to_nat h) removeBackground
        (backgroundPixels (resampled img (Z.to_nat w) (Z.to_nat h))
           (Z.to_nat w) (Z.to_nat h) removeBackground backgroundThreshold)
        grid
    ∧ canvasWidth pattern = w * beadSize
    ∧ canvasHeight pattern = h * beadSize.
Proof.
  unfold processImage.
  destruct (targetSize _ _ _) as [w h].
  destruct (Z.leb_spec w 0); [done|]. destruct (Z.leb_spec h 0); [done|].
  simpl. destruct (quantize _ _ _ _ _ _ _) as [g|e] eqn:Hq; [|done].
  simpl. intros [= <- <-]. exists w, h. split_and!; try done.
  by eapply quantize_Ok.
Qed.

(** C9.  With an empty palette and a pixel of the resampled buffer that is
    not background, [processImage] rejects with the one [TypeError] raised
    at the first such pixel; a rejected promise carries no pattern and no
    grid. *)
Theorem empty_palette_rejects (img : image) (beadSize maxBeads : Z)
    (showGrid dithering removeBackground : bool) (backgroundThreshold : Z)
    (w h : Z) (x y : nat) :
  targetSize (imgWidth img) (imgHeight img) maxBeads = (w, h) →
  (x < Z.to_nat w)%nat → (y < Z.to_nat h)%nat →
  isBackgroundColor removeBackground
    (backgroundPixels (resampled img (Z.to_nat w) (Z.to_nat h))
       (Z.to_nat w) (Z.to_nat h) removeBackground backgroundThreshold)
    (Z.to_nat w) x y = false →
  processImage img beadSize maxBeads [] showGrid dithering removeBackground
    backgroundThreshold = Throw TypeError.
Proof.
  intros Hsize Hx Hy Hfg. unfold processImage. rewrite Hsize.
  destruct (Z.leb_spec w 0); [lia|]. destruct (Z.leb_spec h 0); [lia|].
  simpl. by rewrite (quantize_empty_palette [] _ _ _ _ _ _ x y).
Qed.

Lemma empty_palette_rejects_witness :
  targetSize (imgWidth blackPixel) (imgHeight blackPixel) 29 = (1, 1)
  ∧ (0 < Z.to_nat 1)%nat ∧ (0 < Z.to_nat 1)%nat
  ∧ isBackgroundColor false
      (backgroundPixels (resampled blackPixel (Z.to_nat 1) (Z.to_nat 1))
         (Z.to_nat 1) (Z.to_nat 1) false 30)
      (Z.to_nat 1) 0 0 = false
  ∧ processImage blackPixel 10 29 [] true false false 30 = Throw TypeError.
Proof.
  split; [reflexivity|]. split; [simpl; lia|]. split; [simpl; lia|].
  split; [reflexivity|].
  apply (empty_palette_rejects blackPixel 10 29 true false false 30 1 1 0 0);
    [reflexivity|simpl; lia|simpl; lia|reflexivity].
Defined.

(** C10.  With background removal enabled and a threshold of 0 the
    transparent set is empty, whatever the buffer, and the grid that
    [processImage] produces from a non-empty palette of colours has the size
    of the buffer and no transparent cell: every cell holds a palette
    entry. *)
Theorem zero_threshold_removes_nothing (img : image) (beadSize maxBeads : Z)
    (palette : list string) (showGrid dithering : bool) (w h : Z) :
  targetSize (imgWidth img) (imgHeight img) maxBeads = (w, h) →
  0 < w → 0 < h → palette ≠ [] → transparent ∉ palette →
  (∀ data width height, backgroundPixels data width height true 0 = ∅)
  ∧ ∃ pattern grid,
      processImage img beadSize maxBeads palette showGrid dithering true 0
      = Ok (pattern, grid)
      ∧ length grid = Z.to_nat h
      ∧ ∀ row, row ∈ grid →
          length row = Z.to_nat w
          ∧ ∀ c, c ∈ row → c ≠ transparent ∧ c ∈ palette.
Proof.
  intros Hsize Hw Hh Hne Hnt.
  split; [intros; apply backgroundPixels_zero_threshold|].
  destruct (quantize_total palette (Z.to_nat w) (Z.to_nat h) true ∅ dithering
              (resampled img (Z.to_nat w) (Z.to_nat h)) Hne) as [grid Hq].
  assert (Hp : processImage img beadSize maxBeads palette showGrid dithering
                 true 0
               = Ok (Canvas (w * beadSize) (h * beadSize)
                       ([ClearRect 0 0 (w * beadSize) (h * beadSize)]
                        ++ drawBeads grid (Z.to_nat w) (Z.to_nat h) beadSize
                             showGrid), grid)).
  { unfold processImage. rewrite Hsize.
    destruct (Z.leb_spec w 0); [lia|]. destruct (Z.leb_spec h 0); [lia|].
    rewrite backgroundPixels_zero_threshold. cbn [orb]. rewrite Hq. done. }
  eexists _, grid. split; [exact Hp|].
  apply quantize_Ok in Hq as [Hlen Hrows]. split; [done|].
  intros row [y Hy]%list_elem_of_lookup.
  destruct (Hrows y row Hy) as [Hl Hcells]. split; [done|].
  intros c [x Hx]%list_elem_of_lookup.
  specialize (Hcells x c Hx). unfold cellQuantized, isBackgroundColor in Hcells.
  case_bool_decide; [set_solver|]. simpl in Hcells.
  split; [|done]. by intros ->.
Qed.

Lemma standard_no_transparent : transparent ∉ standard.
Proof. intros H. by apply (bool_decide_pack _) in H. Qed.

Lemma zero_threshold_removes_nothing_witness :
  targetSize (imgWidth ringPhoto) (imgHeight ringPhoto) 29 = (5, 5)
  ∧ 0 < 5 ∧ 0 < 5 ∧ standard ≠ [] ∧ (transparent ∉ standard)
  ∧ (∀ data width height, backgroundPixels data width height true 0 = ∅)
  ∧ ∃ pattern grid,
      processImage ringPhoto 10 29 standard true false true 0
      = Ok (pattern, grid)
      ∧ length grid = Z.to_nat 5
      ∧ ∀ row, row ∈ grid →
          length row = Z.to_nat 5
          ∧ ∀ c, c ∈ row → c ≠ transparent ∧ c ∈ standard.
Proof.
  split; [reflexivity|]. split; [lia|]. split; [lia|].
  split; [discriminate|]. split; [exact standard_no_transparent|].
  apply (zero_threshold_removes_nothing ringPhoto 10 29 standard true false 5 5);
    [reflexivity|lia|lia|discriminate|exact standard_no_transparent].
Defined.

End PipelineFacts.

Module DitherFacts.
Import Palette ImageProcessor Inputs PaletteFacts FloodFillFacts QuantizerFacts.

Lemma toUint8Clamp16_range n : 0 <= toUint8Clamp16 n <= 255.
Proof.
  unfold toUint8Clamp16.
  destruct (Z.leb_spec n 0); [lia|]. destruct (Z.leb_spec (255 * 16) n); [lia|].
  pose proof (Z.div_mod n 16 ltac:(lia)).
  pose proof (Z.mod_pos_bound n 16 ltac:(lia)).
  destruct (Z.ltb_spec (n mod 16) 8); [lia|].
  destruct (Z.ltb_spec 8 (n mod 16)); [lia|].
  destruct (Z.even _); lia.
Qed.

Lemma length_addError i err k pixels :
  length (addError i err k pixels) = length pixels.
Proof. apply length_insert. Qed.

Lemma length_addError3 i eR eG eB k pixels :
  length (addError3 i eR eG eB k pixels) = length pixels.
Proof. unfold addError3. by rewrite !length_addError. Qed.

Lemma rd_addError i j e k pixels :
  (j < length pixels)%nat →
  rd (addError j (Some e) k pixels) i
  = if decide (i = j) then toUint8Clamp16 (16 * rd pixels j + e * k)
    else rd pixels i.
Proof.
  intros Hj. unfold rd at 1, addError. destruct (decide (i = j)) as [->|Hne].
  - by rewrite list_lookup_insert_eq.
  - by rewrite list_lookup_insert_ne.
Qed.

Lemma rd_addError3 i j eR eG eB k pixels :
  (j + 2 < length pixels)%nat →
  rd (addError3 j (Some eR) (Some eG) (Some eB) k pixels) i
  = if decide (i = j) then toUint8Clamp16 (16 * rd pixels j + eR * k)
    else if decide (i = j + 1)%nat
    then toUint8Clamp16 (16 * rd pixels (j + 1) + eG * k)
    else if decide (i = j + 2)%nat
    then toUint8Clamp16 (16 * rd pixels (j + 2) + eB * k)
    else rd pixels i.
Proof.
  intros Hj. unfold addError3.
  rewrite rd_addError by (rewrite !length_addError; lia).
  rewrite (rd_addError (j + 2)) by (rewrite !length_addError; lia).
  rewrite !(rd_addError _ (j + 1)) by (rewrite !length_addError; lia).
  rewrite !(rd_addError _ j) by lia.
  repeat case_decide; try lia; reflexivity.
Qed.

Section Taps.
Variables (width height : nat) (pixels : list Z).
Hypothesis Hlen : length pixels = (4 * (width * height))%nat.

(** One tap of the kernel, in coordinates: the three colour channels of the
    target pixel change, nothing else does. *)
Lemma channelAt_addError3 tx ty e0 e1 e2 k x' y' c :
  inGrid width height (tx, ty) → inGrid width height (x', y') → (c < 4)%nat →
  channelAt
    (addError3 ((ty * width + tx) * 4) (Some e0) (Some e1) (Some e2) k pixels)
    width x' y' c
  = if decide (x' = tx ∧ y' = ty ∧ c < 3)%nat
    then toUint8Clamp16
           (16 * channelAt pixels width x' y' c + nth c [e0; e1; e2] 0 * k)
    else channelAt pixels width x' y' c.
Proof.
  intros Ht Hp Hc. unfold channelAt.
  pose proof (pixelIndex_lt width height _ Ht) as Hlt. unfold pixelIndex in Hlt.
  simpl in Hlt.
  rewrite rd_addError3 by lia.
  destruct (decide (x' = tx ∧ y' = ty ∧ c < 3)%nat) as [(-> & -> & Hc3)|Hne].
  - assert (c = 0 ∨ c = 1 ∨ c = 2)%nat as [->|[->| ->]] by lia;
      repeat case_decide; try lia; simpl; repeat f_equal; lia.
  - assert (Hidx : (y' * width + x' = ty * width + tx)%nat →
                   x' = tx ∧ y' = ty).
    { intros E. apply (pixelIndex_inj width height (x', y') (tx, ty)) in E;
        [by injection E|done..]. }
    repeat case_decide; try reflexivity; exfalso; apply Hne;
      (assert (y' * width + x' = ty * width + tx)%nat as E by lia;
       apply Hidx in E; lia).
Qed.

End Taps.

(** The distribution of one pixel's error, in coordinates. *)
Lemma channelAt_diffuse width height pixels x y e0 e1 e2 x' y' c :
  length pixels = (4 * (width * height))%nat →
  inGrid width height (x, y) → inGrid width height (x', y') → (c < 4)%nat →
  channelAt
    (diffuse width height x y ((y * width + x) * 4)
       (Some e0) (Some e1) (Some e2) pixels)
    width x' y' c
  = if decide ((c < 3)%nat ∧ kernelWeight x y x' y' ≠ 0)
    then toUint8Clamp16
           (16 * channelAt pixels width x' y' c
            + nth c [e0; e1; e2] 0 * kernelWeight x y x' y')
    else channelAt pixels width x' y' c.
Proof.
  intros Hlen [Hx Hy] [Hx' Hy'] Hc. simpl in *. unfold diffuse.
  replace ((y * width + x) * 4 + 4)%nat
    with ((y * width + (x + 1)) * 4)%nat by lia.
  replace ((y * width + x) * 4 + 4 * width + 4)%nat
    with (((y + 1) * width + (x + 1)) * 4)%nat by lia.
  replace ((y * width + x) * 4 + 4 * width)%nat
    with (((y + 1) * width + x) * 4)%nat by lia.
  unfold kernelWeight.
  destruct (Nat.ltb_spec (x + 1) width), (Nat.ltb_spec (y + 1) height),
    (Nat.ltb_spec 0 x);
    try (replace (((y + 1) * width + x) * 4 - 4)%nat
           with (((y + 1) * width + (x - 1)) * 4)%nat by lia);
    repeat (rewrite (channelAt_addError3 width height);
            [|rewrite ?length_addError3; done
             |split; simpl; lia|split; simpl; lia|done]);
    repeat case_decide; try lia; try reflexivity.
Qed.

Lemma Forall_addError (P : Z → Prop) i err k pixels :
  (∀ n, P (toUint8Clamp16 n)) → P 0 →
  Forall P pixels → Forall P (addError i err k pixels).
Proof.
  intros Hclamp H0 Hall. unfold addError.
  destruct (decide (i < length pixels)%nat).
  - apply Forall_insert; [done|]. destruct err; [apply Hclamp|done].
  - by rewrite list_insert_ge by lia.
Qed.

Lemma Forall_diffuse (P : Z → Prop) width height x y idx eR eG eB pixels :
  (∀ n, P (toUint8Clamp16 n)) → P 0 →
  Forall P pixels → Forall P (diffuse width height x y idx eR eG eB pixels).
Proof.
  intros Hclamp H0 Hall. unfold diffuse, addError3.
  repeat match goal with |- context [if ?b then _ else _] => destruct b end;
    repeat apply Forall_addError; done.
Qed.

Lemma length_diffuse width height x y idx eR eG eB pixels :
  length (diffuse width height x y idx eR eG eB pixels) = length pixels.
Proof.
  unfold diffuse.
  repeat match goal with |- context [if ?b then _ else _] => destruct b end;
    by rewrite ?length_addError3.
Qed.

(** The dithered grid of [greyImage] differs from the grid of a working copy
    that keeps fractions and clamps only when read: the cell of column 1 and
    row 1 has received 31.25 (stored as 255, from 250) and then -8.75. *)
Lemma dither_clamps_on_write :
  quantize greyPalette 2 2 false ∅ true greyImage
  = Ok [["#000000"; "#000000"]; ["#F0F0F0"; "#F0F0F0"]]%string
  ∧ SpecModel.dither greyPalette 2 2 ∅ greyImage
    = Ok [["#000000"; "#000000"]; ["#F0F0F0"; "#FFFFFF"]]%string
  ∧ quantize greyPalette 2 2 false ∅ true greyImage
    ≠ SpecModel.dither greyPalette 2 2 ∅ greyImage.
Proof.
  assert (E1 : quantize greyPalette 2 2 false ∅ true greyImage
    = Ok [["#000000"; "#000000"]; ["#F0F0F0"; "#F0F0F0"]]%string)
    by (vm_compute; reflexivity).
  assert (E2 : SpecModel.dither greyPalette 2 2 ∅ greyImage
    = Ok [["#000000"; "#000000"]; ["#F0F0F0"; "#FFFFFF"]]%string)
    by (vm_compute; reflexivity).
  split; [done|]. split; [done|]. rewrite E1, E2. discriminate.
Qed.

(** One pixel of the pass, on any working copy of bytes. *)
Lemma ditherPixel_step (palette : list string) (width height : nat)
    (removeBackground : bool) (transparentPixels : gset nat)
    (pixels data : list Z) (x y : nat) :
  length pixels = (4 * (width * height))%nat →
  Forall (λ v, 0 <= v <= 255) pixels →
  (x < width)%nat → (y < height)%nat →
  palette ≠ [] → Forall (λ c, isHexColor c = true) palette →
  (isBackgroundColor removeBackground transparentPixels width x y = true →
     ditherPixel palette width height removeBackground transparentPixels
       (pixels, data) x y
     = Ok (pixels, <[((y * width + x) * 4 + 3)%nat := 0]> data, transparent))
  ∧ (isBackgroundColor removeBackground transparentPixels width x y = false →
     ∃ color cr cg cb pixels' data',
       let r := channelAt pixels width x y 0 in
       let g := channelAt pixels width x y 1 in
       let b := channelAt pixels width x y 2 in
       findClosestColor r g b palette = Some color
       ∧ parseColor color = (Some cr, Some cg, Some cb)
       ∧ ditherPixel palette width height removeBackground transparentPixels
           (pixels, data) x y
         = Ok (pixels', data', color)
       ∧ length pixels' = length pixels
       ∧ Forall (λ v, 0 <= v <= 255) pixels'
       ∧ ∀ x' y' c, (x' < width)%nat → (y' < height)%nat → (c < 4)%nat →
           channelAt pixels' width x' y' c
           = if decide ((c < 3)%nat ∧ kernelWeight x y x' y' ≠ 0)
             then toUint8Clamp16
                    (16 * channelAt pixels width x' y' c
                     + nth c [r - cr; g - cg; b - cb] 0
                       * kernelWeight x y x' y')
             else channelAt pixels width x' y' c).
Proof.
  intros Hlen Hbytes Hx Hy Hne Hhex.
  unfold ditherPixel, rgbAt. split.
  - by intros ->.
  - intros ->. unfold channelAt. rewrite Nat.add_0_r.
    destruct (findClosestColor_is_Some (rd pixels ((y * width + x) * 4))
                (rd pixels ((y * width + x) * 4 + 1))
                (rd pixels ((y * width + x) * 4 + 2)) palette Hne)
      as [color Hcolor].
    assert (Hc : isHexColor color = true).
    { rewrite Forall_forall in Hhex. by eapply Hhex, findClosestColor_elem. }
    destruct (parseColor_hex color Hc) as (cr & cg & cb & Hparse & _).
    rewrite Hcolor, Hparse. simpl.
    eexists color, cr, cg, cb, _, _.
    split_and!; [done|done|reflexivity|apply length_diffuse| |].
    + apply Forall_diffuse; [apply toUint8Clamp16_range|lia|done].
    + intros x' y' c Hx' Hy' Hc4.
      apply (channelAt_diffuse width height pixels x y); done.
Qed.

(** The working copy after a pixel and the cell of the pixel do not depend
    on the buffer that receives the colours. *)
Lemma ditherPixel_copy palette width height removeBackground
    transparentPixels pixels data data0 x y pixels' data' c :
  ditherPixel palette width height removeBackground transparentPixels
    (pixels, data) x y = Ok (pixels', data', c) →
  ∃ data0', ditherPixel palette width height removeBackground
              transparentPixels (pixels, data0) x y
            = Ok (pixels', data0', c).
Proof.
  unfold ditherPixel. destruct (rgbAt pixels _) as [[r g] b].
  destruct (isBackgroundColor _ _ _ _ _).
  - intros [= <- _ <-]. by eexists.
  - destruct (findClosestColor r g b palette) as [cc|]; [|done].
    destruct (parseColor cc) as [[cr cg] cb].
    intros [= <- _ <-]. by eexists.
Qed.

(** A working copy of bytes stays one. *)
Lemma ditherPixel_bytes palette width height removeBackground
    transparentPixels pixels data x y pixels' data' c :
  ditherPixel palette width height removeBackground transparentPixels
    (pixels, data) x y = Ok (pixels', data', c) →
  length pixels' = length pixels
  ∧ (Forall (λ v, 0 <= v <= 255) pixels → Forall (λ v, 0 <= v <= 255) pixels').
Proof.
  unfold ditherPixel. destruct (rgbAt pixels _) as [[r g] b].
  destruct (isBackgroundColor _ _ _ _ _).
  - by intros [= <- _ _].
  - destruct (findClosestColor r g b palette) as [cc|]; [|done].
    destruct (parseColor cc) as [[cr cg] cb].
    intros [= <- _ _]. split; [apply length_diffuse|].
    intros Hb. apply Forall_diffuse; [apply toUint8Clamp16_range|lia|done].
Qed.

(** The pixels that receive a part of the error come later in the order
    of the pass. *)
Lemma kernelWeight_later width x y x' y' :
  (x < width)%nat → (x' < width)%nat → kernelWeight x y x' y' ≠ 0 →
  (y * width + x < y' * width + x')%nat.
Proof.
  intros Hx Hx'. unfold kernelWeight.
  repeat case_decide; try done; intros _; nia.
Qed.

End DitherFacts.

Module AppFacts.
Import Palette ImageProcessor App Inputs PaletteFacts QuantizerFacts PipelineFacts.

(** *** Rows in the heap *)

Lemma rowAt_app_l heap extra loc :
  (loc < length heap)%nat → rowAt (heap ++ extra) loc = rowAt heap loc.
Proof. intros H. unfold rowAt. by rewrite lookup_app_l. Qed.

Lemma contents_app_l heap extra rows :
  (∀ loc, loc ∈ rows → (loc < length heap)%nat) →
  contents (heap ++ extra) rows = contents heap rows.
Proof.
  intros H. unfold contents. apply list_fmap_ext. intros i loc Hin.
  apply rowAt_app_l, H. by eapply list_elem_of_lookup_2.
Qed.

Lemma contents_alloc heap grid :
  contents (heap ++ grid) (seq (length heap) (length grid)) = grid.
Proof.
  unfold contents. apply list_eq. intros i. rewrite list_lookup_fmap.
  destruct (decide (i < length grid)%nat) as [Hi|Hi].
  - rewrite (lookup_seq_lt _ _ _ Hi). simpl. unfold rowAt.
    rewrite lookup_app_r by lia.
    replace (length heap + i - length heap)%nat with i by lia.
    destruct (lookup_lt_is_Some_2 grid i Hi) as [row ->]. done.
  - rewrite lookup_seq_ge by lia. simpl. symmetry. apply lookup_ge_None. lia.
Qed.

Lemma length_contents heap rows : length (contents heap rows) = length rows.
Proof. apply length_fmap. Qed.

Lemma jsIndex_Some {A} (l : list A) i v :
  jsIndex l i = Some v ↔ 0 <= i ∧ l !! Z.to_nat i = Some v.
Proof.
  unfold jsIndex. destruct (Z.ltb_spec i 0).
  - split; [done|intros [? _]; lia].
  - split; [by intros; split; [lia|]|by intros [_ ?]].
Qed.

Lemma jsIndex_None {A} (l : list A) i :
  jsIndex l i = None ↔ i < 0 ∨ Z.of_nat (length l) <= i.
Proof.
  unfold jsIndex. destruct (Z.ltb_spec i 0); [by split; auto|].
  rewrite lookup_ge_None. lia.
Qed.

Lemma length_writeCell rows x y color heap :
  length (writeCell rows x y color heap) = length heap.
Proof. unfold writeCell. destruct (jsIndex rows y); by rewrite ?length_insert. Qed.

Lemma rowAt_writeCell rows x y color heap loc loc' :
  jsIndex rows y = Some loc → (loc < length heap)%nat →
  rowAt (writeCell rows x y color heap) loc'
  = if decide (loc' = loc) then <[Z.to_nat x := color]> (rowAt heap loc)
    else rowAt heap loc'.
Proof.
  intros Hy Hloc. unfold writeCell. rewrite Hy. unfold rowAt at 1.
  destruct (decide (loc' = loc)) as [->|Hne].
  - by rewrite list_lookup_insert_eq.
  - by rewrite list_lookup_insert_ne.
Qed.

Lemma contents_writeCell_other rows x y color heap rows' :
  (∀ loc, loc ∈ rows → (loc < length heap)%nat) →
  (∀ loc, loc ∈ rows → loc ∉ rows') →
  contents (writeCell rows x y color heap) rows' = contents heap rows'.
Proof.
  intros Halloc Hsep. destruct (jsIndex rows y) as [loc|] eqn:Hy.
  - apply jsIndex_Some in Hy as Hy'. destruct Hy' as [_ Hy'].
    apply list_elem_of_lookup_2 in Hy'.
    unfold contents. apply list_fmap_ext. intros i loc' Hin%list_elem_of_lookup_2.
    rewrite (rowAt_writeCell _ _ _ _ _ loc) by auto.
    destruct (decide (loc' = loc)) as [->|]; [|done].
    by destruct (Hsep loc Hy').
  - unfold writeCell. by rewrite Hy.
Qed.

Lemma contents_writeCell rows x y color heap :
  (∀ loc, loc ∈ rows → (loc < length heap)%nat) → NoDup rows →
  0 <= y < Z.of_nat (length rows) →
  contents (writeCell rows x y color heap) rows
  = <[Z.to_nat y := <[Z.to_nat x := color]>
                      (default [] (contents heap rows !! Z.to_nat y))]>
      (contents heap rows).
Proof.
  intros Halloc Hnd Hy.
  destruct (lookup_lt_is_Some_2 rows (Z.to_nat y)) as [loc Hloc]; [lia|].
  assert (Hjs : jsIndex rows y = Some loc) by (apply jsIndex_Some; split; [lia|done]).
  apply list_eq. intros i. unfold contents at 1. rewrite list_lookup_fmap.
  destruct (decide (i = Z.to_nat y)) as [->|Hne].
  - rewrite list_lookup_insert_eq by (rewrite length_contents; lia).
    rewrite Hloc. simpl.
    rewrite (rowAt_writeCell _ _ _ _ _ loc) by eauto using list_elem_of_lookup_2.
    rewrite decide_True by done. unfold contents.
    by rewrite list_lookup_fmap, Hloc.
  - rewrite list_lookup_insert_ne by done. unfold contents.
    rewrite list_lookup_fmap.
    destruct (rows !! i) as [loc'|] eqn:Hi; [|done]. simpl.
    rewrite (rowAt_writeCell _ _ _ _ _ loc) by eauto using list_elem_of_lookup_2.
    rewrite decide_False; [done|]. intros ->.
    apply Hne. by eapply NoDup_lookup.
Qed.


(** *** Counting *)

Lemma countColors_concat grid :
  countColors grid = foldl countCell ∅ (concat grid).
Proof.
  unfold countColors. generalize (∅ : gmap string nat).
  induction grid as [|row grid IH]; intros m; simpl; [done|].
  by rewrite foldl_app, IH.
Qed.

Lemma foldl_countCell_lookup l : ∀ (counts : gmap string nat) c,
  foldl countCell counts l !! c
  = if decide (c ≠ transparent ∧ 0 < length (filter (λ c', c' = c) l))%nat
    then Some (default 0 (counts !! c) + length (filter (λ c', c' = c) l))%nat
    else counts !! c.
Proof.
  induction l as [|a l IH]; intros counts c; simpl.
  - rewrite decide_False by (simpl; lia). done.
  - rewrite IH. unfold countCell.
    rewrite filter_cons.
    destruct (decide (a = transparent)) as [Ha|Ha];
      destruct (decide (a = c)) as [Hac|Hac]; simpl.
    + subst. rewrite !decide_False by tauto. done.
    + repeat case_decide; try done; tauto.
    + subst a. rewrite lookup_insert_eq. simpl.
      destruct (length (filter (λ c', c' = c) l)) as [|n].
      * rewrite decide_False by (intros [_ ?]; lia).
        rewrite decide_True by (split; [done|lia]). f_equal. lia.
      * rewrite !decide_True by (split; [done|lia]). f_equal. lia.
    + rewrite lookup_insert_ne by done. repeat case_decide; tauto.
Qed.

Lemma countColors_lookup grid c :
  countColors grid !! c
  = if decide (c ≠ transparent ∧ 0 < beadCount c grid)%nat
    then Some (beadCount c grid) else None.
Proof.
  rewrite countColors_concat, foldl_countCell_lookup, lookup_empty. done.
Qed.

Lemma countColors_dom grid c :
  c ∈ dom (countColors grid) →
  c ≠ transparent ∧ ∃ row, row ∈ grid ∧ c ∈ row.
Proof.
  rewrite elem_of_dom, countColors_lookup. unfold beadCount.
  case_decide as H; [|by intros [? ?]]. intros _. destruct H as [Hc Hn].
  split; [done|].
  destruct (filter _ _) as [|c' rest] eqn:Hf; [simpl in Hn; lia|].
  assert (Hin : c' ∈ filter (λ c', c' = c) (concat grid)) by (rewrite Hf; left).
  apply list_elem_of_filter in Hin as [-> Hin].
  apply list_elem_of_In, in_concat in Hin as (row & ? & ?).
  exists row. by rewrite !list_elem_of_In.
Qed.

(** *** The invariant *)

Lemma beadPalettes_allColors name c :
  c ∈ beadPalettes name → c ∈ allColors.
Proof.
  unfold allColors. rewrite !elem_of_app. destruct name; simpl; auto.
Qed.

Lemma black_allColors : "#000000"%string ∈ allColors.
Proof. unfold allColors, standard. set_solver. Qed.

Lemma wellFormed_initial : wellFormed initialState.
Proof.
  split; simpl; try done; try (by intros ? []%elem_of_nil);
    try (by intros []%is_Some_None).
  - constructor.
  - apply black_allColors.
Qed.

Lemma elem_of_insert_inv {A} (l : list A) i v x :
  x ∈ <[i:=v]> l → x = v ∨ x ∈ l.
Proof.
  intros [j Hj]%list_elem_of_lookup.
  apply list_lookup_insert_Some in Hj as [(-> & -> & _)|[_ Hj]]; [by left|].
  right. by eapply list_elem_of_lookup_2.
Qed.

Lemma map_length_insert_row (grid : list (list string)) i row :
  length row = length (default [] (grid !! i)) →
  length <$> <[i:=row]> grid = length <$> grid.
Proof.
  intros Hlen. rewrite list_fmap_insert.
  destruct (grid !! i) as [r|] eqn:Hi.
  - apply list_insert_id. rewrite list_lookup_fmap, Hi. simpl in *. congruence.
  - apply list_insert_ge. rewrite length_fmap. by apply lookup_ge_None.
Qed.

Lemma wellFormed_write x y color s :
  wellFormed s → color = transparent ∨ color ∈ allColors →
  0 <= y < Z.of_nat (length (editedBeadColors s)) →
  wellFormed
    (setEdited (writeCell (editedBeadColors s) x y color (heap s)) s).
Proof.
  intros Hwf Hcolor Hy.
  pose proof (contents_writeCell (editedBeadColors s) x y color (heap s)
                (wf_edited_alloc s Hwf) (wf_edited_nodup s Hwf) Hy) as Hed.
  pose proof (contents_writeCell_other (editedBeadColors s) x y color (heap s)
                (beadColors s) (wf_edited_alloc s Hwf) (wf_separate s Hwf))
    as Hgen.
  destruct Hwf. split; simpl; rewrite ?length_writeCell, ?Hgen; try done.
  - rewrite Hed, map_length_insert_row; [done|]. by rewrite length_insert.
  - rewrite Hed. intros row [->|Hrow]%elem_of_insert_inv; [|by eauto].
    intros c [->|Hc]%elem_of_insert_inv; [tauto|].
    destruct (contents (heap s) (editedBeadColors s) !! Z.to_nat y) as [r|] eqn:Hr;
      [|by apply elem_of_nil in Hc].
    eapply wf_edited_cells0; [|exact Hc]. by eapply list_elem_of_lookup_2.
Qed.

Lemma wellFormed_setEdited s :
  wellFormed s → wellFormed (setEdited (heap s) s).
Proof. intros []. by split. Qed.

Lemma readCell_Some s x y c :
  readCell s x y = Ok (Some c) → editedCell s x y = Some c.
Proof.
  unfold readCell, editedCell.
  destruct (jsIndex (editedBeadColors s) y) as [loc|] eqn:Hy; [|done].
  intros [= Hc]. apply jsIndex_Some in Hy as [Hy0 Hy].
  assert (jsIndex (contents (heap s) (editedBeadColors s)) y
          = Some (rowAt (heap s) loc)) as ->; [|done].
  apply jsIndex_Some. split; [done|].
  unfold contents. by rewrite list_lookup_fmap, Hy.
Qed.

Lemma editedCell_elem s x y c :
  editedCell s x y = Some c →
  ∃ row, row ∈ contents (heap s) (editedBeadColors s) ∧ c ∈ row.
Proof.
  unfold editedCell.
  destruct (jsIndex _ y) as [row|] eqn:Hy; [|done]. simpl.
  intros Hx. apply jsIndex_Some in Hy as [_ Hy]. apply jsIndex_Some in Hx as [_ Hx].
  exists row. split; by eapply list_elem_of_lookup_2.
Qed.

Lemma wellFormed_handlePatternEdit x y s :
  wellFormed s → wellFormed (handlePatternEdit x y s).
Proof.
  intros Hwf. unfold handlePatternEdit.
  destruct (_ || negb _); [done|].
  destruct (Z.ltb_spec x 0); [done|].
  match goal with |- context [Z.leb ?a x] => destruct (Z.leb_spec a x) end;
    [done|].
  destruct (Z.ltb_spec y 0); [done|].
  match goal with |- context [Z.leb ?a y] => destruct (Z.leb_spec a y) end;
    [done|].
  cbn [orb]. destruct (editTool s).
  - apply wellFormed_write; [done| |lia]. right. apply (wf_selected s Hwf).
  - apply wellFormed_write; [done| |lia]. by left.
  - destruct (readCell s x y) as [[c|]|] eqn:Hr;
      try by apply wellFormed_setEdited.
    destruct (decide (c = transparent)); [by apply wellFormed_setEdited|].
    apply readCell_Some, editedCell_elem in Hr as (row & Hrow & Hc).
    destruct (wf_edited_cells s Hwf row Hrow c Hc) as [?|Hin]; [done|].
    destruct Hwf. by split.
Qed.

Lemma wellFormed_handleCanvasDraw x y s :
  wellFormed s → wellFormed (handleCanvasDraw x y s).1.
Proof.
  intros Hwf. unfold handleCanvasDraw.
  destruct (_ || _); [done|].
  destruct (editTool s); try destruct (jsIndex _ _);
    by apply wellFormed_handlePatternEdit.
Qed.

Lemma wellFormed_generateEditedPattern s :
  wellFormed s → wellFormed (generateEditedPattern s).
Proof.
  intros Hwf. unfold generateEditedPattern.
  destruct (Nat.eqb_spec (length (editedBeadColors s)) 0); [done|]. simpl.
  destruct (canvasMounted s) eqn:Hm; [|done]. simpl.
  unfold canvasMounted in Hm.
  apply andb_prop in Hm as [_ Himg%bool_decide_eq_true].
  destruct Hwf. split; simpl; try done.
  - intros c (Hc & row & Hrow & Hin)%countColors_dom.
    by destruct (wf_edited_cells0 row Hrow c Hin).
  - intros _ E. rewrite E in *. done.
Qed.

Lemma wellFormed_cancelEdits s :
  wellFormed s → wellFormed (cancelEdits s).
Proof.
  intros Hwf. unfold cancelEdits, deepCopy, allocGrid.
  pose proof (contents_alloc (heap s) (contents (heap s) (beadColors s))) as Hnew.
  pose proof (contents_app_l (heap s) (contents (heap s) (beadColors s))
                (beadColors s) (wf_generated_alloc s Hwf)) as Hold.
  destruct Hwf. split; simpl; rewrite ?Hnew, ?Hold, ?length_app; try done.
  - intros loc Hloc%wf_generated_alloc0. lia.
  - intros loc Hloc%elem_of_seq. lia.
  - apply NoDup_seq.
  - intros loc Hloc%elem_of_seq Hin%wf_generated_alloc0. lia.
  - intros Hp E. specialize (wf_pattern_grid0 Hp).
    apply (f_equal length) in wf_shape0.
    rewrite !length_fmap, !length_contents in wf_shape0.
    apply (f_equal length) in E. rewrite length_seq, length_contents in E.
    destruct (editedBeadColors s); [done|]. simpl in *. lia.
Qed.

Lemma setGenerated_fields pattern grid s :
  let s' := setGenerated pattern grid s in
  beadColors s' = seq (length (heap s)) (length grid)
  ∧ editedBeadColors s' = seq (length (heap s) + length grid) (length grid)
  ∧ heap s' = (heap s ++ grid) ++ grid
  ∧ contents (heap s') (beadColors s') = grid
  ∧ contents (heap s') (editedBeadColors s') = grid.
Proof.
  unfold setGenerated, deepCopy, allocGrid. simpl.
  rewrite contents_alloc, length_app. split_and!; try done.
  - rewrite contents_app_l; [apply contents_alloc|].
    intros loc Hloc%elem_of_seq. rewrite length_app. lia.
  - rewrite <- (length_app (heap s) grid). apply contents_alloc.
Qed.

Lemma gridQuantized_rectangular palette w h rb tp grid :
  gridQuantized palette w h rb tp grid → rectangular grid.
Proof.
  intros [_ Hrows] row [y Hy]%list_elem_of_lookup.
  destruct (Hrows y row Hy) as [-> _].
  destruct grid as [|row0 grid']; [done|]. simpl.
  by destruct (Hrows 0%nat row0 eq_refl) as [-> _].
Qed.

Lemma gridQuantized_cellsIn palette w h rb tp grid :
  gridQuantized palette w h rb tp grid → cellsIn palette grid.
Proof.
  intros [_ Hrows] row [y Hy]%list_elem_of_lookup c [x Hx]%list_elem_of_lookup.
  destruct (Hrows y row Hy) as [_ Hcells]. specialize (Hcells x c Hx).
  unfold cellQuantized in Hcells. destruct (isBackgroundColor _ _ _ _ _); auto.
Qed.

Lemma wellFormed_setGenerated pattern grid s palette w h rb tp :
  wellFormed s → is_Some (originalImage s) →
  gridQuantized palette w h rb tp grid → (0 < h)%nat →
  (∀ c, c ∈ palette → c ∈ allColors) →
  wellFormed (setGenerated pattern grid s).
Proof.
  intros Hwf Himg Hgrid Hh Hpal.
  destruct (setGenerated_fields pattern grid s) as (Hg & He & Hh' & Hcg & Hce).
  pose proof (gridQuantized_cellsIn _ _ _ _ _ _ Hgrid) as Hcells.
  assert (Hall : cellsIn allColors grid).
  { intros row Hrow c Hc. destruct (Hcells row Hrow c Hc); auto. }
  split; rewrite ?Hcg, ?Hce, ?Hg, ?He, ?Hh'; try done.
  - intros loc Hloc%elem_of_seq. rewrite !length_app. lia.
  - intros loc Hloc%elem_of_seq. rewrite !length_app. lia.
  - apply NoDup_seq.
  - intros loc Hloc%elem_of_seq Hloc'%elem_of_seq. lia.
  - by eapply gridQuantized_rectangular.
  - apply (wf_selected s Hwf).
  - simpl. intros c (Hc & row & Hrow & Hin)%countColors_dom.
    by destruct (Hall row Hrow c Hin).
  - intros _ E. apply (f_equal length) in E. rewrite length_seq in E.
    destruct Hgrid as [Hlen _]. simpl in E. lia.
Qed.

Lemma wellFormed_runProcessing s :
  wellFormed s → wellFormed (runProcessing s).
Proof.
  intros Hwf. unfold runProcessing.
  destruct (originalImage s) as [img|] eqn:Himg; [|done].
  destruct (processImage _ _ _ _ _ _ _ _) as [[pattern grid]|e] eqn:Hp; [|done].
  apply processImage_Ok in Hp as (w & h & _ & Hw & Hh & Hgrid & _).
  eapply (wellFormed_setGenerated _ _ _ _ _ _ _ _ Hwf);
    [by rewrite Himg|exact Hgrid|lia|apply beadPalettes_allColors].
Qed.

Lemma wellFormed_handle e s : wellFormed s → wellFormed (handle e s).
Proof.
  intros Hwf. destruct e; simpl.
  - apply wellFormed_runProcessing. destruct Hwf. by split.
  - destruct (decide _); [done|].
    apply wellFormed_runProcessing. destruct Hwf. by split.
  - destruct (_ && _) eqn:Hg; [|done].
    apply andb_prop in Hg as [Hp%bool_decide_eq_true _].
    destruct Hwf. by split.
  - destruct (editingToolsShown s); [|done]. destruct Hwf. by split.
  - destruct (_ && _) eqn:Hg; [|done].
    apply andb_prop in Hg as [_ Hc%orb_prop].
    assert (color ∈ allColors).
    { destruct Hc as [Hc%bool_decide_eq_true|Hc%bool_decide_eq_true].
      - by eapply beadPalettes_allColors.
      - by apply (wf_counts s Hwf). }
    destruct Hwf. by split.
  - by apply wellFormed_handleCanvasDraw.
  - destruct (_ && _); [|done]. unfold applyEdits.
    apply wellFormed_generateEditedPattern in Hwf. destruct Hwf. by split.
  - destruct (isEditMode s); [|done]. by apply wellFormed_cancelEdits.
  - destruct (_ && _); [|done]. unfold handleDownload.
    destruct (_ && _); [|done]. by apply wellFormed_generateEditedPattern.
Qed.

Lemma run_snoc events e s : run (events ++ [e]) s = handle e (run events s).
Proof. unfold run. by rewrite foldl_app. Qed.

Lemma wellFormed_run events s : wellFormed s → wellFormed (run events s).
Proof.
  intros Hwf. induction events as [|e events IH] using rev_ind; [done|].
  rewrite run_snoc. by apply wellFormed_handle.
Qed.

Lemma reachable_wellFormed s : reachable s → wellFormed s.
Proof. intros [events ->]. apply wellFormed_run, wellFormed_initial. Qed.

(** *** Edits and the generated grid *)

Lemma handlePatternEdit_out_of_bounds x y s :
  x < 0 ∨ y < 0 ∨ Z.of_nat (length (editedBeadColors s)) <= y
  ∨ Z.of_nat (length (default [] (head (contents (heap s) (editedBeadColors s))))) <= x →
  handlePatternEdit x y s = s.
Proof.
  intros H. unfold handlePatternEdit.
  destruct (_ || negb _); [done|].
  destruct (Z.ltb_spec x 0); [done|].
  match goal with |- context [Z.leb ?a x] => destruct (Z.leb_spec a x) end;
    [done|].
  destruct (Z.ltb_spec y 0); [done|].
  match goal with |- context [Z.leb ?a y] => destruct (Z.leb_spec a y) end;
    [done|].
  lia.
Qed.

(** The fields other than the cells, the selected colour, the tool and
    [hasEdits] are those of [s]. *)
Lemma handlePatternEdit_frame x y s :
  let s' := handlePatternEdit x y s in
  beadColors s' = beadColors s ∧ editedBeadColors s' = editedBeadColors s
  ∧ isEditMode s' = isEditMode s ∧ beadPattern s' = beadPattern s
  ∧ originalImage s' = originalImage s ∧ config s' = config s
  ∧ colorCounts s' = colorCounts s
  ∧ length (heap s') = length (heap s).
Proof.
  unfold handlePatternEdit.
  destruct (_ || negb _); [done|]. destruct (_ || _); [done|].
  destruct (editTool s); simpl; rewrite ?length_writeCell; try done.
  destruct (readCell s x y) as [[c|]|]; try done.
  by destruct (decide _).
Qed.

Lemma handlePatternEdit_generated x y s :
  wellFormed s →
  contents (heap (handlePatternEdit x y s)) (beadColors s)
  = contents (heap s) (beadColors s).
Proof.
  intros Hwf. unfold handlePatternEdit.
  destruct (_ || negb _); [done|]. destruct (_ || _); [done|].
  destruct (editTool s); simpl;
    try (apply contents_writeCell_other;
         [apply (wf_edited_alloc s Hwf)|apply (wf_separate s Hwf)]).
  destruct (readCell s x y) as [[c|]|]; try done.
  by destruct (decide _).
Qed.

Lemma jsIndex_insert {A} (l : list A) j v i :
  0 <= j →
  jsIndex (<[Z.to_nat j := v]> l) i
  = if decide (i = j ∧ j < Z.of_nat (length l)) then Some v else jsIndex l i.
Proof.
  intros Hj. unfold jsIndex. destruct (Z.ltb_spec i 0).
  { by rewrite decide_False by lia. }
  destruct (decide (i = j)) as [->|Hne].
  - destruct (decide (j < Z.of_nat (length l))).
    + rewrite decide_True by done. apply list_lookup_insert_eq. lia.
    + rewrite decide_False by tauto. by rewrite list_insert_ge by lia.
  - rewrite decide_False by tauto. apply list_lookup_insert_ne. lia.
Qed.

Lemma jsIndex_is_Some {A} (l : list A) i :
  is_Some (jsIndex l i) ↔ 0 <= i < Z.of_nat (length l).
Proof.
  rewrite <- not_eq_None_Some, jsIndex_None. lia.
Qed.

Lemma editedCell_write s x y color x' y' :
  wellFormed s → 0 <= x → 0 <= y < Z.of_nat (length (editedBeadColors s)) →
  editedCell (setEdited (writeCell (editedBeadColors s) x y color (heap s)) s)
    x' y'
  = if decide (x' = x ∧ y' = y ∧ is_Some (editedCell s x y)) then Some color
    else editedCell s x' y'.
Proof.
  intros Hwf Hx Hy. unfold editedCell. simpl.
  rewrite contents_writeCell;
    [|apply (wf_edited_alloc s Hwf)|apply (wf_edited_nodup s Hwf)|done].
  set (grid := contents (heap s) (editedBeadColors s)).
  assert (Hlen : length grid = length (editedBeadColors s))
    by apply length_contents.
  destruct (lookup_lt_is_Some_2 grid (Z.to_nat y)) as [row Hrow]; [lia|].
  assert (Hjy : jsIndex grid y = Some row)
    by (apply jsIndex_Some; split; [lia|done]).
  rewrite Hrow, Hjy. simpl. rewrite jsIndex_insert by lia.
  destruct (decide (y' = y)) as [->|Hne].
  - rewrite decide_True by lia. simpl. rewrite Hjy. simpl.
    rewrite jsIndex_insert by lia.
    destruct (decide (x' = x)) as [->|Hnx].
    + destruct (decide (x < Z.of_nat (length row))) as [Hlt|Hge].
      * rewrite !decide_True; [done| |done].
        split_and!; [done..|]. apply jsIndex_is_Some. lia.
      * rewrite !decide_False; [done| |tauto].
        intros (_ & _ & Hs%jsIndex_is_Some). lia.
    + by rewrite !decide_False by tauto.
  - by rewrite !decide_False by tauto.
Qed.

(** An edit at [(x, y)] leaves every other cell of the buffer as it was. *)
Lemma handlePatternEdit_other x y s x' y' :
  wellFormed s → (x', y') ≠ (x, y) →
  editedCell (handlePatternEdit x y s) x' y' = editedCell s x' y'.
Proof.
  intros Hwf Hne. unfold handlePatternEdit.
  destruct (_ || negb _); [done|].
  destruct (Z.ltb_spec x 0); [done|].
  match goal with |- context [Z.leb ?a x] => destruct (Z.leb_spec a x) end;
    [done|].
  destruct (Z.ltb_spec y 0); [done|].
  match goal with |- context [Z.leb ?a y] => destruct (Z.leb_spec a y) end;
    [done|].
  cbn [orb]. destruct (editTool s).
  - rewrite editedCell_write by (done || lia).
    rewrite decide_False; [done|]. intros (-> & -> & _). done.
  - rewrite editedCell_write by (done || lia).
    rewrite decide_False; [done|]. intros (-> & -> & _). done.
  - destruct (readCell s x y) as [[c|]|]; try done.
    by destruct (decide _).
Qed.

(** What an edit leaves in a cell: what was there, the sentinel, or the
    selected colour. *)
Lemma handlePatternEdit_cell x y s x' y' c :
  wellFormed s →
  editedCell (handlePatternEdit x y s) x' y' = Some c →
  editedCell s x' y' = Some c ∨ c = transparent ∨ c = selectedColor s.
Proof.
  intros Hwf. unfold handlePatternEdit.
  destruct (_ || negb _); [by left|].
  destruct (Z.ltb_spec x 0); [by left|].
  match goal with |- context [Z.leb ?a x] => destruct (Z.leb_spec a x) end;
    [by left|].
  destruct (Z.ltb_spec y 0); [by left|].
  match goal with |- context [Z.leb ?a y] => destruct (Z.leb_spec a y) end;
    [by left|].
  cbn [orb]. destruct (editTool s).
  - rewrite editedCell_write by (done || lia).
    case_decide; [intros [= <-]|]; auto.
  - rewrite editedCell_write by (done || lia).
    case_decide; [intros [= <-]|]; auto.
  - destruct (readCell s x y) as [[c'|]|]; auto.
    destruct (decide _); auto.
Qed.

Lemma handlePatternEdit_shape x y s :
  wellFormed s →
  length <$> contents (heap (handlePatternEdit x y s)) (editedBeadColors s)
  = length <$> contents (heap s) (editedBeadColors s).
Proof.
  intros Hwf. pose proof (wellFormed_handlePatternEdit x y s Hwf) as Hwf'.
  destruct (handlePatternEdit_frame x y s) as (Hb & He & _).
  pose proof (wf_shape _ Hwf') as Hs. rewrite He, Hb in Hs.
  rewrite Hs, handlePatternEdit_generated by done.
  symmetry. apply (wf_shape s Hwf).
Qed.

Lemma handleCanvasDraw_state x y s :
  (handleCanvasDraw x y s).1 = s
  ∨ (handleCanvasDraw x y s).1 = handlePatternEdit x y s.
Proof.
  unfold handleCanvasDraw. destruct (_ || _); [by left|].
  destruct (editTool s); try destruct (jsIndex _ _); by right.
Qed.

(** Out of the rows of the grid, with a tool other than the eraser, the
    handler ends with a [TypeError]. *)
Lemma handleCanvasDraw_row_undefined x y s :
  canvasMounted s = true → editedBeadColors s ≠ [] → editTool s ≠ Erase →
  y < 0 ∨ Z.of_nat (length (editedBeadColors s)) <= y →
  handleCanvasDraw x y s = (s, Some TypeError).
Proof.
  intros Hm Hne Htool Hy. unfold handleCanvasDraw. rewrite Hm.
  destruct (Nat.eqb_spec (length (editedBeadColors s)) 0) as [E|_].
  { destruct (editedBeadColors s); [done|discriminate E]. }
  simpl. rewrite handlePatternEdit_out_of_bounds by lia.
  apply jsIndex_None in Hy. rewrite Hy. by destruct (editTool s).
Qed.

(** The frame of an event of an editingBlack session. *)
Lemma handle_edit_frame e s :
  wellFormed s → isEdit e →
  let s' := handle e s in
  beadColors s' = beadColors s ∧ editedBeadColors s' = editedBeadColors s
  ∧ isEditMode s' = isEditMode s ∧ beadPattern s' = beadPattern s
  ∧ contents (heap s') (beadColors s) = contents (heap s) (beadColors s).
Proof.
  intros Hwf He. destruct e; try done; cbn [handle]; cbv zeta.
  - by destruct (editingToolsShown s).
  - by destruct (_ && _).
  - destruct (handleCanvasDraw_state x y s) as [-> | ->];
      [by split_and!|].
    destruct (handlePatternEdit_frame x y s) as (? & ? & ? & ? & _).
    split_and!; try done. by apply handlePatternEdit_generated.
Qed.

Lemma run_edits_frame edits s :
  wellFormed s → Forall isEdit edits →
  let s' := run edits s in
  beadColors s' = beadColors s ∧ editedBeadColors s' = editedBeadColors s
  ∧ isEditMode s' = isEditMode s ∧ beadPattern s' = beadPattern s
  ∧ contents (heap s') (beadColors s) = contents (heap s) (beadColors s).
Proof.
  intros Hwf. induction edits as [|e edits IH] using rev_ind; [done|].
  intros [Hedits He]%Forall_app. rewrite Forall_singleton in He. rewrite run_snoc.
  destruct (IH Hedits) as (Hb & Hed & Hm & Hp & Hc).
  destruct (handle_edit_frame e (run edits s)) as (Hb' & Hed' & Hm' & Hp' & Hc');
    [by apply wellFormed_run|done|].
  simpl in *. rewrite Hb', Hed', Hm', Hp'. split_and!; try done.
  rewrite <- Hc, <- Hb. by rewrite Hc'.
Qed.

Lemma handle_edit_other e s x y :
  wellFormed s → isEdit e → (x, y) ∉ targets [e] →
  editedCell (handle e s) x y = editedCell s x y.
Proof.
  intros Hwf He Ht. destruct e; try done; cbn [handle].
  - by destruct (editingToolsShown s).
  - by destruct (_ && _).
  - destruct (handleCanvasDraw_state x0 y0 s) as [-> | ->]; [done|].
    apply handlePatternEdit_other; [done|]. simpl in Ht. set_solver.
Qed.

Lemma targets_app es1 es2 : targets (es1 ++ es2) = targets es1 ++ targets es2.
Proof. unfold targets. apply flat_map_app. Qed.

(** The cells the pointer has not been at are as they were. *)
Lemma run_edits_other edits s x y :
  wellFormed s → Forall isEdit edits → (x, y) ∉ targets edits →
  editedCell (run edits s) x y = editedCell s x y.
Proof.
  intros Hwf. induction edits as [|e edits IH] using rev_ind; [done|].
  intros [Hedits He]%Forall_app. rewrite Forall_singleton in He. rewrite targets_app.
  intros [Ht1 Ht2]%not_elem_of_app. rewrite run_snoc.
  rewrite handle_edit_other; [by apply IH|by apply wellFormed_run|done..].
Qed.

(** The edit buffer of a well-formed state is rectangular, so that a cell
    within the bounds that [handlePatternEdit] checks exists. *)
Lemma editedCell_in_bounds s x y :
  wellFormed s →
  0 <= x < Z.of_nat (length (default [] (head (contents (heap s) (editedBeadColors s))))) →
  0 <= y < Z.of_nat (length (editedBeadColors s)) →
  is_Some (editedCell s x y).
Proof.
  intros Hwf Hx Hy. unfold editedCell.
  set (edited := contents (heap s) (editedBeadColors s)) in *.
  set (generated := contents (heap s) (beadColors s)).
  assert (Hshape : length <$> edited = length <$> generated)
    by apply (wf_shape s Hwf).
  assert (Hlen : length edited = length (editedBeadColors s))
    by apply length_contents.
  destruct (lookup_lt_is_Some_2 edited (Z.to_nat y)) as [row Hrow]; [lia|].
  assert (Hjy : jsIndex edited y = Some row)
    by (apply jsIndex_Some; split; [lia|done]).
  rewrite Hjy. simpl. apply jsIndex_is_Some.
  assert (Hrows : ∀ i r, edited !! i = Some r →
            length r = length (default [] (head generated))).
  { intros i r Hr.
    assert (Hl : (length <$> generated) !! i = Some (length r))
      by (rewrite <- Hshape, list_lookup_fmap, Hr; done).
    rewrite list_lookup_fmap in Hl.
    destruct (generated !! i) as [r'|] eqn:Hr'; [|done].
    injection Hl as <-. apply (wf_rectangular s Hwf).
    by eapply list_elem_of_lookup_2. }
  destruct edited as [|row0 rest] eqn:He; [done|].
  rewrite (Hrows _ _ Hrow). rewrite <- (Hrows 0%nat row0 eq_refl).
  simpl in Hx. lia.
Qed.

Lemma readCell_editedCell s x y :
  0 <= y < Z.of_nat (length (editedBeadColors s)) →
  readCell s x y = Ok (editedCell s x y).
Proof.
  intros Hy. unfold readCell, editedCell.
  destruct (lookup_lt_is_Some_2 (editedBeadColors s) (Z.to_nat y)) as [loc Hloc];
    [lia|].
  assert (jsIndex (editedBeadColors s) y = Some loc) as ->
    by (apply jsIndex_Some; split; [lia|done]).
  assert (jsIndex (contents (heap s) (editedBeadColors s)) y
          = Some (rowAt (heap s) loc)) as ->; [|done].
  apply jsIndex_Some. split; [lia|].
  unfold contents. by rewrite list_lookup_fmap, Hloc.
Qed.

(** What the three tools do at a cell of the grid. *)
Lemma handlePatternEdit_in_bounds x y s :
  wellFormed s → isEditMode s = true →
  0 <= x < Z.of_nat (length (default [] (head (contents (heap s) (editedBeadColors s))))) →
  0 <= y < Z.of_nat (length (editedBeadColors s)) →
  let s' := handlePatternEdit x y s in
  match editTool s with
  | Add =>
      editedCell s' x y = Some (selectedColor s)
      ∧ selectedColor s' = selectedColor s ∧ editTool s' = Add
  | Erase =>
      editedCell s' x y = Some transparent
      ∧ selectedColor s' = selectedColor s ∧ editTool s' = Erase
  | Pick =>
      editedCell s' x y = editedCell s x y
      ∧ ((editedCell s x y = Some transparent
          ∧ selectedColor s' = selectedColor s ∧ editTool s' = Pick)
         ∨ (editedCell s x y = Some (selectedColor s')
            ∧ selectedColor s' ≠ transparent ∧ editTool s' = Add))
  end.
Proof.
  intros Hwf Hm Hx Hy.
  pose proof (editedCell_in_bounds s x y Hwf Hx Hy) as Hcell.
  unfold handlePatternEdit. rewrite Hm.
  destruct (Nat.eqb_spec (length (editedBeadColors s)) 0) as [E|_]; [lia|].
  destruct (Z.ltb_spec x 0); [lia|].
  match goal with |- context [Z.leb ?a x] => destruct (Z.leb_spec a x) end;
    [lia|].
  destruct (Z.ltb_spec y 0); [lia|].
  match goal with |- context [Z.leb ?a y] => destruct (Z.leb_spec a y) end;
    [lia|].
  cbn [orb negb]. destruct (editTool s) eqn:Ht.
  - rewrite editedCell_write by (done || lia).
    by rewrite decide_True by done.
  - rewrite editedCell_write by (done || lia).
    by rewrite decide_True by done.
  - rewrite readCell_editedCell by lia.
    destruct Hcell as [c Hc]. rewrite Hc.
    destruct (decide (c = transparent)) as [->|Hne]; simpl.
    + split; [done|]. by left.
    + split; [done|]. by right.
Qed.

(** Within the rows of the grid the pointer handler ends normally. *)
Lemma handleCanvasDraw_row_defined x y s :
  0 <= y < Z.of_nat (length (editedBeadColors s)) →
  (handleCanvasDraw x y s).2 = None.
Proof.
  intros Hy. unfold handleCanvasDraw. destruct (_ || _); [done|].
  destruct (lookup_lt_is_Some_2 (editedBeadColors s) (Z.to_nat y)) as [loc Hloc];
    [lia|].
  assert (jsIndex (editedBeadColors s) y = Some loc) as ->
    by (apply jsIndex_Some; split; [lia|done]).
  by destruct (editTool s).
Qed.

Lemma reachable_run events s : reachable s → reachable (run events s).
Proof.
  intros [events0 ->]. exists (events0 ++ events). unfold run.
  by rewrite foldl_app.
Qed.

Lemma cancelEdits_fields s :
  wellFormed s →
  isEditMode (cancelEdits s) = false
  ∧ beadColors (cancelEdits s) = beadColors s
  ∧ contents (heap (cancelEdits s)) (beadColors s)
    = contents (heap s) (beadColors s)
  ∧ contents (heap (cancelEdits s)) (editedBeadColors (cancelEdits s))
    = contents (heap s) (beadColors s).
Proof.
  intros Hwf. unfold cancelEdits, deepCopy, allocGrid. simpl.
  split_and!; try done.
  - apply contents_app_l, (wf_generated_alloc s Hwf).
  - apply contents_alloc.
Qed.

Lemma handle_ClickEdit s :
  wellFormed s → is_Some (beadPattern s) →
  let s' := handle ClickEdit s in
  isEditMode s' = true ∧ beadColors s' = beadColors s ∧ heap s' = heap s
  ∧ editedBeadColors s' = editedBeadColors s.
Proof.
  intros Hwf Hp. simpl. rewrite bool_decide_eq_true_2 by done. simpl.
  by destruct (isEditMode s) eqn:Hm.
Qed.

(** C7.  From any state with a generated pattern, entering the editingBlack
    mode, any sequence of pointer edits and tool or colour choices, and
    Cancel leave the generated grid with the same rows holding the same
    cells; the edit buffer is then a fresh copy of it, and at no point of
    the session does a row of the edit buffer belong to the generated
    grid. *)
Theorem cancel_restores_generated_grid (s : state) (edits : list event) :
  reachable s → is_Some (beadPattern s) → Forall isEdit edits →
  let session := run (ClickEdit :: edits) s in
  let s' := handle ClickCancel session in
  isEditMode session = true ∧ isEditMode s' = false
  ∧ beadColors s' = beadColors s
  ∧ contents (heap s') (beadColors s') = contents (heap s) (beadColors s)
  ∧ contents (heap s') (editedBeadColors s') = contents (heap s) (beadColors s)
  ∧ ∀ n loc,
      let sn := run (take n (ClickEdit :: edits ++ [ClickCancel])) s in
      loc ∈ editedBeadColors sn → loc ∉ beadColors sn.
Proof.
  intros Hreach Hp Hedits session s'.
  pose proof (reachable_wellFormed s Hreach) as Hwf.
  destruct (handle_ClickEdit s Hwf Hp) as (Hm1 & Hb1 & Hh1 & He1).
  assert (Hwf1 : wellFormed (handle ClickEdit s)) by by apply wellFormed_handle.
  destruct (run_edits_frame edits (handle ClickEdit s) Hwf1 Hedits)
    as (Hb2 & _ & Hm2 & _ & Hc2).
  change (run edits (handle ClickEdit s)) with session in *.
  assert (Hwf2 : wellFormed session) by by apply wellFormed_run.
  assert (Hm : isEditMode session = true) by congruence.
  assert (Hs' : s' = cancelEdits session).
  { subst s'. simpl. by rewrite Hm. }
  destruct (cancelEdits_fields session Hwf2) as (Hm3 & Hb3 & Hc3 & Hr3).
  rewrite <- Hs' in Hm3, Hb3, Hc3, Hr3.
  split_and!; try done.
  - congruence.
  - rewrite Hb3, Hc3, Hb2, Hc2, Hb1. by rewrite Hh1.
  - rewrite Hr3, Hb2, Hc2, Hb1. by rewrite Hh1.
  - intros n loc sn. apply (wf_separate sn).
    by apply reachable_wellFormed, reachable_run.
Qed.

Lemma loadedBlack_reachable : reachable loadedBlack.
Proof. by exists [Upload blackPixel]. Qed.

Lemma editingBlack_reachable : reachable editingBlack.
Proof. by exists [Upload blackPixel; ClickEdit]. Qed.

Lemma cancel_restores_generated_grid_witness :
  reachable loadedBlack ∧ is_Some (beadPattern loadedBlack)
  ∧ Forall isEdit [ClickTool Erase; PointerAt 0 0]
  ∧ let session := run (ClickEdit :: [ClickTool Erase; PointerAt 0 0]) loadedBlack in
    let s' := handle ClickCancel session in
    isEditMode session = true ∧ isEditMode s' = false
    ∧ beadColors s' = beadColors loadedBlack
    ∧ contents (heap s') (beadColors s')
      = contents (heap loadedBlack) (beadColors loadedBlack)
    ∧ contents (heap s') (editedBeadColors s')
      = contents (heap loadedBlack) (beadColors loadedBlack)
    ∧ ∀ n loc,
        let sn :=
          run (take n (ClickEdit :: [ClickTool Erase; PointerAt 0 0]
                       ++ [ClickCancel])) loadedBlack in
        loc ∈ editedBeadColors sn → loc ∉ beadColors sn.
Proof.
  assert (Hp : is_Some (beadPattern loadedBlack)) by (vm_compute; eauto).
  assert (He : Forall isEdit [ClickTool Erase; PointerAt 0 0])
    by (repeat constructor).
  split; [exact loadedBlack_reachable|]. split; [exact Hp|]. split; [exact He|].
  exact (cancel_restores_generated_grid loadedBlack
           [ClickTool Erase; PointerAt 0 0] loadedBlack_reachable Hp He).
Defined.

(** After Erase at the only cell and Apply the generated grid still holds
    the bead, while the pattern and the counts are those of the edit
    buffer; entering the editingBlack mode again and cancelling then brings the
    bead back into the buffer. *)
Lemma apply_keeps_generated_grid :
  let s := run [ClickTool Erase; PointerAt 0 0; ClickApply] editingBlack in
  isEditMode s = false
  ∧ contents (heap s) (editedBeadColors s) = [["transparent"]]%string
  ∧ contents (heap s) (beadColors s) = [["#000000"]]%string
  ∧ colorCounts s = ∅
  ∧ contents (heap s) (beadColors s) ≠ contents (heap s) (editedBeadColors s)
  ∧ let s2 := run [ClickEdit; ClickCancel] s in
    beadPattern s2 = beadPattern s
    ∧ contents (heap s2) (editedBeadColors s2) = [["#000000"]]%string.
Proof. vm_compute. split_and!; try reflexivity. discriminate. Qed.

(** C8, at a failing input.  In the editing mode on a 1 by 1 grid, with
    the Add tool, the pointer is one row below the grid: [handlePatternEdit]
    ignores the cell, and [handleCanvasDraw], which calls it, leaves the
    state as it is but ends with a [TypeError] from reading the missing
    row. *)
Theorem pointer_below_grid_throws :
  canvasMounted editingBlack = true ∧ editTool editingBlack = Add
  ∧ contents (heap editingBlack) (editedBeadColors editingBlack) = [["#000000"]]%string
  ∧ handlePatternEdit 0 1 editingBlack = editingBlack
  ∧ handleCanvasDraw 0 1 editingBlack = (editingBlack, Some TypeError).
Proof. vm_compute. split_and!; reflexivity. Qed.

(** Indigo is chosen from the standard palette, the palette is changed to
    pastel, which regenerates the grid, and the Add tool then writes
    indigo. *)
Lemma add_writes_colour_of_other_palette :
  let s := run [ClickColor "#4B0082"; ChangeSettings pastelSettings;
                PointerAt 0 0] editingBlack in
  selectedPalette (config s) = Pastel
  ∧ isEditMode s = true
  ∧ editedCell s 0 0 = Some "#4B0082"%string
  ∧ ("#4B0082"%string ∉ beadPalettes Pastel)
  ∧ "#4B0082"%string ≠ transparent.
Proof.
  cbv zeta. split_and!; [by vm_compute..| |discriminate].
  intros H. by apply (bool_decide_pack _) in H.
Qed.

Lemma generateEditedPattern_editing s :
  wellFormed s → isEditMode s = true →
  let grid := contents (heap s) (editedBeadColors s) in
  let width := length (default [] (head grid)) in
  let height := length grid in
  let w := Z.of_nat width * beadSize (config s) in
  let h := Z.of_nat height * beadSize (config s) in
  generateEditedPattern s
  = setPattern
      (Canvas w h
         (ClearRect 0 0 w h
          :: drawBeads grid width height (beadSize (config s))
               (showGrid (config s))))
      (countColors grid) s.
Proof.
  intros Hwf Hm. unfold generateEditedPattern.
  pose proof (wf_edit_pattern s Hwf Hm) as Hp.
  pose proof (wf_pattern_image s Hwf Hp) as Hi.
  pose proof (wf_pattern_grid s Hwf Hp) as Hg.
  destruct (Nat.eqb_spec (length (editedBeadColors s)) 0) as [E|_].
  { destruct (editedBeadColors s); [done|discriminate E]. }
  unfold canvasMounted. rewrite Hm, !bool_decide_eq_true_2 by done. done.
Qed.

(** C6, amended.  After the events of an editingBlack session, Apply (enabled
    once an edit has been made) leaves the editingBlack mode, draws the edit
    buffer afresh into the pattern, and counts the beads of the edit buffer
    from the empty map: each colour present is mapped to the number of cells
    holding it.  The edit buffer is kept, and differs from the buffer the
    session started with at most in the cells the pointer has been at.  The
    generated grid is not replaced: it has the rows and cells it had. *)
Theorem applyEdits_publishes_buffer (s0 : state) (edits : list event) :
  reachable s0 → Forall isEdit edits →
  isEditMode (run edits s0) = true → hasEdits (run edits s0) = true →
  let s := run edits s0 in
  let s' := handle ClickApply s in
  let grid := contents (heap s) (editedBeadColors s) in
  let width := length (default [] (head grid)) in
  let height := length grid in
  let w := Z.of_nat width * beadSize (config s) in
  let h := Z.of_nat height * beadSize (config s) in
  isEditMode s' = false
  ∧ beadPattern s'
    = Some (Canvas w h
              (ClearRect 0 0 w h
               :: drawBeads grid width height (beadSize (config s))
                    (showGrid (config s))))
  ∧ colorCounts s' = countColors grid
  ∧ (∀ c, colorCounts s' !! c
          = if decide (c ≠ transparent ∧ 0 < beadCount c grid)%nat
            then Some (beadCount c grid) else None)
  ∧ editedBeadColors s' = editedBeadColors s ∧ heap s' = heap s
  ∧ (∀ x y, (x, y) ∉ targets edits → editedCell s' x y = editedCell s0 x y)
  ∧ beadColors s' = beadColors s0
  ∧ contents (heap s') (beadColors s') = contents (heap s0) (beadColors s0).
Proof.
  intros Hreach Hedits Hm He s s' grid width height w h.
  pose proof (reachable_wellFormed s0 Hreach) as Hwf0.
  assert (Hwf : wellFormed s) by by apply wellFormed_run.
  destruct (run_edits_frame edits s0 Hwf0 Hedits) as (Hb & _ & _ & _ & Hc).
  fold s in Hb, Hc, Hm, He.
  assert (Hs' : s' = setIsEditMode false (generateEditedPattern s)).
  { subst s'. simpl. by rewrite Hm, He. }
  rewrite (generateEditedPattern_editing s Hwf Hm) in Hs'.
  rewrite Hs'. simpl. split_and!; try done.
  - intros c. apply countColors_lookup.
  - intros x y Ht. by apply run_edits_other.
  - by rewrite Hb.
Qed.

Lemma applyEdits_publishes_buffer_witness :
  reachable editingBlack ∧ Forall isEdit [ClickTool Erase; PointerAt 0 0]
  ∧ isEditMode (run [ClickTool Erase; PointerAt 0 0] editingBlack) = true
  ∧ hasEdits (run [ClickTool Erase; PointerAt 0 0] editingBlack) = true
  ∧ let s := run [ClickTool Erase; PointerAt 0 0] editingBlack in
    let s' := handle ClickApply s in
    let grid := contents (heap s) (editedBeadColors s) in
    let width := length (default [] (head grid)) in
    let height := length grid in
    let w := Z.of_nat width * beadSize (config s) in
    let h := Z.of_nat height * beadSize (config s) in
    isEditMode s' = false
    ∧ beadPattern s'
      = Some (Canvas w h
                (ClearRect 0 0 w h
                 :: drawBeads grid width height (beadSize (config s))
                      (showGrid (config s))))
    ∧ colorCounts s' = countColors grid
    ∧ (∀ c, colorCounts s' !! c
            = if decide (c ≠ transparent ∧ 0 < beadCount c grid)%nat
              then Some (beadCount c grid) else None)
    ∧ editedBeadColors s' = editedBeadColors s ∧ heap s' = heap s
    ∧ (∀ x y, (x, y) ∉ targets [ClickTool Erase; PointerAt 0 0] →
              editedCell s' x y = editedCell editingBlack x y)
    ∧ beadColors s' = beadColors editingBlack
    ∧ contents (heap s') (beadColors s')
      = contents (heap editingBlack) (beadColors editingBlack).
Proof.
  assert (He : Forall isEdit [ClickTool Erase; PointerAt 0 0])
    by (repeat constructor).
  split; [exact editingBlack_reachable|]. split; [exact He|].
  split; [reflexivity|]. split; [reflexivity|].
  exact (applyEdits_publishes_buffer editingBlack [ClickTool Erase; PointerAt 0 0]
           editingBlack_reachable He eq_refl eq_refl).
Defined.

(** C5, amended.  In every state of the component the edit buffer has the
    row lengths of the generated grid, which is rectangular, and every cell
    of either grid holds the sentinel or a colour of one of the built-in
    palettes, as does the selected colour.  Generation stores the grid of
    [processImage] in both: it has the resampled height and width and its
    cells hold the sentinel or a colour of the palette selected at that
    time.  An edit keeps the row lengths and leaves in each cell what was
    there, the sentinel, or the selected colour, which need not belong to
    the palette now selected. *)
Theorem grid_invariant (s : state) :
  reachable s →
  (length <$> contents (heap s) (editedBeadColors s)
   = length <$> contents (heap s) (beadColors s)
   ∧ rectangular (contents (heap s) (beadColors s))
   ∧ cellsIn allColors (contents (heap s) (beadColors s))
   ∧ cellsIn allColors (contents (heap s) (editedBeadColors s))
   ∧ selectedColor s ∈ allColors)
  ∧ (∀ img pattern grid,
       originalImage s = Some img →
       processImage img (beadSize (config s)) (maxBeads (config s))
         (beadPalettes (selectedPalette (config s))) (showGrid (config s))
         (dithering (config s)) (removeBackground (config s))
         (backgroundThreshold (config s)) = Ok (pattern, grid) →
       let s' := runProcessing s in
       contents (heap s') (beadColors s') = grid
       ∧ contents (heap s') (editedBeadColors s') = grid
       ∧ cellsIn (beadPalettes (selectedPalette (config s))) grid
       ∧ ∃ w h,
           targetSize (imgWidth img) (imgHeight img) (maxBeads (config s))
           = (w, h)
           ∧ length grid = Z.to_nat h
           ∧ ∀ row, row ∈ grid → length row = Z.to_nat w)
  ∧ (∀ x y,
       let s' := handlePatternEdit x y s in
       editedBeadColors s' = editedBeadColors s
       ∧ length <$> contents (heap s') (editedBeadColors s')
         = length <$> contents (heap s) (editedBeadColors s)
       ∧ ∀ x' y' c, editedCell s' x' y' = Some c →
           editedCell s x' y' = Some c ∨ c = transparent
           ∨ c = selectedColor s).
Proof.
  intros Hwf%reachable_wellFormed. split_and!.
  - apply (wf_shape s Hwf).
  - apply (wf_rectangular s Hwf).
  - apply (wf_generated_cells s Hwf).
  - apply (wf_edited_cells s Hwf).
  - apply (wf_selected s Hwf).
  - intros img pattern grid Himg Hp. unfold runProcessing.
    rewrite Himg, Hp.
    destruct (setGenerated_fields pattern grid s) as (_ & _ & _ & Hg & He).
    apply processImage_Ok in Hp as (w & h & Hsize & _ & _ & Hq & _).
    split_and!; [done|done|by eapply gridQuantized_cellsIn|].
    exists w, h. destruct Hq as [Hlen Hrows]. split_and!; [done|done|].
    intros row [y Hy]%list_elem_of_lookup. by destruct (Hrows y row Hy).
  - intros x y s'. destruct (handlePatternEdit_frame x y s) as (_ & He & _).
    split_and!; [done| |].
    + subst s'. rewrite He. by apply handlePatternEdit_shape.
    + intros x' y' c. by apply handlePatternEdit_cell.
Qed.

Lemma grid_invariant_witness :
  reachable editingBlack
  ∧ (length <$> contents (heap editingBlack) (editedBeadColors editingBlack)
     = length <$> contents (heap editingBlack) (beadColors editingBlack)
     ∧ rectangular (contents (heap editingBlack) (beadColors editingBlack))
     ∧ cellsIn allColors (contents (heap editingBlack) (beadColors editingBlack))
     ∧ cellsIn allColors
         (contents (heap editingBlack) (editedBeadColors editingBlack))
     ∧ selectedColor editingBlack ∈ allColors)
  ∧ (∀ img pattern grid,
       originalImage editingBlack = Some img →
       processImage img (beadSize (config editingBlack))
         (maxBeads (config editingBlack))
         (beadPalettes (selectedPalette (config editingBlack)))
         (showGrid (config editingBlack)) (dithering (config editingBlack))
         (removeBackground (config editingBlack))
         (backgroundThreshold (config editingBlack)) = Ok (pattern, grid) →
       let s' := runProcessing editingBlack in
       contents (heap s') (beadColors s') = grid
       ∧ contents (heap s') (editedBeadColors s') = grid
       ∧ cellsIn (beadPalettes (selectedPalette (config editingBlack))) grid
       ∧ ∃ w h,
           targetSize (imgWidth img) (imgHeight img)
             (maxBeads (config editingBlack)) = (w, h)
           ∧ length grid = Z.to_nat h
           ∧ ∀ row, row ∈ grid → length row = Z.to_nat w)
  ∧ (∀ x y,
       let s' := handlePatternEdit x y editingBlack in
       editedBeadColors s' = editedBeadColors editingBlack
       ∧ length <$> contents (heap s') (editedBeadColors s')
         = length <$> contents (heap editingBlack)
                        (editedBeadColors editingBlack)
       ∧ ∀ x' y' c, editedCell s' x' y' = Some c →
           editedCell editingBlack x' y' = Some c ∨ c = transparent
           ∨ c = selectedColor editingBlack).
Proof.
  split; [exact editingBlack_reachable|].
  exact (grid_invariant editingBlack editingBlack_reachable).
Defined.

End AppFacts.

(** * Further properties of the code *)

Module NearestFacts.
Import Palette PaletteFacts Inputs.

Lemma nearestValid_snoc_keep r g b pre i c d x :
  nearestValid r g b pre i c d →
  (∀ d2, colorDistance r g b x = Sqrt d2 → d <= d2) →
  nearestValid r g b (pre ++ [x]) i c d.
Proof.
  intros (Hi & Hd & Hle & Hlt) Hx.
  assert (Hil : (i < length pre)%nat) by by eapply lookup_lt_Some.
  split_and!.
  - by rewrite lookup_app_l.
  - done.
  - intros j c' d' Hj Hd'.
    destruct (decide (j < length pre)%nat).
    + rewrite lookup_app_l in Hj by done. eauto.
    + rewrite lookup_app_r in Hj by lia.
      apply list_lookup_singleton_Some in Hj as [_ <-]. eauto.
  - intros j c' d' Hji Hj Hd'.
    rewrite lookup_app_l in Hj by lia. eauto.
Qed.

Lemma nearestValid_snoc_new r g b pre x d2 :
  colorDistance r g b x = Sqrt d2 →
  (∀ j c' d', pre !! j = Some c' → colorDistance r g b c' = Sqrt d' → d2 < d') →
  nearestValid r g b (pre ++ [x]) (length pre) x d2.
Proof.
  intros Hx Hpre. split_and!.
  - rewrite lookup_app_r by lia. by rewrite Nat.sub_diag.
  - done.
  - intros j c' d' Hj Hd'.
    destruct (decide (j < length pre)%nat).
    + rewrite lookup_app_l in Hj by done. apply Z.lt_le_incl. eauto.
    + rewrite lookup_app_r in Hj by lia.
      apply list_lookup_singleton_Some in Hj as [_ <-].
      rewrite Hx in Hd'. injection Hd' as <-. lia.
  - intros j c' d' Hji Hj Hd'.
    rewrite lookup_app_l in Hj by lia. eauto.
Qed.

(** The loop from a state in which a distance has been recorded. *)
Lemma closestLoop_nearestValid r g b rest : ∀ pre i c d,
  nearestValid r g b pre i c d →
  ∃ i' c' d', closestLoop r g b rest (Sqrt d) (Some c) = Some c'
    ∧ nearestValid r g b (pre ++ rest) i' c' d'.
Proof.
  induction rest as [|x rest IH]; intros pre i c d Hn.
  - exists i, c, d. by rewrite app_nil_r.
  - replace (pre ++ x :: rest) with ((pre ++ [x]) ++ rest)
      by by rewrite <- app_assoc.
    simpl. destruct (colorDistance r g b x) as [| |d2] eqn:Hx; simpl.
    + apply (IH (pre ++ [x]) i). apply nearestValid_snoc_keep; [done|].
      intros ?; congruence.
    + apply (IH (pre ++ [x]) i). apply nearestValid_snoc_keep; [done|].
      intros ?; congruence.
    + destruct (Z.ltb_spec d2 d).
      * apply (IH (pre ++ [x]) (length pre)).
        apply nearestValid_snoc_new; [done|].
        intros j c' d' Hj Hd'. destruct Hn as (_ & _ & Hle & _).
        specialize (Hle j c' d' Hj Hd'). lia.
      * apply (IH (pre ++ [x]) i). apply nearestValid_snoc_keep; [done|].
        intros d3 Hd3. rewrite Hx in Hd3. injection Hd3 as <-. done.
Qed.

(** The loop from its first state, no entry so far having a distance that
    is a number. *)
Lemma closestLoop_no_number r g b rest : ∀ pre closestColor,
  (∀ c, c ∈ pre → ¬ isNumber (colorDistance r g b c)) →
  (closestLoop r g b rest Infinity closestColor = closestColor
   ∧ ∀ c, c ∈ rest → ¬ isNumber (colorDistance r g b c))
  ∨ ∃ i c d, closestLoop r g b rest Infinity closestColor = Some c
      ∧ nearestValid r g b (pre ++ rest) i c d.
Proof.
  induction rest as [|x rest IH]; intros pre cc Hpre.
  - left. split; [done|]. intros c Hc. by apply elem_of_nil in Hc.
  - replace (pre ++ x :: rest) with ((pre ++ [x]) ++ rest)
      by by rewrite <- app_assoc.
    simpl. destruct (colorDistance r g b x) as [| |d2] eqn:Hx; simpl.
    + destruct (IH (pre ++ [x]) cc) as [[E Hrest]|?]; [| |by right].
      * intros c [Hc|Hc%list_elem_of_singleton]%elem_of_app; [by apply Hpre|].
        subst c. rewrite Hx. by intros [? ?].
      * left. split; [done|]. intros c [->|Hc]%elem_of_cons; [|by apply Hrest].
        rewrite Hx. by intros [? ?].
    + destruct (IH (pre ++ [x]) cc) as [[E Hrest]|?]; [| |by right].
      * intros c [Hc|Hc%list_elem_of_singleton]%elem_of_app; [by apply Hpre|].
        subst c. rewrite Hx. by intros [? ?].
      * left. split; [done|]. intros c [->|Hc]%elem_of_cons; [|by apply Hrest].
        rewrite Hx. by intros [? ?].
    + right.
      apply (closestLoop_nearestValid r g b rest (pre ++ [x]) (length pre)).
      apply nearestValid_snoc_new; [done|].
      intros j c' d' Hj Hd'. exfalso. apply (Hpre c').
      * by eapply list_elem_of_lookup_2.
      * by exists d'.
Qed.

Lemma findClosestColor_nearestValid r g b palette :
  (findClosestColor r g b palette = head palette
   ∧ ∀ c, c ∈ palette → ¬ isNumber (colorDistance r g b c))
  ∨ ∃ i c d, findClosestColor r g b palette = Some c
      ∧ nearestValid r g b palette i c d.
Proof.
  apply (closestLoop_no_number r g b palette [] (head palette)).
  intros c Hc. by apply elem_of_nil in Hc.
Qed.

(** X1.  [findClosestColor] on a palette of any strings.  From a non-empty
    palette it returns an entry of the palette, never [undefined].  The
    distance of an entry is a number when [parseInt] reads a number from
    each of its three pairs of characters, whatever else the entry holds,
    and is NaN otherwise.  An entry whose distance is NaN is passed over:
    when some entry has a distance that is a number, the entry returned
    is the first of the nearest among those that have; when none has, it
    is [palette[0]]. *)
Theorem findClosestColor_any_palette (r g b : Z) (palette : list string) :
  palette ≠ [] →
  (∃ c, findClosestColor r g b palette = Some c ∧ c ∈ palette)
  ∧ (∀ c, isNumber (colorDistance r g b c)
          ↔ ∃ pr pg pb, parseColor c = (Some pr, Some pg, Some pb))
  ∧ ((∀ c, c ∈ palette → ¬ isNumber (colorDistance r g b c)) →
     findClosestColor r g b palette = head palette)
  ∧ (∀ c, c ∈ palette → isNumber (colorDistance r g b c) →
     ∃ i c' d, findClosestColor r g b palette = Some c'
       ∧ nearestValid r g b palette i c' d).
Proof.
  intros Hne. split_and!.
  - destruct (findClosestColor_is_Some r g b palette Hne) as [c Hc].
    exists c. split; [done|]. by eapply findClosestColor_elem.
  - intros c. unfold isNumber, colorDistance.
    destruct (parseColor c) as [[[pr|] [pg|]] [pb|]]; split;
      try (by intros [? ?]); try (by intros (? & ? & ? & ?)).
    + intros _. by eexists _, _, _.
    + intros _. by eexists.
  - intros Hnan.
    destruct (findClosestColor_nearestValid r g b palette)
      as [[E _]|(i & c & d & _ & Hi & Hd & _)]; [done|].
    exfalso. apply (Hnan c); [by eapply list_elem_of_lookup_2|by exists d].
  - intros c Hc Hnum.
    destruct (findClosestColor_nearestValid r g b palette)
      as [[_ Hnan]|?]; [|done].
    by destruct (Hnan c Hc).
Qed.

Lemma findClosestColor_any_palette_witness :
  mixedPalette ≠ []
  ∧ (∃ c, findClosestColor 0 250 0 mixedPalette = Some c ∧ c ∈ mixedPalette)
  ∧ (∀ c, isNumber (colorDistance 0 250 0 c)
          ↔ ∃ pr pg pb, parseColor c = (Some pr, Some pg, Some pb))
  ∧ ((∀ c, c ∈ mixedPalette → ¬ isNumber (colorDistance 0 250 0 c)) →
     findClosestColor 0 250 0 mixedPalette = head mixedPalette)
  ∧ (∀ c, c ∈ mixedPalette → isNumber (colorDistance 0 250 0 c) →
     ∃ i c' d, findClosestColor 0 250 0 mixedPalette = Some c'
       ∧ nearestValid 0 250 0 mixedPalette i c' d).
Proof.
  split; [discriminate|].
  apply (findClosestColor_any_palette 0 250 0 mixedPalette). discriminate.
Defined.

(** [parseInt] reads the digits that a pair of characters starts with,
    after white space: an entry need not be a colour to have a distance
    that is a number, and to be returned. *)
Example findClosestColor_lenient :
  parseColor "#1g2h3i" = (Some 1, Some 2, Some 3)
  ∧ findClosestColor 1 2 3 ["#000000"; "#1g2h3i"]%string
    = Some "#1g2h3i"%string
  ∧ parseInt16 (String (ascii_of_nat 160) "7") = Some 7
  ∧ parseInt16 "0x" = None.
Proof. vm_compute. split_and!; reflexivity. Qed.

(** Entries with a channel that cannot be read are passed over, and of two
    entries with the same channels the first is returned. *)
Example findClosestColor_mixed :
  findClosestColor 0 250 0 mixedPalette = Some "#00ff00"%string
  ∧ colorDistance 0 250 0 "red" = NaN
  ∧ colorDistance 0 250 0 "#FFF" = NaN
  ∧ findClosestColor 0 250 0 ["red"; "#FFF"]%string = Some "red"%string.
Proof. vm_compute. split_and!; reflexivity. Qed.

Lemma colorDistance_zero r g b c :
  colorDistance r g b c = Sqrt 0 ↔ parseColor c = (Some r, Some g, Some b).
Proof.
  unfold colorDistance. destruct (parseColor c) as [[[pr|] [pg|]] [pb|]];
    try (split; congruence).
  split.
  - intros [= E].
    assert (r - pr = 0 ∧ g - pg = 0 ∧ b - pb = 0) as (?&?&?) by nia.
    repeat f_equal; lia.
  - intros [= -> -> ->]. f_equal. lia.
Qed.

Lemma colorDistance_nonneg r g b c d : colorDistance r g b c = Sqrt d → 0 <= d.
Proof.
  unfold colorDistance. destruct (parseColor c) as [[[pr|] [pg|]] [pb|]];
    try congruence.
  intros [= <-]. nia.
Qed.

(** The search for a colour of the palette returns the first entry with the
    channels of that colour. *)
Lemma findClosestColor_first_exact r g b palette :
  paletteColour palette (r, g, b) →
  ∃ i c, findClosestColor r g b palette = Some c
    ∧ palette !! i = Some c
    ∧ parseColor c = (Some r, Some g, Some b)
    ∧ ∀ j c', (j < i)%nat → palette !! j = Some c' →
        parseColor c' ≠ (Some r, Some g, Some b).
Proof.
  intros (c0 & Hc & Hparse). simpl in Hparse.
  apply colorDistance_zero in Hparse.
  destruct (findClosestColor_nearestValid r g b palette)
    as [[_ Hnan]|(i & c & d & Hfind & Hi & Hd & Hle & Hlt)].
  { destruct (Hnan c0 Hc). by exists 0. }
  apply list_elem_of_lookup in Hc as [k Hk].
  pose proof (Hle k c0 0 Hk Hparse).
  pose proof (colorDistance_nonneg _ _ _ _ _ Hd).
  assert (d = 0) as -> by lia.
  exists i, c. split_and!; [done|done|by apply colorDistance_zero|].
  intros j c' Hji Hj Hp. apply colorDistance_zero in Hp.
  specialize (Hlt j c' 0 Hji Hj Hp). lia.
Qed.

(** X2.  A colour of the palette is mapped to itself: when the query has
    the three channels of an entry [c] of the palette, [findClosestColor]
    returns an entry with exactly these channels, namely the first such
    entry of the palette. *)
Theorem findClosestColor_exact (r g b : Z) (palette : list string)
    (c : string) :
  c ∈ palette → parseColor c = (Some r, Some g, Some b) →
  ∃ i c', findClosestColor r g b palette = Some c'
    ∧ palette !! i = Some c'
    ∧ parseColor c' = (Some r, Some g, Some b)
    ∧ ∀ j c'', (j < i)%nat → palette !! j = Some c'' →
        parseColor c'' ≠ (Some r, Some g, Some b).
Proof.
  intros Hc Hparse. apply findClosestColor_first_exact. by exists c.
Qed.

Lemma findClosestColor_exact_witness :
  "#FFD700"%string ∈ standard
  ∧ parseColor "#FFD700" = (Some 255, Some 215, Some 0)
  ∧ ∃ i c', findClosestColor 255 215 0 standard = Some c'
      ∧ standard !! i = Some c'
      ∧ parseColor c' = (Some 255, Some 215, Some 0)
      ∧ ∀ j c'', (j < i)%nat → standard !! j = Some c'' →
          parseColor c'' ≠ (Some 255, Some 215, Some 0).
Proof.
  assert (H : "#FFD700"%string ∈ standard).
  { apply (list_elem_of_lookup_2 _ 16%nat). reflexivity. }
  split; [exact H|]. split; [reflexivity|].
  apply (findClosestColor_exact 255 215 0 standard "#FFD700" H). reflexivity.
Defined.

(** X3.  The three built-in palettes.  Every entry of each is [#] and six
    hexadecimal digits, is not the sentinel, occurs in the standard palette
    too, and is what the search for its own colour in its palette returns;
    and for every query the search in a built-in palette returns such an
    entry of that palette. *)
Theorem beadPalettes_well_formed (name : paletteName) (r g b : Z) :
  Forall (λ c, isHexColor c = true ∧ c ≠ transparent ∧ c ∈ standard
               ∧ mapsToItself (beadPalettes name) c = true)
    (beadPalettes name)
  ∧ ∃ c, findClosestColor r g b (beadPalettes name) = Some c
      ∧ c ∈ beadPalettes name ∧ isHexColor c = true ∧ c ≠ transparent.
Proof.
  assert (H : Forall (λ c, isHexColor c = true ∧ c ≠ transparent
                 ∧ c ∈ standard
                 ∧ mapsToItself (beadPalettes name) c = true)
    (beadPalettes name)).
  { apply Forall_forall. intros c Hc.
    assert (Hb : forallb (λ c, isHexColor c
                   && bool_decide (c ≠ transparent)
                   && bool_decide (c ∈ standard)
                   && mapsToItself (beadPalettes name) c)
                   (beadPalettes name) = true)
      by (destruct name; vm_compute; reflexivity).
    rewrite forallb_forall in Hb. apply list_elem_of_In in Hc.
    specialize (Hb c Hc).
    apply andb_prop in Hb as [Hb Hself].
    apply andb_prop in Hb as [Hb Hstd%bool_decide_eq_true].
    apply andb_prop in Hb as [Hhex Htr%bool_decide_eq_true].
    done. }
  split; [done|].
  destruct (findClosestColor_is_Some r g b (beadPalettes name)) as [c Hc].
  { by destruct name. }
  exists c. pose proof (findClosestColor_elem _ _ _ _ _ Hc) as Hin.
  rewrite Forall_forall in H. destruct (H c Hin) as (?&?&?&?). done.
Qed.

End NearestFacts.

Module SizeFacts.
Import ImageProcessor ResamplerFacts.

(** X4.  The size of the grid.  For positive sizes and a positive
    [maxBeads], neither axis of the target size exceeds [maxBeads] or the
    native length of that axis, the longer of the two is the smaller of
    [maxBeads] and the longer native axis, and an image that is wider than
    tall is not made taller than wide, nor the reverse. *)
Theorem targetSize_fits (w h m : Z) :
  0 < w → 0 < h → 0 < m →
  ∃ w' h', targetSize w h m = (w', h')
    ∧ 0 <= w' <= Z.min w m ∧ 0 <= h' <= Z.min h m
    ∧ Z.max w' h' = Z.min m (Z.max w h)
    ∧ (h < w → h' <= w') ∧ (w <= h → w' <= h').
Proof.
  intros Hw Hh Hm. unfold targetSize.
  destruct (Z.ltb_spec h w) as [Hhw|Hwh].
  - destruct (Z.ltb_spec m w) as [Hmw|Hwm].
    + eexists _, _. split; [reflexivity|].
      destruct (scaledAxis_nearest h m w) as [_ ?]; [lia|nia|].
      assert (scaledAxis h m w <= h) by (apply scaledAxis_le; nia).
      assert (scaledAxis h m w <= m) by (apply scaledAxis_le; nia).
      lia.
    + eexists _, _. split; [reflexivity|]. lia.
  - destruct (Z.ltb_spec m h) as [Hmh|Hhm].
    + eexists _, _. split; [reflexivity|].
      destruct (scaledAxis_nearest w m h) as [_ ?]; [lia|nia|].
      assert (scaledAxis w m h <= w) by (apply scaledAxis_le; nia).
      assert (scaledAxis w m h <= m) by (apply scaledAxis_le; nia).
      lia.
    + eexists _, _. split; [reflexivity|]. lia.
Qed.

Lemma targetSize_fits_witness :
  0 < 640 ∧ 0 < 480 ∧ 0 < 29
  ∧ ∃ w' h', targetSize 640 480 29 = (w', h')
      ∧ 0 <= w' <= Z.min 640 29 ∧ 0 <= h' <= Z.min 480 29
      ∧ Z.max w' h' = Z.min 29 (Z.max 640 480)
      ∧ (480 < 640 → h' <= w') ∧ (640 <= 480 → w' <= h').
Proof.
  split; [lia|]. split; [lia|]. split; [lia|].
  apply (targetSize_fits 640 480 29); lia.
Defined.

End SizeFacts.

Module FrequencyFacts.
Import Palette ImageProcessor Inputs FloodFillFacts.

Lemma countColor_new rgb (freq : list (Z * Z * Z * nat)) :
  (rgb ∉ freq.*1) → countColor rgb freq = freq ++ [(rgb, 1%nat)].
Proof.
  induction freq as [|[k n] freq IH]; simpl; [done|].
  intros Hnot. apply not_elem_of_cons in Hnot as [? ?].
  destruct (decide (k = rgb)); [congruence|]. by rewrite IH.
Qed.

Lemma countColor_old rgb (freq : list (Z * Z * Z * nat)) :
  rgb ∈ freq.*1 →
  ∃ f1 n f2, freq = f1 ++ (rgb, n) :: f2 ∧ (rgb ∉ f1.*1)
    ∧ countColor rgb freq = f1 ++ (rgb, S n) :: f2.
Proof.
  induction freq as [|[k n] freq IH]; simpl.
  { intros H. by apply elem_of_nil in H. }
  intros Hin. destruct (decide (k = rgb)) as [->|Hne].
  - exists [], n, freq. split_and!; [done| |done]. apply not_elem_of_nil.
  - apply elem_of_cons in Hin as [?|Hin]; [congruence|].
    destruct (IH Hin) as (f1 & n' & f2 & -> & Hf1 & ->).
    exists ((k, n) :: f1), n', f2. split_and!; [done| |done].
    simpl. apply not_elem_of_cons. split; [congruence|done].
Qed.

Lemma occurrences_snoc rgb c colors :
  occurrences rgb (colors ++ [c])
  = (occurrences rgb colors + if decide (c = rgb) then 1 else 0)%nat.
Proof.
  unfold occurrences. rewrite filter_app, length_app. f_equal.
  rewrite filter_cons, filter_nil. by destruct (decide (c = rgb)).
Qed.

Lemma occurrences_zero rgb colors :
  (rgb ∉ colors) → occurrences rgb colors = 0%nat.
Proof.
  unfold occurrences. induction colors as [|c colors IH]; [done|].
  intros [? ?]%not_elem_of_cons. rewrite filter_cons.
  destruct (decide (c = rgb)); [congruence|]. by apply IH.
Qed.

Lemma counted_nil : counted [] [].
Proof. split; simpl; [constructor|done|done|done]. Qed.

(** Counting one more colour. *)
Lemma counted_snoc colors freq c :
  counted colors freq → counted (colors ++ [c]) (countColor c freq).
Proof.
  intros [Hnd Hkeys Hcount Horder].
  destruct (decide (c ∈ freq.*1)) as [Hin|Hnot].
  - destruct (countColor_old c freq Hin) as (f1 & n & f2 & -> & Hf1 & ->).
    assert (Hk : (f1 ++ (c, S n) :: f2).*1 = (f1 ++ (c, n) :: f2).*1).
    { by rewrite !fmap_app, !fmap_cons. }
    split.
    + by rewrite Hk.
    + rewrite Hk.
      intros c' [?| ->%list_elem_of_singleton]%elem_of_app; [auto|done].
    + intros p k m Hp. rewrite occurrences_snoc.
      destruct (decide (p = length f1)) as [->|Hne].
      * rewrite list_lookup_middle in Hp by done. injection Hp as <- <-.
        rewrite (Hcount (length f1) c n) by by rewrite list_lookup_middle.
        rewrite decide_True by done. lia.
      * assert (Hp' : (f1 ++ (c, n) :: f2) !! p = Some (k, m)).
        { destruct (decide (p < length f1)%nat).
          - rewrite lookup_app_l in Hp |- * by done. done.
          - rewrite lookup_app_r in Hp |- * by lia.
            destruct (p - length f1)%nat eqn:E; [lia|]. done. }
        rewrite (Hcount p k m Hp').
        assert (k ≠ c).
        { intros ->. apply Hne.
          apply (NoDup_lookup _ p (length f1) c Hnd).
          - by rewrite list_lookup_fmap, Hp'.
          - by rewrite list_lookup_fmap, list_lookup_middle. }
        rewrite decide_False by done. lia.
    + rewrite Hk. intros p k Hp.
      destruct (Horder p k Hp) as (i & Hi & Hbefore).
      exists i. split.
      * rewrite lookup_app_l; [done|by eapply lookup_lt_Some].
      * intros j c' Hji Hj. apply (Hbefore j c' Hji).
        rewrite lookup_app_l in Hj; [done|].
        apply lookup_lt_Some in Hi. lia.
  - rewrite (countColor_new c freq Hnot).
    assert (Hk : (freq ++ [(c, 1%nat)]).*1 = freq.*1 ++ [c]).
    { by rewrite fmap_app. }
    split.
    + rewrite Hk. apply NoDup_app. split_and!; [done| |apply NoDup_singleton].
      intros k Hk1 ->%list_elem_of_singleton. done.
    + rewrite Hk. intros c' [?| ->%list_elem_of_singleton]%elem_of_app.
      * apply elem_of_app. left. auto.
      * apply elem_of_app. right. by apply list_elem_of_singleton.
    + intros p k m Hp. rewrite occurrences_snoc.
      destruct (decide (p < length freq)%nat).
      * rewrite lookup_app_l in Hp by done.
        rewrite (Hcount p k m Hp).
        assert (k ≠ c).
        { intros ->. apply Hnot. apply list_elem_of_lookup. exists p.
          by rewrite list_lookup_fmap, Hp. }
        rewrite decide_False by done. lia.
      * rewrite lookup_app_r in Hp by lia.
        apply list_lookup_singleton_Some in Hp as [_ [= <- <-]].
        rewrite decide_True by done.
        rewrite occurrences_zero; [done|]. intros Hc. apply Hnot. auto.
    + rewrite Hk. intros p k Hp.
      destruct (decide (p < length freq.*1)%nat).
      * rewrite lookup_app_l in Hp by done.
        destruct (Horder p k Hp) as (i & Hi & Hbefore).
        exists i. split.
        -- rewrite lookup_app_l; [done|by eapply lookup_lt_Some].
        -- intros j c' Hji Hj.
           rewrite lookup_app_l in Hj by (apply lookup_lt_Some in Hi; lia).
           destruct (Hbefore j c' Hji Hj) as (q & Hq & Hq').
           exists q. split; [done|]. rewrite lookup_app_l; [done|lia].
      * rewrite lookup_app_r in Hp by lia.
        apply list_lookup_singleton_Some in Hp as [Hp <-].
        exists (length colors). split.
        -- rewrite lookup_app_r by lia. by rewrite Nat.sub_diag.
        -- intros j c' Hji Hj. rewrite lookup_app_l in Hj by done.
           assert (Hc' : c' ∈ freq.*1).
           { apply Hkeys. by eapply list_elem_of_lookup_2. }
           apply list_elem_of_lookup in Hc' as [q Hq].
           exists q. split.
           ++ apply lookup_lt_Some in Hq. lia.
           ++ rewrite lookup_app_l; [done|by eapply lookup_lt_Some].
Qed.

Lemma countAll_snoc colors c :
  countAll (colors ++ [c]) = countColor c (countAll colors).
Proof. unfold countAll. by rewrite foldl_app. Qed.

Lemma counted_countAll colors : counted colors (countAll colors).
Proof.
  induction colors as [|c colors IH] using rev_ind; [apply counted_nil|].
  rewrite countAll_snoc. by apply counted_snoc.
Qed.

Lemma insertByCount_head e sorted :
  head (insertByCount e sorted)
  = match head sorted with
    | Some e' => if (e'.2 <=? e.2)%nat then Some e else Some e'
    | None => Some e
    end.
Proof.
  destruct sorted as [|e' rest]; simpl; [done|].
  by destruct (e'.2 <=? e.2)%nat.
Qed.

(** The first entry of the sorted list is the first of the entries with
    the greatest count. *)
Lemma sortByCount_head (freq : list (Z * Z * Z * nat)) :
  freq ≠ [] →
  ∃ p e, head (sortByCount freq) = Some e ∧ freq !! p = Some e
    ∧ (∀ q e', freq !! q = Some e' → (e'.2 ≤ e.2)%nat)
    ∧ (∀ q e', (q < p)%nat → freq !! q = Some e' → (e'.2 < e.2)%nat).
Proof.
  induction freq as [|e0 rest IH]; [done|]. intros _.
  change (sortByCount (e0 :: rest)) with (insertByCount e0 (sortByCount rest)).
  rewrite insertByCount_head.
  destruct rest as [|e1 rest'].
  - exists 0%nat, e0. simpl. split_and!; [done|done| |].
    + intros [|q] e'; simpl; [|done]. intros [= <-]. done.
    + intros q e' Hq. lia.
  - destruct IH as (p & e & -> & Hp & Hle & Hlt); [done|].
    destruct (Nat.leb_spec e.2 e0.2).
    + exists 0%nat, e0. split_and!; [done|done| |].
      * intros [|q] e'; simpl.
        -- intros [= <-]. done.
        -- intros Hq. specialize (Hle q e' Hq). lia.
      * intros q e' Hq. lia.
    + exists (S p), e. split_and!; [done|done| |].
      * intros [|q] e'; simpl.
        -- intros [= <-]. lia.
        -- intros Hq. by apply (Hle q e').
      * intros [|q] e' Hq; simpl.
        -- intros [= <-]. done.
        -- intros Hq'. apply (Hlt q e'); [lia|done].
Qed.

Lemma insertByCount_perm e sorted : insertByCount e sorted ≡ₚ e :: sorted.
Proof.
  induction sorted as [|e' rest IH]; simpl; [done|].
  destruct (e'.2 <=? e.2)%nat; [done|]. rewrite IH. apply perm_swap.
Qed.

Lemma sortByCount_perm l : sortByCount l ≡ₚ l.
Proof.
  induction l as [|e l IH]; [done|].
  change (sortByCount (e :: l)) with (insertByCount e (sortByCount l)).
  by rewrite insertByCount_perm, IH.
Qed.

(** Counting and sorting puts first the colour that occurs most often, of
    several such the one that occurs first. *)
Lemma sorted_most_frequent (colors : list (Z * Z * Z)) :
  colors ≠ [] →
  ∃ k n rest i,
    sortByCount (countAll colors) = (k, n) :: rest
    ∧ n = occurrences k colors
    ∧ colors !! i = Some k
    ∧ (∀ c, occurrences c colors ≤ n)%nat
    ∧ (∀ j c, (j < i)%nat → colors !! j = Some c →
         (occurrences c colors < n)%nat).
Proof.
  intros Hne.
  pose proof (counted_countAll colors) as [Hnd Hkeys Hcount Horder].
  destruct (sortByCount_head (countAll colors))
    as (p & [k n] & Hhead & Hp & Hle & Hlt).
  { intros E. rewrite E in Hkeys. destruct colors as [|c0 colors]; [done|].
    specialize (Hkeys c0 ltac:(by left)). by apply elem_of_nil in Hkeys. }
  destruct (sortByCount (countAll colors)) as [|[k' n'] rest] eqn:E; [done|].
  injection Hhead as -> ->.
  destruct (Horder p k) as (i & Hi & Hbefore).
  { by rewrite list_lookup_fmap, Hp. }
  pose proof (Hcount p k n Hp) as Hn. simpl in *.
  exists k, n, rest, i. split_and!; [done|done|done| |].
  - intros c. destruct (decide (c ∈ colors)) as [Hc|Hc].
    + apply Hkeys in Hc. apply list_elem_of_lookup in Hc as [q Hq].
      rewrite list_lookup_fmap in Hq.
      destruct (countAll colors !! q) as [[c' m]|] eqn:Hq'; [|done].
      injection Hq as ->. specialize (Hle q (c, m) Hq').
      rewrite <- (Hcount q c m Hq'). done.
    + rewrite occurrences_zero by done. lia.
  - intros j c Hji Hj. destruct (Hbefore j c Hji Hj) as (q & Hqp & Hq).
    rewrite list_lookup_fmap in Hq.
    destruct (countAll colors !! q) as [[c' m]|] eqn:Hq'; [|done].
    injection Hq as ->. specialize (Hlt q (c, m) Hqp Hq').
    rewrite <- (Hcount q c m Hq'). done.
Qed.

Lemma sampleFrequencies_countAll data width height :
  sampleFrequencies data width height
  = countAll (sampleColors data width height).
Proof.
  unfold sampleFrequencies, countAll, sampleColors.
  generalize (@nil (Z * Z * Z * nat)).
  induction (samplePoints width height) as [|[x y] l IH];
    intros acc; simpl; [done|]. apply IH.
Qed.

Lemma samplePoints_border width height :
  (0 < width)%nat → (0 < height)%nat →
  Forall (onBorder width height) (samplePoints width height).
Proof.
  intros Hw Hh.
  assert (width / 2 < width)%nat by (apply Nat.div_lt; lia).
  assert (height / 2 < height)%nat by (apply Nat.div_lt; lia).
  unfold samplePoints, onBorder, inGrid.
  repeat (apply List.Forall_cons; [cbn [fst snd]; lia|]). apply List.Forall_nil.
Qed.

Lemma backgroundColor_first_most_frequent data width height :
  ∃ i, sampleColors data width height !! i
       = Some (backgroundColor data width height)
    ∧ (∀ c, occurrences c (sampleColors data width height)
            ≤ occurrences (backgroundColor data width height)
                (sampleColors data width height))%nat
    ∧ ∀ j c, (j < i)%nat → sampleColors data width height !! j = Some c →
        (occurrences c (sampleColors data width height)
         < occurrences (backgroundColor data width height)
             (sampleColors data width height))%nat.
Proof.
  destruct (sorted_most_frequent (sampleColors data width height))
    as (k & n & rest & i & Hs & Hn & Hi & Hle & Hlt); [done|].
  unfold backgroundColor. rewrite sampleFrequencies_countAll, Hs.
  exists i. by rewrite <- Hn.
Qed.

(** X5.  The seed colour of the background.  The eight sample points lie
    on the border of the buffer, and [backgroundColor] is the colour read
    at one of them: a colour that no colour outnumbers among the eight
    colours read, and, of the colours that occur as often, the one whose
    first sample point comes first. *)
Theorem backgroundColor_most_frequent (data : list Z) (width height : nat) :
  (0 < width)%nat → (0 < height)%nat →
  Forall (onBorder width height) (samplePoints width height)
  ∧ ∃ i, sampleColors data width height !! i
         = Some (backgroundColor data width height)
      ∧ (∀ c, occurrences c (sampleColors data width height)
              ≤ occurrences (backgroundColor data width height)
                  (sampleColors data width height))%nat
      ∧ ∀ j c, (j < i)%nat → sampleColors data width height !! j = Some c →
          (occurrences c (sampleColors data width height)
           < occurrences (backgroundColor data width height)
               (sampleColors data width height))%nat.
Proof.
  intros Hw Hh. split; [by apply samplePoints_border|].
  apply backgroundColor_first_most_frequent.
Qed.

Lemma backgroundColor_most_frequent_witness :
  (0 < 5)%nat ∧ (0 < 5)%nat
  ∧ Forall (onBorder 5 5) (samplePoints 5 5)
  ∧ ∃ i, sampleColors ringImage 5 5 !! i = Some (backgroundColor ringImage 5 5)
      ∧ (∀ c, occurrences c (sampleColors ringImage 5 5)
              ≤ occurrences (backgroundColor ringImage 5 5)
                  (sampleColors ringImage 5 5))%nat
      ∧ ∀ j c, (j < i)%nat → sampleColors ringImage 5 5 !! j = Some c →
          (occurrences c (sampleColors ringImage 5 5)
           < occurrences (backgroundColor ringImage 5 5)
               (sampleColors ringImage 5 5))%nat.
Proof.
  split; [lia|]. split; [lia|].
  apply (backgroundColor_most_frequent ringImage 5 5); lia.
Defined.

End FrequencyFacts.

Module MappingFacts.
Import Palette ImageProcessor Inputs PaletteFacts QuantizerFacts NearestFacts.

Section LoopSpec.
Context {St : Type}.

(** The loop over a row when every pixel is handled without an exception:
    [Inv] holds of the state before each pixel, [cell] gives the cells. *)
Lemma rowLoop_spec (body : St → nat → result (St * string))
    (Inv : nat → St → Prop) (cell : nat → string) n : ∀ start st row,
  (∀ st x, (start ≤ x < start + n)%nat → Inv x st →
     ∃ st', body st x = Ok (st', cell x) ∧ Inv (S x) st') →
  Inv start st →
  ∃ st', rowLoop body (seq start n) st row
         = Ok (st', row ++ (cell <$> seq start n))
    ∧ Inv (start + n)%nat st'.
Proof.
  induction n as [|n IH]; intros start st row Hbody Hinv.
  - exists st. simpl. rewrite app_nil_r, Nat.add_0_r. done.
  - destruct (Hbody st start ltac:(lia) Hinv) as (st1 & Hb & Hinv1).
    destruct (IH (S start) st1 (row ++ [cell start])) as (st' & Hl & Hinv');
      [|done|].
    { intros st2 x Hx. apply Hbody. lia. }
    exists st'. split.
    + cbn [seq rowLoop]. rewrite Hb. cbn. rewrite Hl.
      by rewrite <- app_assoc.
    + by replace (start + S n)%nat with (S start + n)%nat by lia.
Qed.

(** The loops over the grid; the invariant is indexed by the number of
    pixels handled. *)
Lemma gridLoop_spec (body : St → nat → nat → result (St * string))
    (Inv : nat → St → Prop) (cell : nat → nat → string) width n :
  ∀ start st grid,
  (∀ st x y, (x < width)%nat → (start ≤ y < start + n)%nat →
     Inv (y * width + x)%nat st →
     ∃ st', body st x y = Ok (st', cell x y) ∧ Inv (S (y * width + x)) st') →
  Inv (start * width)%nat st →
  ∃ st', gridLoop body width (seq start n) st grid
         = Ok (st', grid ++ ((λ y, (λ x, cell x y) <$> seq 0 width)
                               <$> seq start n))
    ∧ Inv ((start + n) * width)%nat st'.
Proof.
  induction n as [|n IH]; intros start st grid Hbody Hinv.
  - exists st. simpl. rewrite app_nil_r, Nat.add_0_r. done.
  - destruct (rowLoop_spec (λ st x, body st x start)
                (λ x, Inv (x + start * width)%nat) (λ x, cell x start)
                width 0%nat st [])
      as (st1 & Hrow & Hinv1).
    { intros st0 x Hx Hi.
      destruct (Hbody st0 x start) as (st' & Hb & Hi'); [lia|lia| |].
      - by rewrite Nat.add_comm.
      - exists st'. split; [done|]. by rewrite Nat.add_comm in Hi'. }
    { done. }
    destruct (IH (S start) st1
                (grid ++ [(λ x, cell x start) <$> seq 0 width]))
      as (st' & Hl & Hinv').
    { intros st2 x y Hx Hy. apply Hbody; [done|lia]. }
    { exact Hinv1. }
    exists st'. split.
    + cbn [seq gridLoop]. rewrite Hrow. cbn. rewrite Hl.
      by rewrite <- app_assoc.
    + by replace (start + S n)%nat with (S start + n)%nat by lia.
Qed.

Lemma rowLoop_ext (body1 body2 : St → nat → result (St * string)) xs :
  (∀ st x, body1 st x = body2 st x) →
  ∀ st row, rowLoop body1 xs st row = rowLoop body2 xs st row.
Proof.
  intros Hb. induction xs as [|x xs IH]; intros st row; simpl; [done|].
  rewrite Hb. destruct (body2 st x) as [[st' c]|e]; simpl; [apply IH|done].
Qed.

Lemma gridLoop_ext (body1 body2 : St → nat → nat → result (St * string))
    width ys :
  (∀ st x y, body1 st x y = body2 st x y) →
  ∀ st grid, gridLoop body1 width ys st grid = gridLoop body2 width ys st grid.
Proof.
  intros Hb. induction ys as [|y ys IH]; intros st grid; simpl; [done|].
  rewrite (rowLoop_ext (λ st x, body1 st x y) (λ st x, body2 st x y))
    by (intros; apply Hb).
  destruct (rowLoop _ _ _ _) as [[st' row]|e]; simpl; [apply IH|done].
Qed.
End LoopSpec.

Lemma cellAt_tabulate (cell : nat → nat → string) width height x y :
  (x < width)%nat → (y < height)%nat →
  cellAt ((λ y, (λ x, cell x y) <$> seq 0 width) <$> seq 0 height) x y
  = Some (cell x y).
Proof.
  intros Hx Hy. unfold cellAt.
  rewrite list_lookup_fmap, lookup_seq_lt by done. simpl.
  by rewrite list_lookup_fmap, lookup_seq_lt.
Qed.

Lemma fmap_const_seq {A} (a : A) start n :
  (λ _, a) <$> seq start n = replicate n a.
Proof.
  revert start. induction n as [|n IH]; intros start; simpl; [done|].
  by rewrite IH.
Qed.

Lemma tabulate_const {A} (a : A) width start n :
  (λ _ : nat, (λ _ : nat, a) <$> seq 0 width) <$> seq start n
  = replicate n (replicate width a).
Proof.
  revert start. induction n as [|n IH]; intros start; simpl; [done|].
  by rewrite IH, fmap_const_seq.
Qed.

(** Without dithering a pixel is read before anything is written to it. *)
Lemma mapPixel_spec palette width removeBackground transparentPixels
    data0 data x y c :
  (x < width)%nat →
  untouchedFrom data0 (y * width + x) data →
  nearestCell palette width removeBackground transparentPixels data0 x y
  = Some c →
  ∃ data', mapPixel palette width removeBackground transparentPixels data x y
           = Ok (data', c)
    ∧ untouchedFrom data0 (S (y * width + x)) data'.
Proof.
  intros Hx Hun. unfold nearestCell, mapPixel, rgbAt, rd.
  rewrite !Hun by lia.
  destruct (isBackgroundColor _ _ _ _ _).
  - intros [= <-]. eexists. split; [done|].
    intros i Hi. rewrite list_lookup_insert_ne by lia. apply Hun. lia.
  - intros ->. destruct (parseColor c) as [[cr cg] cb].
    eexists. split; [done|].
    intros i Hi. rewrite !list_lookup_insert_ne by lia. apply Hun. lia.
Qed.

Lemma quantize_plain_spec palette width height removeBackground
    transparentPixels data (cell : nat → nat → string) :
  (∀ x y, (x < width)%nat → (y < height)%nat →
     nearestCell palette width removeBackground transparentPixels data x y
     = Some (cell x y)) →
  quantize palette width height removeBackground transparentPixels false data
  = Ok ((λ y, (λ x, cell x y) <$> seq 0 width) <$> seq 0 height).
Proof.
  intros Hcell. unfold quantize.
  destruct (gridLoop_spec
              (mapPixel palette width removeBackground transparentPixels)
              (untouchedFrom data) cell width height 0%nat data [])
    as (st' & -> & _); [| |done].
  - intros st x y Hx Hy Hinv. apply mapPixel_spec; [done|done|].
    apply Hcell; [done|lia].
  - intros i _. done.
Qed.

Lemma nearestCell_is_Some palette width removeBackground transparentPixels
    data x y :
  palette ≠ [] →
  is_Some (nearestCell palette width removeBackground transparentPixels data
             x y).
Proof.
  intros Hne. unfold nearestCell.
  destruct (isBackgroundColor _ _ _ _ _); [done|].
  destruct (rgbAt _ _) as [[r g] b]. by apply findClosestColor_is_Some.
Qed.

(** X6.  Mapping without dithering.  With a non-empty palette the loops
    end normally, and every cell of the grid is decided by its own pixel of
    the buffer as it was read from the canvas: the sentinel for a
    background pixel, else the nearest colour of the palette to that
    pixel.  The colours written back to the buffer for the pixels already
    handled do not reach the pixels still to come. *)
Theorem plain_mapping_pointwise (palette : list string) (width height : nat)
    (removeBackground : bool) (transparentPixels : gset nat)
    (data : list Z) :
  palette ≠ [] →
  ∃ colorGrid,
    quantize palette width height removeBackground transparentPixels false
      data = Ok colorGrid
    ∧ length colorGrid = height
    ∧ ∀ x y, (x < width)%nat → (y < height)%nat →
        cellAt colorGrid x y
        = nearestCell palette width removeBackground transparentPixels data
            x y.
Proof.
  intros Hne.
  pose (cell := λ x y,
    default transparent
      (nearestCell palette width removeBackground transparentPixels data x y)).
  eexists. split_and!.
  - apply (quantize_plain_spec _ _ _ _ _ _ cell). intros x y _ _. unfold cell.
    by destruct (nearestCell_is_Some palette width removeBackground
                   transparentPixels data x y Hne) as [c ->].
  - by rewrite length_fmap, length_seq.
  - intros x y Hx Hy. rewrite cellAt_tabulate by done. unfold cell.
    by destruct (nearestCell_is_Some palette width removeBackground
                   transparentPixels data x y Hne) as [c ->].
Qed.

Lemma plain_mapping_pointwise_witness :
  greyPalette ≠ []
  ∧ ∃ colorGrid,
      quantize greyPalette 2 2 false ∅ false greyImage = Ok colorGrid
      ∧ length colorGrid = 2%nat
      ∧ ∀ x y, (x < 2)%nat → (y < 2)%nat →
          cellAt colorGrid x y = nearestCell greyPalette 2 false ∅ greyImage x y.
Proof.
  split; [discriminate|].
  apply (plain_mapping_pointwise greyPalette 2 2 false ∅ greyImage).
  discriminate.
Defined.

Lemma toUint8Clamp16_exact v : 0 <= v <= 255 → toUint8Clamp16 (16 * v) = v.
Proof.
  intros Hv. unfold toUint8Clamp16.
  destruct (Z.leb_spec (16 * v) 0); [lia|].
  destruct (Z.leb_spec (255 * 16) (16 * v)); [lia|].
  replace (16 * v) with (v * 16) by lia.
  rewrite Z.mod_mul, Z.div_mul by lia. done.
Qed.

(** An error of zero leaves the working copy as it is. *)
Lemma addError_zero i k pixels :
  Forall (λ v, 0 <= v <= 255) pixels → addError i (Some 0) k pixels = pixels.
Proof.
  intros Hrange. unfold addError, rd.
  destruct (pixels !! i) as [v|] eqn:Hi.
  - simpl. rewrite Z.mul_0_l, Z.add_0_r.
    rewrite toUint8Clamp16_exact; [by apply list_insert_id|].
    rewrite Forall_forall in Hrange. apply Hrange.
    by eapply list_elem_of_lookup_2.
  - apply list_insert_ge. by apply lookup_ge_None.
Qed.

Lemma addError3_zero i k pixels :
  Forall (λ v, 0 <= v <= 255) pixels →
  addError3 i (Some 0) (Some 0) (Some 0) k pixels = pixels.
Proof.
  intros H. unfold addError3.
  by rewrite (addError_zero i), (addError_zero (i + 1)),
    (addError_zero (i + 2)) by done.
Qed.

Lemma diffuse_zero width height x y idx pixels :
  Forall (λ v, 0 <= v <= 255) pixels →
  diffuse width height x y idx (Some 0) (Some 0) (Some 0) pixels = pixels.
Proof.
  intros H. unfold diffuse.
  destruct (x + 1 <? width)%nat, (y + 1 <? height)%nat, (0 <? x)%nat;
    cbv zeta; by rewrite ?(addError3_zero _ _ pixels) by done.
Qed.

Lemma ditherPixel_exact palette width height removeBackground
    transparentPixels data0 data x y :
  Forall (λ v, 0 <= v <= 255) data0 →
  (isBackgroundColor removeBackground transparentPixels width x y = false →
   paletteColour palette (rgbAt data0 ((y * width + x) * 4))) →
  ∃ c data',
    nearestCell palette width removeBackground transparentPixels data0 x y
    = Some c
    ∧ ditherPixel palette width height removeBackground transparentPixels
        (data0, data) x y = Ok (data0, data', c).
Proof.
  intros Hrange Hpal. unfold nearestCell, ditherPixel.
  destruct (isBackgroundColor _ _ _ _ _); [by eexists _, _|].
  specialize (Hpal eq_refl).
  destruct (rgbAt data0 _) as [[r g] b].
  destruct (findClosestColor_first_exact r g b palette Hpal)
    as (i & c & -> & _ & -> & _).
  exists c. eexists. split; [done|]. simpl.
  rewrite !Z.sub_diag. by rewrite diffuse_zero.
Qed.

(** X7.  Dithering an image that needs none.  When every pixel that is
    not background has exactly the colour of some entry of the palette,
    the quantization errors are all zero, the working copy is never
    changed, and the grid produced with dithering is the grid produced
    without: every cell is the sentinel or the nearest colour to its own
    pixel. *)
Theorem dithering_keeps_palette_images (palette : list string)
    (width height : nat) (removeBackground : bool)
    (transparentPixels : gset nat) (data : list Z) :
  Forall (λ v, 0 <= v <= 255) data →
  (∀ x y, (x < width)%nat → (y < height)%nat →
     isBackgroundColor removeBackground transparentPixels width x y = false →
     paletteColour palette (rgbAt data ((y * width + x) * 4))) →
  ∃ colorGrid,
    quantize palette width height removeBackground transparentPixels true data
    = Ok colorGrid
    ∧ quantize palette width height removeBackground transparentPixels false
        data = Ok colorGrid
    ∧ ∀ x y, (x < width)%nat → (y < height)%nat →
        cellAt colorGrid x y
        = nearestCell palette width removeBackground transparentPixels data
            x y.
Proof.
  intros Hrange Hpal.
  pose (cell := λ x y,
    default transparent
      (nearestCell palette width removeBackground transparentPixels data x y)).
  assert (Hcell : ∀ x y, (x < width)%nat → (y < height)%nat →
    nearestCell palette width removeBackground transparentPixels data x y
    = Some (cell x y)).
  { intros x y Hx Hy. unfold cell.
    destruct (ditherPixel_exact palette width height removeBackground
                transparentPixels data data x y Hrange) as (c & _ & -> & _);
      [|done].
    intros Hb. by apply Hpal. }
  exists ((λ y, (λ x, cell x y) <$> seq 0 width) <$> seq 0 height).
  split_and!.
  - unfold quantize.
    destruct (gridLoop_spec
                (ditherPixel palette width height removeBackground
                   transparentPixels)
                (λ _ st, st.1 = data) cell width height 0%nat (data, data) [])
      as (st' & -> & _); [| |done].
    + intros [pixels data'] x y Hx Hy Hp. simpl in Hp. subst pixels.
      destruct (ditherPixel_exact palette width height removeBackground
                  transparentPixels data data' x y Hrange)
        as (c & data'' & Hc & ->).
      { intros Hb. apply Hpal; [done|lia|done]. }
      exists (data, data''). rewrite Hcell in Hc by lia.
      injection Hc as ->. done.
    + done.
  - by apply quantize_plain_spec.
  - intros x y Hx Hy. rewrite cellAt_tabulate by done. by rewrite Hcell.
Qed.

Lemma blackWhite_range : Forall (λ v, 0 <= v <= 255) blackWhite.
Proof. repeat (apply List.Forall_cons; [lia|]). apply List.Forall_nil. Qed.

Lemma blackWhite_palette x y :
  (x < 2)%nat → (y < 1)%nat →
  isBackgroundColor false ∅ 2 x y = false →
  paletteColour greyPalette (rgbAt blackWhite ((y * 2 + x) * 4)).
Proof.
  intros Hx Hy _. assert (y = 0%nat) as -> by lia.
  destruct x as [|[|x]]; [| |lia].
  - exists "#000000"%string. split; [|reflexivity].
    apply (list_elem_of_lookup_2 _ 0%nat). reflexivity.
  - exists "#FFFFFF"%string. split; [|reflexivity].
    apply (list_elem_of_lookup_2 _ 2%nat). reflexivity.
Qed.

Lemma dithering_keeps_palette_images_witness :
  Forall (λ v, 0 <= v <= 255) blackWhite
  ∧ (∀ x y, (x < 2)%nat → (y < 1)%nat →
       isBackgroundColor false ∅ 2 x y = false →
       paletteColour greyPalette (rgbAt blackWhite ((y * 2 + x) * 4)))
  ∧ ∃ colorGrid,
      quantize greyPalette 2 1 false ∅ true blackWhite = Ok colorGrid
      ∧ quantize greyPalette 2 1 false ∅ false blackWhite = Ok colorGrid
      ∧ ∀ x y, (x < 2)%nat → (y < 1)%nat →
          cellAt colorGrid x y
          = nearestCell greyPalette 2 false ∅ blackWhite x y.
Proof.
  split; [exact blackWhite_range|]. split; [exact blackWhite_palette|].
  exact (dithering_keeps_palette_images greyPalette 2 1 false ∅ blackWhite
           blackWhite_range blackWhite_palette).
Defined.

End MappingFacts.

Module DitherPassFacts.
Import Palette ImageProcessor Inputs PaletteFacts QuantizerFacts DitherFacts.
Import MappingFacts.

Lemma raster_coordinates width x y :
  (x < width)%nat →
  ((y * width + x) mod width = x ∧ (y * width + x) / width = y)%nat.
Proof.
  intros Hx. replace (y * width + x)%nat with (x + y * width)%nat by lia.
  rewrite Nat.Div0.mod_add, Nat.div_add by lia.
  rewrite Nat.mod_small, Nat.div_small by done. lia.
Qed.

(** C4, amended.  In dithered mode the quantizer works on a copy of the
    buffer that is itself an array of clamped bytes, and goes through the
    pixels in row-major order; [copy k] is the copy when the pixel of
    raster index [k] is reached.  It starts as the buffer and holds bytes
    throughout.  A background pixel gets the sentinel and leaves the copy
    as it is.  Any other pixel gets the palette colour nearest to its
    bytes in the copy as it then is, and for each colour channel the
    difference between the byte and the palette channel is added in the
    proportions 7/16, 3/16, 5/16 and 1/16 to the right, below-left, below
    and below-right neighbours that lie in the buffer, all of them pixels
    still to come; each sum is rounded to the nearest integer (a half to
    the even one) and clamped to [0, 255] when it is stored, and the byte
    stored is what the later pixel is compared by.  No other byte of the
    copy changes. *)
Theorem dithering_pass_diffuses (palette : list string) (width height : nat)
    (removeBackground : bool) (transparentPixels : gset nat)
    (data : list Z) :
  length data = (4 * (width * height))%nat →
  Forall (λ v, 0 <= v <= 255) data →
  palette ≠ [] → Forall (λ c, isHexColor c = true) palette →
  ∃ (copy : nat → list Z) (colorGrid : list (list string)),
    quantize palette width height removeBackground transparentPixels true data
    = Ok colorGrid
    ∧ copy 0%nat = data
    ∧ (∀ k, (k ≤ width * height)%nat →
         length (copy k) = length data
         ∧ Forall (λ v, 0 <= v <= 255) (copy k))
    ∧ ∀ x y, (x < width)%nat → (y < height)%nat →
        let k := (y * width + x)%nat in
        let r := channelAt (copy k) width x y 0 in
        let g := channelAt (copy k) width x y 1 in
        let b := channelAt (copy k) width x y 2 in
        if isBackgroundColor removeBackground transparentPixels width x y
        then cellAt colorGrid x y = Some transparent ∧ copy (S k) = copy k
        else
          ∃ color cr cg cb,
            findClosestColor r g b palette = Some color
            ∧ parseColor color = (Some cr, Some cg, Some cb)
            ∧ cellAt colorGrid x y = Some color
            ∧ (∀ x' y' c,
                 (x' < width)%nat → (y' < height)%nat → (c < 4)%nat →
                 channelAt (copy (S k)) width x' y' c
                 = if decide ((c < 3)%nat ∧ kernelWeight x y x' y' ≠ 0)
                   then toUint8Clamp16
                          (16 * channelAt (copy k) width x' y' c
                           + nth c [r - cr; g - cg; b - cb] 0
                             * kernelWeight x y x' y')
                   else channelAt (copy k) width x' y' c)
            ∧ ∀ x' y', (x' < width)%nat → kernelWeight x y x' y' ≠ 0 →
                (k < y' * width + x')%nat.
Proof.
  intros Hlen Hbytes Hne Hhex.
  set (body := ditherPixel palette width height removeBackground
                 transparentPixels).
  set (next := λ (pixels : list Z) (k : nat),
         match body (pixels, pixels) (k mod width)%nat (k / width)%nat with
         | Ok (pixels', _, _) => pixels'
         | Throw _ => pixels
         end).
  set (copy := fix copy (k : nat) : list Z :=
         match k with
         | O => data
         | S k' => next (copy k') k'
         end).
  set (cell := λ x y : nat,
         match body (copy (y * width + x)%nat, copy (y * width + x)%nat) x y
         with
         | Ok (_, _, c) => c
         | Throw _ => transparent
         end).
  assert (Hcopy : ∀ k, length (copy k) = length data
                       ∧ Forall (λ v, 0 <= v <= 255) (copy k)).
  { induction k as [|k [IHl IHb]]; [done|].
    change (copy (S k)) with (next (copy k) k). unfold next.
    destruct (body _ _ _) as [[[pixels' data'] c]|e] eqn:Hb; [|done].
    apply ditherPixel_bytes in Hb as [Hl Hf]. split; [congruence|auto]. }
  assert (Hstep : ∀ x y pixels' data' c, (x < width)%nat →
            body (copy (y * width + x)%nat, copy (y * width + x)%nat) x y
            = Ok (pixels', data', c) →
            cell x y = c ∧ copy (S (y * width + x)) = pixels').
  { intros x y pixels' data' c Hx Hb. split.
    - unfold cell. by rewrite Hb.
    - change (copy (S (y * width + x))) with
        (next (copy (y * width + x)%nat) (y * width + x)%nat).
      unfold next. destruct (raster_coordinates width x y Hx) as [-> ->].
      by rewrite Hb. }
  destruct (gridLoop_spec body (λ k st, st.1 = copy k) cell width height
              0%nat (data, data) []) as (st' & Hloop & _).
  { intros [pixels d] x y Hx Hy Hinv. simpl in Hinv. subst pixels.
    destruct (ditherPixel_total palette width height removeBackground
                transparentPixels (copy (y * width + x)%nat, d) x y Hne)
      as [[[pixels' d'] c] Hb].
    destruct (ditherPixel_copy _ _ _ _ _ _ _ (copy (y * width + x)%nat)
                _ _ _ _ _ Hb) as [d0' Hb0].
    destruct (Hstep x y pixels' d0' c Hx Hb0) as [-> ->].
    exists (pixels', d'). by split. }
  { done. }
  exists copy, ((λ y, (λ x, cell x y) <$> seq 0 width) <$> seq 0 height).
  split_and!.
  - unfold quantize. fold body. by rewrite Hloop.
  - done.
  - intros k _. apply Hcopy.
  - intros x y Hx Hy. cbv zeta.
    destruct (Hcopy (y * width + x)%nat) as [Hl Hb].
    destruct (ditherPixel_step palette width height removeBackground
                transparentPixels (copy (y * width + x)%nat)
                (copy (y * width + x)%nat) x y)
      as [Hbg Hfg]; [congruence|done..|].
    rewrite cellAt_tabulate by done.
    destruct (isBackgroundColor _ _ _ _ _).
    + destruct (Hstep x y _ _ _ Hx (Hbg eq_refl)) as [-> ->]. done.
    + destruct (Hfg eq_refl)
        as (color & cr & cg & cb & pixels' & data' & Hc & Hp & Hd & _ & _
            & Hch).
      destruct (Hstep x y _ _ _ Hx Hd) as [-> ->].
      exists color, cr, cg, cb. split_and!; [done|done|done|done|].
      intros x' y' Hx'. by apply kernelWeight_later.
Qed.

Lemma dithering_pass_diffuses_witness :
  length greyImage = (4 * (2 * 2))%nat
  ∧ Forall (λ v, 0 <= v <= 255) greyImage
  ∧ greyPalette ≠ [] ∧ Forall (λ c, isHexColor c = true) greyPalette
  ∧ ∃ (copy : nat → list Z) (colorGrid : list (list string)),
      quantize greyPalette 2 2 false ∅ true greyImage = Ok colorGrid
      ∧ copy 0%nat = greyImage
      ∧ (∀ k, (k ≤ 2 * 2)%nat →
           length (copy k) = length greyImage
           ∧ Forall (λ v, 0 <= v <= 255) (copy k))
      ∧ ∀ x y, (x < 2)%nat → (y < 2)%nat →
          let k := (y * 2 + x)%nat in
          let r := channelAt (copy k) 2 x y 0 in
          let g := channelAt (copy k) 2 x y 1 in
          let b := channelAt (copy k) 2 x y 2 in
          if isBackgroundColor false ∅ 2 x y
          then cellAt colorGrid x y = Some transparent ∧ copy (S k) = copy k
          else
            ∃ color cr cg cb,
              findClosestColor r g b greyPalette = Some color
              ∧ parseColor color = (Some cr, Some cg, Some cb)
              ∧ cellAt colorGrid x y = Some color
              ∧ (∀ x' y' c,
                   (x' < 2)%nat → (y' < 2)%nat → (c < 4)%nat →
                   channelAt (copy (S k)) 2 x' y' c
                   = if decide ((c < 3)%nat ∧ kernelWeight x y x' y' ≠ 0)
                     then toUint8Clamp16
                            (16 * channelAt (copy k) 2 x' y' c
                             + nth c [r - cr; g - cg; b - cb] 0
                               * kernelWeight x y x' y')
                     else channelAt (copy k) 2 x' y' c)
              ∧ ∀ x' y', (x' < 2)%nat → kernelWeight x y x' y' ≠ 0 →
                  (k < y' * 2 + x')%nat.
Proof.
  assert (Hb : Forall (λ v, 0 <= v <= 255) greyImage)
    by (repeat constructor; lia).
  assert (Hh : Forall (λ c, isHexColor c = true) greyPalette)
    by (repeat constructor).
  split; [reflexivity|]. split; [exact Hb|].
  split; [discriminate|]. split; [exact Hh|].
  apply (dithering_pass_diffuses greyPalette 2 2 false ∅ greyImage);
    [reflexivity|exact Hb|discriminate|exact Hh].
Defined.

End DitherPassFacts.

Module BackgroundFacts.
Import Palette ImageProcessor Inputs PaletteFacts ResamplerFacts.
Import FloodFillFacts QuantizerFacts FrequencyFacts MappingFacts.

Lemma isBackgroundColor_connected data width height t x y :
  (x < width)%nat → (y < height)%nat →
  isBackgroundColor true (backgroundPixels data width height true t) width x y
  = true
  ↔ borderConnected
      (λ i, similar data (backgroundColor data width height) t i = true)
      width height (x, y).
Proof.
  intros Hx Hy. unfold isBackgroundColor, backgroundPixels. simpl.
  rewrite bool_decide_eq_true.
  change (y * width + x)%nat with (pixelIndex width (x, y)).
  by rewrite floodFill_connected.
Qed.

Lemma borderConnected_mono (P Q : nat → Prop) width height p :
  (∀ i, P i → Q i) →
  borderConnected P width height p → borderConnected Q width height p.
Proof.
  intros HPQ [l Hl]. exists l. revert Hl. generalize (p :: l).
  induction 1; constructor; auto.
Qed.

Lemma withinThreshold_mono d2 t t' :
  t <= t' → withinThreshold d2 t = true → withinThreshold d2 t' = true.
Proof.
  unfold withinThreshold. intros Ht [H1 H2]%andb_prop.
  apply Z.ltb_lt in H1, H2. apply andb_true_intro.
  split; apply Z.ltb_lt; nia.
Qed.

(** X8.  A higher sensitivity removes at least as much.  With removal
    enabled, a pixel of the buffer that is background for a threshold is
    background for every greater threshold. *)
Theorem background_grows_with_threshold (data : list Z) (width height : nat)
    (t t' : Z) (x y : nat) :
  (x < width)%nat → (y < height)%nat → t <= t' →
  isBackgroundColor true (backgroundPixels data width height true t)
    width x y = true →
  isBackgroundColor true (backgroundPixels data width height true t')
    width x y = true.
Proof.
  intros Hx Hy Ht. rewrite !isBackgroundColor_connected by done.
  apply borderConnected_mono. intros i. unfold similar.
  by apply withinThreshold_mono.
Qed.

Lemma background_grows_with_threshold_witness :
  (0 < 5)%nat ∧ (0 < 5)%nat ∧ 30 <= 50
  ∧ isBackgroundColor true (backgroundPixels ringImage 5 5 true 30) 5 0 0
    = true
  ∧ isBackgroundColor true (backgroundPixels ringImage 5 5 true 50) 5 0 0
    = true.
Proof.
  assert (H : isBackgroundColor true (backgroundPixels ringImage 5 5 true 30)
                5 0 0 = true) by (vm_compute; reflexivity).
  split; [lia|]. split; [lia|]. split; [lia|]. split; [exact H|].
  apply (background_grows_with_threshold ringImage 5 5 30 50 0 0);
    [lia|lia|lia|exact H].
Defined.

(** The seed colour is the colour of one of the sample points. *)
Lemma seed_sampled data width height :
  ∃ x y, (x, y) ∈ samplePoints width height
    ∧ rgbAt data ((y * width + x) * 4) = backgroundColor data width height.
Proof.
  destruct (backgroundColor_first_most_frequent data width height)
    as (i & Hi & _).
  unfold sampleColors in Hi. rewrite list_lookup_fmap in Hi.
  destruct (samplePoints width height !! i) as [[x y]|] eqn:Hp; [|done].
  injection Hi as Hi. exists x, y. split; [|done].
  by eapply list_elem_of_lookup_2.
Qed.

Lemma similar_same data bg t i :
  1 <= t → rgbAt data (i * 4) = bg → similar data bg t i = true.
Proof.
  intros Ht <-. unfold similar, withinThreshold, diff2.
  destruct (rgbAt data (i * 4)) as [[r g] b].
  apply andb_true_intro. split; apply Z.ltb_lt; nia.
Qed.

Lemma seed_removed data width height t :
  (0 < width)%nat → (0 < height)%nat → 1 <= t →
  ∃ x y, (x, y) ∈ samplePoints width height
    ∧ (x < width)%nat ∧ (y < height)%nat
    ∧ rgbAt data ((y * width + x) * 4) = backgroundColor data width height
    ∧ isBackgroundColor true (backgroundPixels data width height true t)
        width x y = true.
Proof.
  intros Hw Hh Ht.
  destruct (seed_sampled data width height) as (x & y & Hin & Hrgb).
  pose proof (samplePoints_border width height Hw Hh) as Hb.
  rewrite Forall_forall in Hb. specialize (Hb _ Hin).
  destruct Hb as [[Hx Hy] Hedge]. simpl in Hx, Hy.
  exists x, y. split_and!; try done.
  apply isBackgroundColor_connected; [done|done|].
  exists []. apply chain_start; [done|].
  by apply similar_same.
Qed.

Lemma gridQuantized_cellAt palette w h rb tp grid x y :
  gridQuantized palette w h rb tp grid →
  (x < w)%nat → (y < h)%nat →
  ∃ c, cellAt grid x y = Some c ∧ cellQuantized palette w rb tp x y c.
Proof.
  intros [Hlen Hrows] Hx Hy. unfold cellAt.
  destruct (lookup_lt_is_Some_2 grid y) as [row Hrow]; [lia|].
  destruct (Hrows y row Hrow) as [Hl Hcells].
  destruct (lookup_lt_is_Some_2 row x) as [c Hc]; [lia|].
  exists c. rewrite Hrow. simpl. split; [done|]. by apply Hcells.
Qed.

(** What [processImage] resolves with, for a non-empty palette and a
    buffer that is not empty. *)
Lemma processImage_resolves img beadSize maxBeads palette showGrid dithering
    removeBackground backgroundThreshold w h :
  targetSize (imgWidth img) (imgHeight img) maxBeads = (w, h) →
  0 < w → 0 < h → palette ≠ [] →
  ∃ grid,
    quantize palette (Z.to_nat w) (Z.to_nat h) removeBackground
      (backgroundPixels (resampled img (Z.to_nat w) (Z.to_nat h))
         (Z.to_nat w) (Z.to_nat h) removeBackground backgroundThreshold)
      dithering (resampled img (Z.to_nat w) (Z.to_nat h)) = Ok grid
    ∧ processImage img beadSize maxBeads palette showGrid dithering
        removeBackground backgroundThreshold
      = Ok (Canvas (w * beadSize) (h * beadSize)
              ((if removeBackground
                then [ClearRect 0 0 (w * beadSize) (h * beadSize)]
                else [])
               ++ drawBeads grid (Z.to_nat w) (Z.to_nat h) beadSize showGrid),
            grid).
Proof.
  intros Hsize Hw Hh Hne. unfold processImage. rewrite Hsize.
  destruct (Z.leb_spec w 0); [lia|]. destruct (Z.leb_spec h 0); [lia|].
  simpl.
  destruct (quantize_total palette (Z.to_nat w) (Z.to_nat h) removeBackground
              (backgroundPixels (resampled img (Z.to_nat w) (Z.to_nat h))
                 (Z.to_nat w) (Z.to_nat h) removeBackground backgroundThreshold)
              dithering (resampled img (Z.to_nat w) (Z.to_nat h)) Hne)
    as [grid Hq].
  exists grid. split; [done|]. by rewrite Hq.
Qed.

(** X9.  Background removal always removes something.  When the buffer
    has at least one row and one column, with removal enabled, a threshold
    of at least 1 and a non-empty palette, [processImage] resolves with a
    grid in which at least one cell is the sentinel: the cell of a sample
    point at which the seed colour was read. *)
Theorem removal_takes_seed (img : image) (beadSize maxBeads : Z)
    (palette : list string) (showGrid dithering : bool)
    (backgroundThreshold : Z) (w h : Z) :
  targetSize (imgWidth img) (imgHeight img) maxBeads = (w, h) →
  0 < w → 0 < h → palette ≠ [] → 1 <= backgroundThreshold →
  ∃ pattern grid x y,
    processImage img beadSize maxBeads palette showGrid dithering true
      backgroundThreshold = Ok (pattern, grid)
    ∧ (x, y) ∈ samplePoints (Z.to_nat w) (Z.to_nat h)
    ∧ rgbAt (resampled img (Z.to_nat w) (Z.to_nat h))
        ((y * Z.to_nat w + x) * 4)
      = backgroundColor (resampled img (Z.to_nat w) (Z.to_nat h))
          (Z.to_nat w) (Z.to_nat h)
    ∧ cellAt grid x y = Some transparent.
Proof.
  intros Hsize Hw Hh Hne Ht.
  destruct (processImage_resolves img beadSize maxBeads palette showGrid
              dithering true backgroundThreshold w h Hsize Hw Hh Hne)
    as (grid & Hq & Hok).
  destruct (seed_removed (resampled img (Z.to_nat w) (Z.to_nat h))
              (Z.to_nat w) (Z.to_nat h) backgroundThreshold)
    as (x & y & Hin & Hx & Hy & Hrgb & Hbg); [lia|lia|done|].
  eexists _, grid, x, y. split_and!; try done.
  apply quantize_Ok in Hq.
  destruct (gridQuantized_cellAt _ _ _ _ _ _ x y Hq Hx Hy) as (c & -> & Hc).
  unfold cellQuantized in Hc. rewrite Hbg in Hc. by rewrite Hc.
Qed.

Lemma removal_takes_seed_witness :
  targetSize (imgWidth ringPhoto) (imgHeight ringPhoto) 29 = (5, 5)
  ∧ 0 < 5 ∧ 0 < 5 ∧ standard ≠ [] ∧ 1 <= 30
  ∧ ∃ pattern grid x y,
      processImage ringPhoto 10 29 standard true false true 30
      = Ok (pattern, grid)
      ∧ (x, y) ∈ samplePoints (Z.to_nat 5) (Z.to_nat 5)
      ∧ rgbAt (resampled ringPhoto (Z.to_nat 5) (Z.to_nat 5))
          ((y * Z.to_nat 5 + x) * 4)
        = backgroundColor (resampled ringPhoto (Z.to_nat 5) (Z.to_nat 5))
            (Z.to_nat 5) (Z.to_nat 5)
      ∧ cellAt grid x y = Some transparent.
Proof.
  split; [reflexivity|]. split; [lia|]. split; [lia|].
  split; [discriminate|]. split; [lia|].
  apply (removal_takes_seed ringPhoto 10 29 standard true false 30 5 5);
    [reflexivity|lia|lia|discriminate|lia].
Defined.

(** Every pixel of a column is joined to the border through the pixels
    above it. *)
Lemma column_connected (P : nat → Prop) width height x y :
  (∀ p, inGrid width height p → P (pixelIndex width p)) →
  (x < width)%nat → (y < height)%nat →
  borderConnected P width height (x, y).
Proof.
  intros HP Hx. induction y as [|y IH]; intros Hy.
  - exists []. apply chain_start.
    + split; [done|]. simpl. lia.
    + by apply HP.
  - destruct IH as [l Hl]; [lia|].
    exists ((x, y) :: l). apply chain_extend; [done|done| |by apply HP].
    left. simpl. lia.
Qed.

Lemma uniform_all_background data width height t c x y :
  (∀ i, (i < width * height)%nat → rgbAt data (i * 4) = c) →
  1 <= t → (x < width)%nat → (y < height)%nat →
  isBackgroundColor true (backgroundPixels data width height true t)
    width x y = true.
Proof.
  intros Hc Ht Hx Hy.
  assert (Hbg : backgroundColor data width height = c).
  { destruct (seed_sampled data width height) as (sx & sy & Hin & <-).
    pose proof (samplePoints_border width height ltac:(lia) ltac:(lia)) as Hb.
    rewrite Forall_forall in Hb. destruct (Hb _ Hin) as [Hg _].
    apply Hc. by apply (pixelIndex_lt width height (sx, sy)). }
  apply isBackgroundColor_connected; [done|done|].
  apply column_connected; [|done|done].
  intros p Hp. apply similar_same; [done|]. rewrite Hbg. apply Hc.
  by apply pixelIndex_lt.
Qed.

Lemma quantize_all_background palette width height tp dithering data :
  (∀ x y, (x < width)%nat → (y < height)%nat →
     isBackgroundColor true tp width x y = true) →
  quantize palette width height true tp dithering data
  = Ok (replicate height (replicate width transparent)).
Proof.
  intros Hbg. rewrite <- (tabulate_const transparent width 0 height).
  unfold quantize. destruct dithering.
  - destruct (gridLoop_spec (ditherPixel palette width height true tp)
                (λ _ _, True) (λ _ _, transparent) width height 0%nat
                (data, data) [])
      as (st' & -> & _); [| |done].
    + intros [pixels data'] x y Hx Hy _. unfold ditherPixel.
      destruct (rgbAt pixels _) as [[r g] b].
      rewrite Hbg by (done || lia). by eexists.
    + done.
  - destruct (gridLoop_spec (mapPixel palette width true tp)
                (λ _ _, True) (λ _ _, transparent) width height 0%nat
                data [])
      as (st' & -> & _); [| |done].
    + intros data' x y Hx Hy _. unfold mapPixel.
      destruct (rgbAt data' _) as [[r g] b].
      rewrite Hbg by (done || lia). by eexists.
    + done.
Qed.

Lemma flat_map_nil {A B} (f : A → list B) l :
  (∀ a, a ∈ l → f a = []) → flat_map f l = [].
Proof.
  induction l as [|a l IH]; intros H; simpl; [done|].
  rewrite (H a) by by left. apply IH. intros b Hb. apply H. by right.
Qed.

Lemma drawBeads_all_transparent width height beadSize showGrid :
  drawBeads (replicate height (replicate width transparent))
    width height beadSize showGrid = [].
Proof.
  unfold drawBeads. apply flat_map_nil. intros y Hy%list_elem_of_In%in_seq.
  apply flat_map_nil. intros x Hx%list_elem_of_In%in_seq.
  rewrite lookup_replicate_2 by lia. simpl.
  rewrite lookup_replicate_2 by lia. unfold drawBead.
  by rewrite decide_True.
Qed.

(** X10.  An image of one colour.  With removal enabled and a threshold of
    at least 1, a buffer whose pixels all have the same colour gives a
    grid of sentinels only and a pattern on which nothing is drawn after
    it is cleared; the palette is never searched, so this holds for the
    empty palette too. *)
Theorem uniform_image_removed (img : image) (beadSize maxBeads : Z)
    (palette : list string) (showGrid dithering : bool)
    (backgroundThreshold : Z) (w h : Z) (c : Z * Z * Z) :
  targetSize (imgWidth img) (imgHeight img) maxBeads = (w, h) →
  0 < w → 0 < h → 1 <= backgroundThreshold →
  (∀ i, (i < Z.to_nat w * Z.to_nat h)%nat →
     rgbAt (resampled img (Z.to_nat w) (Z.to_nat h)) (i * 4) = c) →
  processImage img beadSize maxBeads palette showGrid dithering true
    backgroundThreshold
  = Ok (Canvas (w * beadSize) (h * beadSize)
          [ClearRect 0 0 (w * beadSize) (h * beadSize)],
        replicate (Z.to_nat h) (replicate (Z.to_nat w) transparent)).
Proof.
  intros Hsize Hw Hh Ht Hc. unfold processImage. rewrite Hsize.
  destruct (Z.leb_spec w 0); [lia|]. destruct (Z.leb_spec h 0); [lia|].
  cbn [orb].
  rewrite quantize_all_background.
  - cbn. by rewrite drawBeads_all_transparent.
  - intros x y Hx Hy. by eapply uniform_all_background.
Qed.

Lemma blackPixel_uniform i :
  (i < Z.to_nat 1 * Z.to_nat 1)%nat →
  rgbAt (resampled blackPixel (Z.to_nat 1) (Z.to_nat 1)) (i * 4) = (0, 0, 0).
Proof.
  intros Hi. assert (i = 0%nat) as -> by (simpl in Hi; lia). reflexivity.
Qed.

Lemma uniform_image_removed_witness :
  targetSize (imgWidth blackPixel) (imgHeight blackPixel) 29 = (1, 1)
  ∧ 0 < 1 ∧ 0 < 1 ∧ 1 <= 30
  ∧ (∀ i, (i < Z.to_nat 1 * Z.to_nat 1)%nat →
       rgbAt (resampled blackPixel (Z.to_nat 1) (Z.to_nat 1)) (i * 4)
       = (0, 0, 0))
  ∧ processImage blackPixel 10 29 [] true false true 30
    = Ok (Canvas (1 * 10) (1 * 10) [ClearRect 0 0 (1 * 10) (1 * 10)],
          replicate (Z.to_nat 1) (replicate (Z.to_nat 1) transparent)).
Proof.
  split; [reflexivity|]. split; [lia|]. split; [lia|]. split; [lia|].
  split; [exact blackPixel_uniform|].
  apply (uniform_image_removed blackPixel 10 29 [] true false 30 1 1 (0, 0, 0));
    [reflexivity|lia|lia|lia|exact blackPixel_uniform].
Defined.

(** X11.  Which images [processImage] accepts.  For a non-empty palette
    and whatever the other settings: an image whose longer side is less
    than [2 * maxBeads] times its shorter side gives a buffer with at
    least one row and one column, and [processImage] resolves with a grid
    and a pattern of that size; an image whose longer side is more than
    [2 * maxBeads] times the shorter gives a buffer without rows or
    without columns, and [processImage] rejects with the [IndexSizeError]
    of [getImageData]. *)
Theorem processImage_by_aspect_ratio (img : image) (beadSize maxBeads : Z)
    (palette : list string) (showGrid dithering removeBackground : bool)
    (backgroundThreshold : Z) :
  0 < imgWidth img → 0 < imgHeight img → 0 < maxBeads → palette ≠ [] →
  (imgWidth img < 2 * imgHeight img * maxBeads →
   imgHeight img < 2 * imgWidth img * maxBeads →
   ∃ w h pattern grid,
     targetSize (imgWidth img) (imgHeight img) maxBeads = (w, h)
     ∧ 0 < w ∧ 0 < h
     ∧ processImage img beadSize maxBeads palette showGrid dithering
         removeBackground backgroundThreshold = Ok (pattern, grid)
     ∧ canvasWidth pattern = w * beadSize
     ∧ canvasHeight pattern = h * beadSize
     ∧ length grid = Z.to_nat h
     ∧ ∀ row, row ∈ grid → length row = Z.to_nat w)
  ∧ (2 * imgHeight img * maxBeads < imgWidth img
     ∨ 2 * imgWidth img * maxBeads < imgHeight img →
     processImage img beadSize maxBeads palette showGrid dithering
       removeBackground backgroundThreshold = Throw IndexSizeError).
Proof.
  intros Hiw Hih Hm Hne. split.
  - intros H1 H2.
    destruct (targetSize (imgWidth img) (imgHeight img) maxBeads)
      as [w h] eqn:Hsize.
    assert (0 < w ∧ 0 < h) as [Hw Hh].
    { unfold targetSize in Hsize.
      destruct (Z.ltb_spec (imgHeight img) (imgWidth img)).
      - destruct (Z.ltb_spec maxBeads (imgWidth img)).
        + injection Hsize as <- <-. split; [done|].
          pose proof (scaledAxis_pos (imgHeight img) maxBeads (imgWidth img)
                        ltac:(lia) ltac:(nia) ltac:(lia)).
          lia.
        + injection Hsize as <- <-. done.
      - destruct (Z.ltb_spec maxBeads (imgHeight img)).
        + injection Hsize as <- <-. split; [|done].
          pose proof (scaledAxis_pos (imgWidth img) maxBeads (imgHeight img)
                        ltac:(lia) ltac:(nia) ltac:(lia)).
          lia.
        + injection Hsize as <- <-. done. }
    destruct (processImage_resolves img beadSize maxBeads palette showGrid
                dithering removeBackground backgroundThreshold w h Hsize Hw Hh
                Hne) as (grid & Hq & Hok).
    apply quantize_Ok in Hq. destruct Hq as [Hlen Hrows].
    eexists w, h, _, grid. split_and!; try done.
    intros row [y Hy]%list_elem_of_lookup. by destruct (Hrows y row Hy).
  - intros Hthin. unfold processImage, targetSize.
    destruct Hthin as [Hthin|Hthin].
    + destruct (Z.ltb_spec (imgHeight img) (imgWidth img)); [|nia].
      destruct (Z.ltb_spec maxBeads (imgWidth img)); [|nia].
      assert (scaledAxis (imgHeight img) maxBeads (imgWidth img) = 0) as ->.
      { apply scaledAxis_zero; nia. }
      by rewrite orb_true_r.
    + destruct (Z.ltb_spec (imgHeight img) (imgWidth img)); [nia|].
      destruct (Z.ltb_spec maxBeads (imgHeight img)); [|nia].
      assert (scaledAxis (imgWidth img) maxBeads (imgHeight img) = 0) as ->.
      { apply scaledAxis_zero; nia. }
      done.
Qed.

Lemma processImage_by_aspect_ratio_witness :
  0 < imgWidth ringPhoto ∧ 0 < imgHeight ringPhoto ∧ 0 < 29 ∧ standard ≠ []
  ∧ (imgWidth ringPhoto < 2 * imgHeight ringPhoto * 29 →
     imgHeight ringPhoto < 2 * imgWidth ringPhoto * 29 →
     ∃ w h pattern grid,
       targetSize (imgWidth ringPhoto) (imgHeight ringPhoto) 29 = (w, h)
       ∧ 0 < w ∧ 0 < h
       ∧ processImage ringPhoto 10 29 standard true false true 30
         = Ok (pattern, grid)
       ∧ canvasWidth pattern = w * 10
       ∧ canvasHeight pattern = h * 10
       ∧ length grid = Z.to_nat h
       ∧ ∀ row, row ∈ grid → length row = Z.to_nat w)
  ∧ (2 * imgHeight ringPhoto * 29 < imgWidth ringPhoto
     ∨ 2 * imgWidth ringPhoto * 29 < imgHeight ringPhoto →
     processImage ringPhoto 10 29 standard true false true 30
     = Throw IndexSizeError).
Proof.
  split; [simpl; lia|]. split; [simpl; lia|]. split; [lia|].
  split; [discriminate|].
  apply (processImage_by_aspect_ratio ringPhoto 10 29 standard true false true
           30); [simpl; lia|simpl; lia|lia|discriminate].
Defined.

End BackgroundFacts.

Module DrawingFacts.
Import Palette ImageProcessor App Inputs AppFacts.

Lemma flat_map_ext_elem {A B} (f g : A → list B) l :
  (∀ a, a ∈ l → f a = g a) → flat_map f l = flat_map g l.
Proof.
  induction l as [|a l IH]; intros H; simpl; [done|].
  rewrite (H a) by by left. f_equal. apply IH. intros b Hb. apply H. by right.
Qed.

Lemma sum_list_append l1 l2 :
  sum_list (l1 ++ l2) = (sum_list l1 + sum_list l2)%nat.
Proof. induction l1 as [|n l1 IH]; simpl; [done|]. rewrite IH. lia. Qed.

Lemma countOps_app P ops1 ops2 :
  countOps P (ops1 ++ ops2) = (countOps P ops1 + countOps P ops2)%nat.
Proof. unfold countOps. by rewrite filter_app, length_app. Qed.

Lemma countOps_cons P op ops :
  countOps P (op :: ops)
  = ((if P op then 1 else 0) + countOps P ops)%nat.
Proof.
  unfold countOps. rewrite filter_cons.
  destruct (decide (P op = true)) as [E|E].
  - by rewrite E.
  - by destruct (P op).
Qed.

(** Counting over a loop that reads the elements of a list by index. *)
Lemma countOps_flat_map_lookup {A} (P : drawOp → bool)
    (g : option A → nat → list drawOp) (v : A → nat) (l : list A) :
  ∀ start,
  (∀ x a, a ∈ l → countOps P (g (Some a) x) = v a) →
  countOps P (flat_map (λ x, g (l !! (x - start)%nat) x)
                (seq start (length l)))
  = sum_list (v <$> l).
Proof.
  induction l as [|a l IH]; intros start Hg; [done|].
  cbn [length seq flat_map fmap list_fmap sum_list sum_list_with].
  rewrite countOps_app, Nat.sub_diag. simpl.
  rewrite Hg by by left. f_equal.
  rewrite <- (IH (S start)).
  - f_equal. apply flat_map_ext_elem. intros x Hx%list_elem_of_In%in_seq.
    replace (x - start)%nat with (S (x - S start)) by lia. done.
  - intros x b Hb. apply Hg. by right.
Qed.

Lemma countOps_drawBeads P (v : string → nat) grid width beadSize showGrid :
  (∀ row, row ∈ grid → length row = width) →
  (∀ a x y, countOps P (drawBead (Some a) x y beadSize showGrid) = v a) →
  countOps P (drawBeads grid width (length grid) beadSize showGrid)
  = sum_list (v <$> concat grid).
Proof.
  intros Hshape Hv. unfold drawBeads.
  trans (sum_list ((λ row, sum_list (v <$> row)) <$> grid)).
  - etrans;
      [|apply (countOps_flat_map_lookup P
                 (λ orow y,
                    flat_map
                      (λ x, drawBead (orow ≫= (.!! x)) x y beadSize showGrid)
                      (seq 0 width))
                 (λ row, sum_list (v <$> row)) grid 0%nat)].
    + f_equal. apply flat_map_ext. intros y. by rewrite Nat.sub_0_r.
    + intros y row Hrow. rewrite <- (Hshape row Hrow). simpl.
      etrans;
        [|apply (countOps_flat_map_lookup P
                   (λ c x, drawBead c x y beadSize showGrid) v row 0%nat)].
      * f_equal. apply flat_map_ext. intros x. by rewrite Nat.sub_0_r.
      * intros x a _. apply Hv.
  - clear Hshape. induction grid as [|row grid IH]; [done|].
    rewrite fmap_cons. cbn [concat].
    by rewrite fmap_app, sum_list_append, <- IH.
Qed.

Lemma sum_list_indicator {A} (Q : A → Prop) `{∀ a, Decision (Q a)}
    (l : list A) :
  sum_list ((λ a, if decide (Q a) then 1%nat else 0%nat) <$> l)
  = length (filter Q l).
Proof.
  induction l as [|a l IH]; [done|]. rewrite fmap_cons, filter_cons. simpl.
  destruct (decide (Q a)); simpl; by rewrite IH.
Qed.

Lemma drawBead_fills_of c a x y beadSize showGrid :
  c ≠ transparent →
  countOps (isFillOf c) (drawBead (Some a) x y beadSize showGrid)
  = if decide (a = c) then 1%nat else 0%nat.
Proof.
  intros Hc. unfold drawBead.
  destruct (decide (Some a = Some transparent)) as [[= ->]|Hne].
  - by rewrite decide_False.
  - rewrite countOps_cons. simpl.
    assert (countOps (isFillOf c)
              (if showGrid
               then [StrokeRect (Z.of_nat x * beadSize) (Z.of_nat y * beadSize)
                       beadSize beadSize]
               else []) = 0%nat) as -> by by destruct showGrid.
    case_bool_decide; [by rewrite decide_True|by rewrite decide_False].
Qed.

Lemma drawBead_fills a x y beadSize showGrid :
  countOps isFill (drawBead (Some a) x y beadSize showGrid)
  = if decide (a ≠ transparent) then 1%nat else 0%nat.
Proof.
  unfold drawBead.
  destruct (decide (Some a = Some transparent)) as [[= ->]|Hne].
  - by rewrite decide_False by (by intros []).
  - rewrite countOps_cons. simpl. rewrite decide_True by congruence.
    by destruct showGrid.
Qed.

Lemma drawBead_strokes a x y beadSize showGrid :
  countOps isStroke (drawBead (Some a) x y beadSize showGrid)
  = if decide (a ≠ transparent ∧ showGrid = true) then 1%nat else 0%nat.
Proof.
  unfold drawBead.
  destruct (decide (Some a = Some transparent)) as [[= ->]|Hne].
  - by rewrite decide_False by (by intros [[] _]).
  - rewrite countOps_cons. simpl. destruct showGrid.
    + by rewrite decide_True by (split; congruence).
    + by rewrite decide_False by (by intros [_ ?]).
Qed.

(** The squares and the grid lines that the drawing loop makes, counted. *)
Lemma drawBeads_counts grid width beadSize showGrid :
  (∀ row, row ∈ grid → length row = width) →
  (∀ c, c ≠ transparent →
     countOps (isFillOf c)
       (drawBeads grid width (length grid) beadSize showGrid)
     = beadCount c grid)
  ∧ countOps isFill (drawBeads grid width (length grid) beadSize showGrid)
    = length (beads grid)
  ∧ countOps isStroke (drawBeads grid width (length grid) beadSize showGrid)
    = if showGrid then length (beads grid) else 0%nat.
Proof.
  intros Hshape. split_and!.
  - intros c Hc.
    rewrite (countOps_drawBeads _ (λ a, if decide (a = c) then 1 else 0)%nat)
      by (done || intros; by apply drawBead_fills_of).
    apply (sum_list_indicator (λ a, a = c)).
  - rewrite (countOps_drawBeads _
               (λ a, if decide (a ≠ transparent) then 1 else 0)%nat)
      by (done || intros; by apply drawBead_fills).
    apply (sum_list_indicator (λ a, a ≠ transparent)).
  - rewrite (countOps_drawBeads _
               (λ a, if decide (a ≠ transparent ∧ showGrid = true)
                     then 1 else 0)%nat)
      by (done || intros; by apply drawBead_strokes).
    rewrite (sum_list_indicator (λ a, a ≠ transparent ∧ showGrid = true)).
    unfold beads. destruct showGrid.
    + f_equal. apply list_filter_iff. intros a. split; [by intros [? _]|done].
    + induction (concat grid) as [|a l IH]; [done|].
      rewrite filter_cons. by rewrite decide_False by (by intros [_ ?]).
Qed.

Lemma elem_of_drawBeads op grid width height beadSize showGrid :
  op ∈ drawBeads grid width height beadSize showGrid →
  ∃ x y, (x < width)%nat ∧ (y < height)%nat
    ∧ cellAt grid x y ≠ Some transparent
    ∧ (op = FillRect (cellAt grid x y)
              (Z.of_nat x * beadSize) (Z.of_nat y * beadSize)
              beadSize beadSize
       ∨ (showGrid = true
          ∧ op = StrokeRect (Z.of_nat x * beadSize) (Z.of_nat y * beadSize)
                   beadSize beadSize)).
Proof.
  unfold drawBeads.
  intros (y & Hy%in_seq & (x & Hx%in_seq & Hop)%in_flat_map)
    %list_elem_of_In%in_flat_map.
  exists x, y. fold (cellAt grid x y) in Hop.
  unfold drawBead in Hop. destruct (decide _) as [|Hne]; [done|].
  split_and!; [lia|lia|done|].
  destruct Hop as [<-|Hop]; [by left|].
  destruct showGrid; [|done]. destruct Hop as [<-|[]]. by right.
Qed.

(** X12.  The drawing loop.  For a grid whose rows all have [width] cells,
    every call made by the loop that draws the beads is a [fillRect] with
    the colour of a cell that holds a colour, on the square of that cell,
    or, when grid lines are shown, a [strokeRect] on such a square; nothing
    is drawn for a cell that holds the sentinel.  The squares filled with
    a colour are as many as the cells that hold it, the squares filled in
    all as many as the beads, and the grid lines as many as the beads when
    they are shown, none otherwise. *)
Theorem drawBeads_paints_each_bead (grid : list (list string))
    (width : nat) (beadSize : Z) (showGrid : bool) :
  (∀ row, row ∈ grid → length row = width) →
  let ops := drawBeads grid width (length grid) beadSize showGrid in
  (∀ c, c ≠ transparent → countOps (isFillOf c) ops = beadCount c grid)
  ∧ countOps isFill ops = length (beads grid)
  ∧ countOps isStroke ops = (if showGrid then length (beads grid) else 0%nat)
  ∧ ∀ op, op ∈ ops →
      ∃ x y c, (x < width)%nat ∧ (y < length grid)%nat
        ∧ cellAt grid x y = Some c ∧ c ≠ transparent
        ∧ (op = FillRect (Some c)
                  (Z.of_nat x * beadSize) (Z.of_nat y * beadSize)
                  beadSize beadSize
           ∨ (showGrid = true
              ∧ op = StrokeRect (Z.of_nat x * beadSize) (Z.of_nat y * beadSize)
                       beadSize beadSize)).
Proof.
  intros Hshape ops.
  destruct (drawBeads_counts grid width beadSize showGrid Hshape)
    as (H1 & H2 & H3).
  split_and!; [done..|].
  intros op Hop.
  destruct (elem_of_drawBeads _ _ _ _ _ _ Hop)
    as (x & y & Hx & Hy & Hne & Hops).
  assert (Hc : is_Some (cellAt grid x y)).
  { unfold cellAt.
    destruct (lookup_lt_is_Some_2 grid y Hy) as [row Hrow]. rewrite Hrow.
    simpl. apply lookup_lt_is_Some_2.
    rewrite (Hshape row); [done|]. by eapply list_elem_of_lookup_2. }
  destruct Hc as [c Hc]. exists x, y, c. rewrite Hc in Hne, Hops.
  split_and!; try done. congruence.
Qed.

Lemma twoCells_rows row :
  row ∈ [["#000000"; "transparent"]]%string → length row = 2%nat.
Proof. by intros ->%list_elem_of_singleton. Qed.

Lemma drawBeads_paints_each_bead_witness :
  (∀ row, row ∈ [["#000000"; "transparent"]]%string → length row = 2%nat)
  ∧ let ops :=
      drawBeads [["#000000"; "transparent"]]%string 2
        (length [["#000000"; "transparent"]]%string) 10 true in
    (∀ c, c ≠ transparent →
       countOps (isFillOf c) ops
       = beadCount c [["#000000"; "transparent"]]%string)
    ∧ countOps isFill ops = length (beads [["#000000"; "transparent"]]%string)
    ∧ countOps isStroke ops
      = (if true then length (beads [["#000000"; "transparent"]]%string)
         else 0%nat)
    ∧ ∀ op, op ∈ ops →
        ∃ x y c, (x < 2)%nat
          ∧ (y < length [["#000000"; "transparent"]]%string)%nat
          ∧ cellAt [["#000000"; "transparent"]]%string x y = Some c
          ∧ c ≠ transparent
          ∧ (op = FillRect (Some c) (Z.of_nat x * 10) (Z.of_nat y * 10) 10 10
             ∨ (true = true
                ∧ op = StrokeRect (Z.of_nat x * 10) (Z.of_nat y * 10) 10 10)).
Proof.
  split; [exact twoCells_rows|].
  exact (drawBeads_paints_each_bead [["#000000"; "transparent"]]%string 2 10
           true twoCells_rows).
Defined.

End DrawingFacts.

Module CountFacts.
Import Palette ImageProcessor App Inputs QuantizerFacts AppFacts DrawingFacts.

Lemma totalCount_insert (counts : gmap string nat) c n :
  totalCount (<[c := n]> counts)
  = (totalCount counts - default 0 (counts !! c) + n)%nat.
Proof.
  unfold totalCount.
  assert (Hcomm : ∀ (m : gmap string nat) (j1 j2 : string) (z1 z2 y : nat),
    j1 ≠ j2 → m !! j1 = Some z1 → m !! j2 = Some z2 →
    (y + z2 + z1 = y + z1 + z2)%nat) by (intros; lia).
  destruct (counts !! c) as [k|] eqn:Hc; simpl.
  - rewrite <- insert_delete_eq.
    rewrite map_fold_insert_L; [|by eauto|by rewrite lookup_delete_eq].
    rewrite (map_fold_delete_L _ _ c k counts); [|by eauto|done]. lia.
  - rewrite map_fold_insert_L; [|by eauto|done]. lia.
Qed.

Lemma totalCount_countCell counts c :
  totalCount (countCell counts c)
  = (totalCount counts + if decide (c ≠ transparent) then 1 else 0)%nat.
Proof.
  unfold countCell. destruct (decide (c = transparent)).
  - rewrite decide_False by (by intros []). lia.
  - rewrite decide_True by done. rewrite totalCount_insert.
    destruct (counts !! c) as [k|] eqn:Hc; simpl; [|lia].
    assert (k ≤ totalCount counts)%nat; [|lia].
    unfold totalCount.
    rewrite (map_fold_delete_L _ _ c k counts); [lia| |done]. intros; lia.
Qed.

(** The counts add up to the number of the beads. *)
Lemma totalCount_countColors grid :
  totalCount (countColors grid) = length (beads grid).
Proof.
  rewrite countColors_concat. unfold beads.
  assert (H : ∀ l counts,
    totalCount (foldl countCell counts l)
    = (totalCount counts + length (filter (λ c, c ≠ transparent) l))%nat).
  { induction l as [|c l IH]; intros counts; simpl; [lia|].
    rewrite IH, totalCount_countCell, filter_cons.
    destruct (decide (c ≠ transparent)); simpl; lia. }
  rewrite H. unfold totalCount. by rewrite map_fold_empty.
Qed.

Lemma patternOf_counts grid p :
  patternOf grid p →
  (∀ c, c ≠ transparent →
     countOps (isFillOf c) (drawn p) = default 0%nat (countColors grid !! c))
  ∧ countColors grid !! transparent = None
  ∧ countOps isFill (drawn p) = totalCount (countColors grid).
Proof.
  intros (width & beadSize & showGrid & cleared & Hshape & Hcl & ->).
  destruct (drawBeads_counts grid width beadSize showGrid Hshape)
    as (H1 & H2 & _).
  assert (Hc : ∀ P, (∀ x y w h, P (ClearRect x y w h) = false) →
            countOps P cleared = 0%nat).
  { intros P HP. destruct Hcl as [->|(w & h & ->)]; [done|].
    by rewrite countOps_cons, HP. }
  split_and!.
  - intros c Hne. rewrite countOps_app, Hc, H1 by done.
    rewrite countColors_lookup.
    destruct (decide _) as [|Hn]; [done|]. simpl.
    destruct (beadCount c grid); [done|]. exfalso. apply Hn. split; [done|lia].
  - rewrite countColors_lookup. by rewrite decide_False by (by intros [[] _]).
  - rewrite countOps_app, Hc, H2 by done. by rewrite totalCount_countColors.
Qed.

Lemma processImage_pattern img beadSize maxBeads palette showGrid dithering
    removeBackground backgroundThreshold pattern grid :
  processImage img beadSize maxBeads palette showGrid dithering
    removeBackground backgroundThreshold = Ok (pattern, grid) →
  patternOf grid pattern.
Proof.
  unfold processImage.
  destruct (targetSize _ _ _) as [w h].
  destruct (Z.leb_spec w 0); [done|]. destruct (Z.leb_spec h 0); [done|].
  simpl. destruct (quantize _ _ _ _ _ _ _) as [g|e] eqn:Hq; [|done].
  simpl. intros [= <- <-]. apply quantize_Ok in Hq as [Hlen Hrows].
  exists (Z.to_nat w), beadSize, showGrid,
    (if removeBackground
     then [ClearRect 0 0 (w * beadSize) (h * beadSize)] else []).
  split_and!.
  - intros row [y Hy]%list_elem_of_lookup. by destruct (Hrows y row Hy).
  - destruct removeBackground; [right|left]; eauto.
  - simpl. by rewrite Hlen.
Qed.

(** The rows of the edit buffer all have the length of the first. *)
Lemma edited_rows s row :
  wellFormed s → row ∈ contents (heap s) (editedBeadColors s) →
  length row
  = length (default [] (head (contents (heap s) (editedBeadColors s)))).
Proof.
  intros Hwf.
  set (edited := contents (heap s) (editedBeadColors s)).
  set (generated := contents (heap s) (beadColors s)).
  assert (Hshape : length <$> edited = length <$> generated)
    by apply (wf_shape s Hwf).
  assert (Hrows : ∀ i r, edited !! i = Some r →
            length r = length (default [] (head generated))).
  { intros i r Hr.
    assert (Hl : (length <$> generated) !! i = Some (length r))
      by (rewrite <- Hshape, list_lookup_fmap, Hr; done).
    rewrite list_lookup_fmap in Hl.
    destruct (generated !! i) as [r'|] eqn:Hr'; [|done].
    injection Hl as <-. apply (wf_rectangular s Hwf).
    by eapply list_elem_of_lookup_2. }
  intros [i Hi]%list_elem_of_lookup.
  rewrite (Hrows i row Hi).
  destruct edited as [|row0 rest] eqn:He; [done|].
  by rewrite <- (Hrows 0%nat row0 eq_refl).
Qed.

Lemma patternCounted_generateEditedPattern s :
  wellFormed s → patternCounted s → patternCounted (generateEditedPattern s).
Proof.
  intros Hwf Hpc. unfold generateEditedPattern.
  destruct (_ || _); [done|].
  intros p [= <-]. eexists. split; [|done].
  eexists _, _, _, _. split_and!; [|right; eauto|simpl; reflexivity].
  intros row Hrow. by apply edited_rows.
Qed.

Lemma patternCounted_runProcessing s :
  patternCounted s → patternCounted (runProcessing s).
Proof.
  intros Hpc. unfold runProcessing.
  destruct (originalImage s) as [img|]; [|done].
  destruct (processImage _ _ _ _ _ _ _ _) as [[pattern grid]|e] eqn:Hp; [|done].
  unfold setGenerated. intros p. simpl. intros [= <-].
  exists grid. split; [|done]. by eapply processImage_pattern.
Qed.

Lemma patternCounted_handle e s :
  wellFormed s → patternCounted s → patternCounted (handle e s).
Proof.
  intros Hwf Hpc. destruct e; simpl.
  - by apply patternCounted_runProcessing.
  - destruct (decide _); [done|]. by apply patternCounted_runProcessing.
  - by destruct (_ && _).
  - by destruct (editingToolsShown s).
  - by destruct (_ && _).
  - destruct (handleCanvasDraw_state x y s) as [->| ->]; [done|].
    destruct (handlePatternEdit_frame x y s) as (_&_&_&Hp&_&_&Hc&_).
    unfold patternCounted. by rewrite Hp, Hc.
  - destruct (_ && _); [|done]. unfold applyEdits.
    by apply patternCounted_generateEditedPattern in Hpc.
  - destruct (isEditMode s); [|done]. unfold cancelEdits. done.
  - destruct (_ && _); [|done]. unfold handleDownload.
    destruct (_ && _); [|done]. by apply patternCounted_generateEditedPattern.
Qed.

Lemma reachable_patternCounted s : reachable s → patternCounted s.
Proof.
  intros [events ->].
  induction events as [|e events IH] using rev_ind; [done|].
  rewrite run_snoc. apply patternCounted_handle; [|done].
  apply wellFormed_run, wellFormed_initial.
Qed.

(** X13.  The counts shown are the counts of the pattern shown.  In every
    state the component can reach in which a pattern is shown: for every
    colour, the count shown for it (none standing for 0) is the number of
    squares filled with that colour on the pattern; the sentinel has no
    count; and the total shown is the number of squares filled. *)
Theorem counts_match_pattern (s : state) (p : canvas) :
  reachable s → beadPattern s = Some p →
  (∀ c, c ≠ transparent →
     countOps (isFillOf c) (drawn p) = default 0%nat (colorCounts s !! c))
  ∧ colorCounts s !! transparent = None
  ∧ countOps isFill (drawn p) = totalBeadCount s.
Proof.
  intros Hs Hp.
  destruct (reachable_patternCounted s Hs p Hp) as (grid & Hpat & Hc).
  unfold totalBeadCount. rewrite Hc. by apply patternOf_counts.
Qed.

Lemma counts_match_pattern_witness :
  reachable loadedBlack
  ∧ beadPattern loadedBlack
    = Some (Canvas 10 10 [FillRect (Some "#000000"%string) 0 0 10 10;
                          StrokeRect 0 0 10 10])
  ∧ (∀ c, c ≠ transparent →
       countOps (isFillOf c)
         [FillRect (Some "#000000"%string) 0 0 10 10; StrokeRect 0 0 10 10]
       = default 0%nat (colorCounts loadedBlack !! c))
  ∧ colorCounts loadedBlack !! transparent = None
  ∧ countOps isFill
      [FillRect (Some "#000000"%string) 0 0 10 10; StrokeRect 0 0 10 10]
    = totalBeadCount loadedBlack.
Proof.
  split; [exact loadedBlack_reachable|]. split; [reflexivity|].
  exact (counts_match_pattern loadedBlack
           (Canvas 10 10 [FillRect (Some "#000000"%string) 0 0 10 10;
                          StrokeRect 0 0 10 10])
           loadedBlack_reachable eq_refl).
Defined.

End CountFacts.

Module EditingFacts.
Import Palette ImageProcessor App Inputs AppFacts.

Lemma canvasMounted_editing s :
  wellFormed s → isEditMode s = true →
  canvasMounted s = true ∧ editedBeadColors s ≠ [].
Proof.
  intros Hwf Hm.
  pose proof (wf_edit_pattern s Hwf Hm) as Hp.
  pose proof (wf_pattern_image s Hwf Hp) as Hi.
  pose proof (wf_pattern_grid s Hwf Hp) as Hg.
  split; [|done]. unfold canvasMounted.
  by rewrite Hm, !bool_decide_eq_true_2.
Qed.

Lemma handleCanvasDraw_editing x y s :
  wellFormed s → isEditMode s = true →
  (handleCanvasDraw x y s).1 = handlePatternEdit x y s.
Proof.
  intros Hwf Hm. destruct (canvasMounted_editing s Hwf Hm) as [Hc Hne].
  unfold handleCanvasDraw. rewrite Hc.
  destruct (editedBeadColors s) eqn:E; [done|]. simpl.
  destruct (editTool s); try done; by destruct (jsIndex _ _).
Qed.

Lemma handlePatternEdit_hasEdits x y s :
  isEditMode s = true →
  0 <= x < Z.of_nat (length (default [] (head (contents (heap s) (editedBeadColors s))))) →
  0 <= y < Z.of_nat (length (editedBeadColors s)) →
  hasEdits (handlePatternEdit x y s) = true.
Proof.
  intros Hm Hx Hy. unfold handlePatternEdit. rewrite Hm.
  destruct (Nat.eqb_spec (length (editedBeadColors s)) 0) as [E|_]; [lia|].
  destruct (Z.ltb_spec x 0); [lia|].
  match goal with |- context [Z.leb ?a x] => destruct (Z.leb_spec a x) end;
    [lia|].
  destruct (Z.ltb_spec y 0); [lia|].
  match goal with |- context [Z.leb ?a y] => destruct (Z.leb_spec a y) end;
    [lia|].
  cbn [orb negb]. destruct (editTool s); try done.
  destruct (readCell s x y) as [[c|]|]; try done. by destruct (decide _).
Qed.

(** X14.  What a pointer event on a cell of the grid does.  In the editing
    mode of a state the component can reach, with the pointer on a cell of
    the edit buffer: the handler ends without an exception and sets
    [hasEdits], whatever the tool; no other cell of the buffer changes;
    the Add tool puts the selected colour in the cell, the Erase tool the
    sentinel, and the Pick tool leaves the cell as it is and, unless the
    cell holds the sentinel, selects its colour and switches to the Add
    tool. *)
Theorem pointer_edits_one_cell (s : state) (x y : Z) :
  reachable s → isEditMode s = true →
  0 <= x < Z.of_nat (length (default [] (head (contents (heap s) (editedBeadColors s))))) →
  0 <= y < Z.of_nat (length (editedBeadColors s)) →
  let s' := handle (PointerAt x y) s in
  (handleCanvasDraw x y s).2 = None
  ∧ hasEdits s' = true
  ∧ (∀ x' y', (x', y') ≠ (x, y) → editedCell s' x' y' = editedCell s x' y')
  ∧ match editTool s with
    | Add =>
        editedCell s' x y = Some (selectedColor s)
        ∧ selectedColor s' = selectedColor s ∧ editTool s' = Add
    | Erase =>
        editedCell s' x y = Some transparent
        ∧ selectedColor s' = selectedColor s ∧ editTool s' = Erase
    | Pick =>
        editedCell s' x y = editedCell s x y
        ∧ ((editedCell s x y = Some transparent
            ∧ selectedColor s' = selectedColor s ∧ editTool s' = Pick)
           ∨ (editedCell s x y = Some (selectedColor s')
              ∧ selectedColor s' ≠ transparent ∧ editTool s' = Add))
    end.
Proof.
  intros Hs Hm Hx Hy s'. apply reachable_wellFormed in Hs.
  unfold s'. cbn [handle]. rewrite handleCanvasDraw_editing by done.
  split_and!.
  - by apply handleCanvasDraw_row_defined.
  - by apply handlePatternEdit_hasEdits.
  - intros x' y' Hne. by apply handlePatternEdit_other.
  - by apply handlePatternEdit_in_bounds.
Qed.

Lemma editingBlack_origin :
  0 <= 0 < Z.of_nat (length (default [] (head (contents (heap editingBlack) (editedBeadColors editingBlack)))))
  ∧ 0 <= 0 < Z.of_nat (length (editedBeadColors editingBlack)).
Proof. vm_compute. split_and!; (discriminate || reflexivity). Qed.

Lemma pointer_edits_one_cell_witness :
  reachable editingBlack ∧ isEditMode editingBlack = true
  ∧ 0 <= 0 < Z.of_nat (length (default [] (head (contents (heap editingBlack) (editedBeadColors editingBlack)))))
  ∧ 0 <= 0 < Z.of_nat (length (editedBeadColors editingBlack))
  ∧ let s' := handle (PointerAt 0 0) editingBlack in
    (handleCanvasDraw 0 0 editingBlack).2 = None
    ∧ hasEdits s' = true
    ∧ (∀ x' y', (x', y') ≠ (0, 0) →
         editedCell s' x' y' = editedCell editingBlack x' y')
    ∧ match editTool editingBlack with
      | Add =>
          editedCell s' 0 0 = Some (selectedColor editingBlack)
          ∧ selectedColor s' = selectedColor editingBlack ∧ editTool s' = Add
      | Erase =>
          editedCell s' 0 0 = Some transparent
          ∧ selectedColor s' = selectedColor editingBlack
          ∧ editTool s' = Erase
      | Pick =>
          editedCell s' 0 0 = editedCell editingBlack 0 0
          ∧ ((editedCell editingBlack 0 0 = Some transparent
              ∧ selectedColor s' = selectedColor editingBlack
              ∧ editTool s' = Pick)
             ∨ (editedCell editingBlack 0 0 = Some (selectedColor s')
                ∧ selectedColor s' ≠ transparent ∧ editTool s' = Add))
      end.
Proof.
  split; [exact editingBlack_reachable|]. split; [reflexivity|].
  split; [exact (proj1 editingBlack_origin)|].
  split; [exact (proj2 editingBlack_origin)|].
  exact (pointer_edits_one_cell editingBlack 0 0 editingBlack_reachable
           eq_refl (proj1 editingBlack_origin) (proj2 editingBlack_origin)).
Defined.

Lemma rowAt_insert heap loc row loc' :
  rowAt (<[loc := row]> heap) loc'
  = if decide (loc' = loc ∧ loc < length heap)%nat then row
    else rowAt heap loc'.
Proof.
  unfold rowAt. destruct (decide _) as [[-> Hl]|Hn].
  - by rewrite list_lookup_insert_eq.
  - destruct (decide (loc' = loc)) as [->|Hne].
    + rewrite list_insert_ge by lia. done.
    + by rewrite list_lookup_insert_ne.
Qed.

Lemma writeCell_idem rows x y c heap :
  writeCell rows x y c (writeCell rows x y c heap) = writeCell rows x y c heap.
Proof.
  unfold writeCell. destruct (jsIndex rows y) as [loc|]; [|done].
  rewrite rowAt_insert. destruct (decide _) as [[_ Hl]|Hn].
  - by rewrite list_insert_insert_eq, list_insert_insert_eq.
  - by rewrite !(list_insert_ge heap) by lia.
Qed.

Lemma length_rowAt_writeCell rows x y c heap loc :
  length (rowAt (writeCell rows x y c heap) loc) = length (rowAt heap loc).
Proof.
  unfold writeCell. destruct (jsIndex rows y) as [loc0|]; [|done].
  rewrite rowAt_insert. destruct (decide _) as [[-> _]|_]; [|done].
  by rewrite length_insert.
Qed.

Lemma width_writeCell rows x y c heap :
  length (default [] (head (contents (writeCell rows x y c heap) rows)))
  = length (default [] (head (contents heap rows))).
Proof.
  destruct rows as [|loc rows]; [done|]. simpl. apply length_rowAt_writeCell.
Qed.

(** Writing to a cell the colour that it holds changes nothing. *)
Lemma writeCell_same s x y c :
  readCell s x y = Ok (Some c) →
  writeCell (editedBeadColors s) x y c (heap s) = heap s.
Proof.
  unfold readCell, writeCell.
  destruct (jsIndex (editedBeadColors s) y) as [loc|]; [|done].
  intros [= Hc]. apply jsIndex_Some in Hc as [Hx Hc].
  unfold rowAt in *. destruct (heap s !! loc) as [row|] eqn:Hrow; [|done].
  simpl in *. rewrite (list_insert_id row) by done. by apply list_insert_id.
Qed.

Lemma handlePatternEdit_idem x y s :
  handlePatternEdit x y (handlePatternEdit x y s) = handlePatternEdit x y s.
Proof.
  remember (handlePatternEdit x y s) as s1 eqn:E.
  unfold handlePatternEdit in E.
  destruct ((length (editedBeadColors s) =? 0)%nat || negb (isEditMode s))
    eqn:Hg.
  { subst s1. unfold handlePatternEdit. by rewrite Hg. }
  destruct ((x <? 0) || _ || (y <? 0) || _) eqn:Hb.
  { subst s1. unfold handlePatternEdit. by rewrite Hg, Hb. }
  destruct (editTool s) eqn:Ht.
  - subst s1. unfold handlePatternEdit. cbn [editedBeadColors isEditMode heap
      setEdited editTool selectedColor].
    rewrite Hg, width_writeCell, Hb, Ht, writeCell_idem. done.
  - subst s1. unfold handlePatternEdit. cbn [editedBeadColors isEditMode heap
      setEdited editTool selectedColor].
    rewrite Hg, width_writeCell, Hb, Ht, writeCell_idem. done.
  - destruct (readCell s x y) as [[c|]|e] eqn:Hr.
    + destruct (decide (c = transparent)) as [->|Hne].
      * subst s1. unfold handlePatternEdit. cbn [editedBeadColors isEditMode
          heap setEdited editTool selectedColor].
        rewrite Hg, Hb, Ht.
        change (readCell (setEdited (heap s) s) x y) with (readCell s x y).
        rewrite Hr. by rewrite decide_True.
      * subst s1. unfold handlePatternEdit. cbn [editedBeadColors isEditMode
          heap setEdited pickColor editTool selectedColor].
        rewrite Hg, Hb. by rewrite writeCell_same.
    + subst s1. unfold handlePatternEdit. cbn [editedBeadColors isEditMode
        heap setEdited editTool selectedColor].
      rewrite Hg, Hb, Ht.
      change (readCell (setEdited (heap s) s) x y) with (readCell s x y).
      by rewrite Hr.
    + subst s1. unfold handlePatternEdit. cbn [editedBeadColors isEditMode
        heap setEdited editTool selectedColor].
      rewrite Hg, Hb, Ht.
      change (readCell (setEdited (heap s) s) x y) with (readCell s x y).
      by rewrite Hr.
Qed.

(** X15.  A pointer event repeated on the same cell changes nothing more.
    In any state, whatever the tool and wherever the pointer is, the state
    after two pointer events at the same cell is the state after one: a
    drag across a cell, which calls the handler many times, edits it
    once. *)
Theorem pointer_edit_idempotent (s : state) (x y : Z) :
  handle (PointerAt x y) (handle (PointerAt x y) s)
  = handle (PointerAt x y) s.
Proof.
  cbn [handle].
  assert (Hstep : ∀ s0, (handleCanvasDraw x y s0).1
    = if negb (canvasMounted s0) || (length (editedBeadColors s0) =? 0)%nat
      then s0 else handlePatternEdit x y s0).
  { intros s0. unfold handleCanvasDraw. destruct (_ || _); [done|].
    destruct (editTool s0); try done; by destruct (jsIndex _ _). }
  rewrite !Hstep.
  destruct (negb (canvasMounted s) || _) eqn:Hg; [by rewrite Hg|].
  destruct (handlePatternEdit_frame x y s) as (_ & He & Hm & Hp & Hi & _).
  unfold canvasMounted in *. rewrite He, Hm, Hp, Hi, Hg.
  apply handlePatternEdit_idem.
Qed.

(** X16.  A change of settings replaces the edit buffer.  When an image is
    loaded and a setting is given a new value, the settings, the mode, the
    tool and the selected colour are kept.  If [processImage] then
    resolves, the pattern, the counts, the grid and the edit buffer are
    those of the new grid and [hasEdits] is cleared: edits not applied are
    gone, also in the editing mode, which is not left.  If it rejects, the
    pattern, the counts, the grid, the edit buffer and [hasEdits] stay as
    they were. *)
Theorem regeneration_replaces_edit_buffer (s : state) (img : image)
    (c : settings) :
  originalImage s = Some img → c ≠ config s →
  let s' := handle (ChangeSettings c) s in
  config s' = c ∧ isEditMode s' = isEditMode s
  ∧ editTool s' = editTool s ∧ selectedColor s' = selectedColor s
  ∧ match processWith img c with
    | Ok (pattern, grid) =>
        beadPattern s' = Some pattern
        ∧ colorCounts s' = countColors grid
        ∧ contents (heap s') (beadColors s') = grid
        ∧ contents (heap s') (editedBeadColors s') = grid
        ∧ hasEdits s' = false
    | Throw _ =>
        beadPattern s' = beadPattern s
        ∧ colorCounts s' = colorCounts s
        ∧ beadColors s' = beadColors s
        ∧ editedBeadColors s' = editedBeadColors s
        ∧ heap s' = heap s
        ∧ hasEdits s' = hasEdits s
    end.
Proof.
  intros Himg Hc s'. unfold s', processWith. cbn [handle].
  rewrite decide_False by done. unfold runProcessing.
  cbn [originalImage setConfig config]. rewrite Himg.
  destruct (processImage _ _ _ _ _ _ _ _) as [[pattern grid]|e]; [|done].
  destruct (setGenerated_fields pattern grid (setConfig c s))
    as (_ & _ & _ & Hg & He).
  split_and!; try done.
  all: unfold setGenerated; by destruct (allocGrid _ _), (deepCopy _ _).
Qed.

Lemma pastelSettings_new : pastelSettings ≠ config erasedBlack.
Proof.
  intros H. apply (f_equal selectedPalette) in H. vm_compute in H.
  discriminate.
Qed.

Lemma regeneration_replaces_edit_buffer_witness :
  originalImage erasedBlack = Some blackPixel
  ∧ pastelSettings ≠ config erasedBlack
  ∧ hasEdits erasedBlack = true
  ∧ editedCell erasedBlack 0 0 = Some transparent
  ∧ let s' := handle (ChangeSettings pastelSettings) erasedBlack in
    config s' = pastelSettings ∧ isEditMode s' = isEditMode erasedBlack
    ∧ editTool s' = editTool erasedBlack
    ∧ selectedColor s' = selectedColor erasedBlack
    ∧ match processWith blackPixel pastelSettings with
      | Ok (pattern, grid) =>
          beadPattern s' = Some pattern
          ∧ colorCounts s' = countColors grid
          ∧ contents (heap s') (beadColors s') = grid
          ∧ contents (heap s') (editedBeadColors s') = grid
          ∧ hasEdits s' = false
      | Throw _ =>
          beadPattern s' = beadPattern erasedBlack
          ∧ colorCounts s' = colorCounts erasedBlack
          ∧ beadColors s' = beadColors erasedBlack
          ∧ editedBeadColors s' = editedBeadColors erasedBlack
          ∧ heap s' = heap erasedBlack
          ∧ hasEdits s' = hasEdits erasedBlack
      end.
Proof.
  split; [reflexivity|]. split; [exact pastelSettings_new|].
  split; [reflexivity|]. split; [reflexivity|].
  exact (regeneration_replaces_edit_buffer erasedBlack blackPixel
           pastelSettings eq_refl pastelSettings_new).
Defined.

End EditingFacts.

Module ByFrequencyFacts.
Import Palette ImageProcessor ByFrequency Binary64 Inputs.
Import PaletteFacts FrequencyFacts MappingFacts BackgroundFacts.

(** The integer tests of the variant agree with binary64 at the two
    integers around every threshold from 1 to 100, and around a twentieth
    of every count up to the 2500 pixels of the largest buffer. *)
Example similarity_boundaries :
  holdsFrom 100 1 (λ t,
    let last := (t ^ 2 * 585225 - 1) / 10000 in
    similarityLt last t && withinSimilarity last t
    && negb (similarityLt (last + 1) t)
    && negb (withinSimilarity (last + 1) t))
  && negb (similarityLt 0 0) && negb (withinSimilarity 0 0) = true.
Proof. vm_compute. reflexivity. Qed.

Example frequency_boundaries :
  holdsFrom 2500 1 (λ primaryCount,
    let count := primaryCount / 20 in
    Bool.eqb (belowFrequency count primaryCount)
      (count * 20 <? primaryCount)
    && Bool.eqb (belowFrequency (count + 1) primaryCount)
         ((count + 1) * 20 <? primaryCount)
    && ((count =? 0)
        || Bool.eqb (belowFrequency (count - 1) primaryCount)
             ((count - 1) * 20 <? primaryCount))) = true.
Proof. vm_compute. reflexivity. Qed.

Lemma pixelColors_lookup data width height x y :
  (x < width)%nat → (y < height)%nat →
  pixelColors data width height !! (y * width + x)%nat
  = Some (rgbAt data ((y * width + x) * 4)).
Proof.
  intros Hx. unfold pixelColors.
  assert (H : ∀ start n, (y < n)%nat →
    flat_map (λ y, (λ x, rgbAt data ((y * width + x) * 4)) <$> seq 0 width)
      (seq start n) !! (y * width + x)%nat
    = Some (rgbAt data (((start + y) * width + x) * 4))).
  { intros start n. revert start y. induction n as [|n IH]; intros start y Hy;
      [lia|].
    simpl. destruct y as [|y].
    - rewrite lookup_app_l by (rewrite length_fmap, length_seq; lia).
      rewrite list_lookup_fmap, lookup_seq_lt by done. simpl.
      by rewrite Nat.add_0_r.
    - rewrite lookup_app_r by (rewrite length_fmap, length_seq; lia).
      rewrite length_fmap, length_seq.
      replace (S y * width + x - width)%nat with (y * width + x)%nat by lia.
      rewrite IH by lia. do 3 f_equal. lia. }
  intros Hy. by rewrite (H 0%nat height Hy).
Qed.

Lemma elem_of_pixelColors data width height c :
  c ∈ pixelColors data width height →
  ∃ x y, (x < width)%nat ∧ (y < height)%nat
    ∧ c = rgbAt data ((y * width + x) * 4).
Proof.
  unfold pixelColors.
  intros (y & Hy%in_seq & Hc%list_elem_of_In)%list_elem_of_In%in_flat_map.
  apply list_elem_of_fmap in Hc as (x & -> & Hx%list_elem_of_In%in_seq).
  exists x, y. split_and!; [lia|lia|done].
Qed.

Lemma rd_range data i :
  Forall (λ v, 0 <= v <= 255) data → 0 <= rd data i <= 255.
Proof.
  intros H. unfold rd. destruct (data !! i) as [v|] eqn:E; simpl; [|lia].
  rewrite Forall_forall in H. apply H. by eapply list_elem_of_lookup_2.
Qed.

Lemma rgbAt_range data i :
  Forall (λ v, 0 <= v <= 255) data → inRange (rgbAt data i).
Proof.
  intros H. unfold inRange, rgbAt. simpl. split_and!; by apply rd_range.
Qed.

(** From a threshold of 58 on every two colours are similar. *)
Lemma withinSimilarity_58 c bg t :
  inRange c → inRange bg → 58 <= t →
  withinSimilarity (diff2 c bg) t = true.
Proof.
  destruct c as [[r g] b], bg as [[r' g'] b'].
  intros (?&?&?) (?&?&?) Ht. simpl in *. unfold withinSimilarity, diff2.
  apply andb_true_intro. split; apply Z.ltb_lt; [lia|].
  assert ((r - r') ^ 2 <= 65025) by nia.
  assert ((g - g') ^ 2 <= 65025) by nia.
  assert ((b - b') ^ 2 <= 65025) by nia.
  assert (58 ^ 2 <= t ^ 2) by nia.
  lia.
Qed.

Lemma backgroundColors_primary data width height t :
  (0 < width)%nat → (0 < height)%nat →
  ∃ k n rest i,
    backgroundColors data width height true t
    = (k, n)
      :: filter (λ color,
           ¬ (color.2 * 20 < n)%nat
           ∧ withinSimilarity (diff2 color.1 k) t = true) rest
    ∧ sortByCount (colorFrequency data width height) = (k, n) :: rest
    ∧ n = occurrences k (pixelColors data width height)
    ∧ pixelColors data width height !! i = Some k
    ∧ (∀ c, occurrences c (pixelColors data width height) ≤ n)%nat
    ∧ (∀ j c, (j < i)%nat → pixelColors data width height !! j = Some c →
         (occurrences c (pixelColors data width height) < n)%nat).
Proof.
  intros Hw Hh.
  destruct (sorted_most_frequent (pixelColors data width height))
    as (k & n & rest & i & Hs & Hn & Hi & Hle & Hlt).
  { intros E. pose proof (pixelColors_lookup data width height 0 0 Hw Hh) as H.
    by rewrite E in H. }
  exists k, n, rest, i. unfold backgroundColors, colorFrequency.
  rewrite Hs. done.
Qed.

(** X17.  The background colours of the variant.  With removal enabled on
    a buffer that is not empty, the first background colour is the colour
    that occurs most often in the buffer, of several such the one that
    occurs first row by row, with the number of its pixels; and the other
    background colours are exactly the other colours of the buffer that
    are similar to it and have at least a twentieth of its pixels. *)
Theorem primary_background_most_frequent (data : list Z)
    (width height : nat) (t : Z) :
  (0 < width)%nat → (0 < height)%nat →
  let colors := pixelColors data width height in
  ∃ primary others i,
    backgroundColors data width height true t = primary :: others
    ∧ colors !! i = Some primary.1
    ∧ primary.2 = occurrences primary.1 colors
    ∧ (∀ c, occurrences c colors ≤ primary.2)%nat
    ∧ (∀ j c, (j < i)%nat → colors !! j = Some c →
         (occurrences c colors < primary.2)%nat)
    ∧ ∀ c n, (c, n) ∈ others ↔
        c ∈ colors ∧ c ≠ primary.1 ∧ n = occurrences c colors
        ∧ (primary.2 ≤ n * 20)%nat
        ∧ withinSimilarity (diff2 c primary.1) t = true.
Proof.
  intros Hw Hh colors.
  destruct (backgroundColors_primary data width height t Hw Hh)
    as (k & n & rest & i & -> & Hs & Hn & Hi & Hle & Hlt).
  eexists (k, n), _, i. split_and!; try done.
  intros c m. rewrite list_elem_of_filter. cbn [fst snd].
  pose proof (counted_countAll colors) as [Hnd Hkeys Hcount Horder].
  pose proof (sortByCount_perm (countAll colors)) as Hperm.
  fold colors in Hs. unfold colorFrequency in Hs. fold colors in Hs.
  rewrite Hs in Hperm.
  assert (Hnd' : NoDup (((k, n) :: rest).*1)) by by rewrite Hperm.
  apply NoDup_cons in Hnd' as [Hk Hnd'].
  split.
  - intros [[Hf Hsim] Hin].
    assert (Hall : (c, m) ∈ countAll colors).
    { rewrite <- Hperm. by right. }
    apply list_elem_of_lookup in Hall as [p Hp].
    pose proof (Hcount p c m Hp) as Hm.
    destruct (Horder p c) as (j & Hj & _); [by rewrite list_lookup_fmap, Hp|].
    split_and!; [by eapply list_elem_of_lookup_2| |done|lia|done].
    intros ->. apply Hk. apply list_elem_of_fmap. by exists (k, m).
  - intros (Hc & Hne & Hm & Hf & Hsim).
    split; [split; [lia|done]|].
    apply Hkeys in Hc. apply list_elem_of_fmap in Hc as ([c' m'] & -> & Hin).
    simpl in *.
    assert (m' = occurrences c' colors).
    { apply list_elem_of_lookup in Hin as [p Hp]. by eapply Hcount. }
    rewrite <- Hperm in Hin. apply elem_of_cons in Hin as [[= -> ->]|Hin];
      [done|]. congruence.
Qed.

Lemma primary_background_most_frequent_witness :
  (0 < 5)%nat ∧ (0 < 5)%nat
  ∧ let colors := pixelColors ringImage 5 5 in
    ∃ primary others i,
      backgroundColors ringImage 5 5 true 30 = primary :: others
      ∧ colors !! i = Some primary.1
      ∧ primary.2 = occurrences primary.1 colors
      ∧ (∀ c, occurrences c colors ≤ primary.2)%nat
      ∧ (∀ j c, (j < i)%nat → colors !! j = Some c →
           (occurrences c colors < primary.2)%nat)
      ∧ ∀ c n, (c, n) ∈ others ↔
          c ∈ colors ∧ c ≠ primary.1 ∧ n = occurrences c colors
          ∧ (primary.2 ≤ n * 20)%nat
          ∧ withinSimilarity (diff2 c primary.1) 30 = true.
Proof.
  split; [lia|]. split; [lia|].
  apply (primary_background_most_frequent ringImage 5 5 30); lia.
Defined.

Lemma freq_mapPixel_spec palette width removeBackground bgs t data0 data
    x y c :
  (x < width)%nat →
  untouchedFrom data0 (y * width + x) data →
  cellOf palette removeBackground bgs t (rgbAt data0 ((y * width + x) * 4))
  = Some c →
  ∃ data', mapPixel palette width removeBackground bgs t data x y
           = Ok (data', c)
    ∧ untouchedFrom data0 (S (y * width + x)) data'.
Proof.
  intros Hx Hun. unfold cellOf, mapPixel, rgbAt, rd.
  rewrite !Hun by lia. simpl.
  destruct (isBackgroundColor _ _ _ _).
  - intros [= <-]. eexists. split; [done|].
    intros i Hi. rewrite list_lookup_insert_ne by lia. apply Hun. lia.
  - intros ->. destruct (parseColor c) as [[cr cg] cb].
    eexists. split; [done|].
    intros i Hi. rewrite !list_lookup_insert_ne by lia. apply Hun. lia.
Qed.

Lemma freq_quantize_plain_spec palette width height removeBackground bgs t
    data (cell : nat → nat → string) :
  (∀ x y, (x < width)%nat → (y < height)%nat →
     cellOf palette removeBackground bgs t (rgbAt data ((y * width + x) * 4))
     = Some (cell x y)) →
  quantize palette width height removeBackground bgs t false data
  = Ok ((λ y, (λ x, cell x y) <$> seq 0 width) <$> seq 0 height).
Proof.
  intros Hcell. unfold quantize.
  destruct (gridLoop_spec (mapPixel palette width removeBackground bgs t)
              (untouchedFrom data) cell width height 0%nat data [])
    as (st' & -> & _); [| |done].
  - intros st x y Hx Hy Hinv. apply freq_mapPixel_spec; [done|done|].
    apply Hcell; [done|lia].
  - intros i _. done.
Qed.

Lemma cellOf_is_Some palette removeBackground bgs t rgb :
  palette ≠ [] → is_Some (cellOf palette removeBackground bgs t rgb).
Proof.
  intros Hne. unfold cellOf. destruct (isBackgroundColor _ _ _ _); [done|].
  by apply findClosestColor_is_Some.
Qed.

(** X18.  In the variant the colour of a pixel decides its cell.  Without
    dithering and with a non-empty palette the loops end normally, every
    cell is the sentinel when the colour of its pixel is similar to a
    background colour and the nearest colour of the palette otherwise, and
    two pixels of the same colour have the same cell wherever they lie: a
    region of the background colour is removed also where it is enclosed
    by another colour. *)
Theorem cell_depends_on_colour_only (palette : list string)
    (width height : nat) (removeBackground : bool)
    (bgs : list (Z * Z * Z * nat)) (t : Z) (data : list Z) :
  palette ≠ [] →
  ∃ colorGrid,
    quantize palette width height removeBackground bgs t false data
    = Ok colorGrid
    ∧ length colorGrid = height
    ∧ (∀ x y, (x < width)%nat → (y < height)%nat →
         cellAt colorGrid x y
         = cellOf palette removeBackground bgs t
             (rgbAt data ((y * width + x) * 4)))
    ∧ ∀ x y x' y', (x < width)%nat → (y < height)%nat →
        (x' < width)%nat → (y' < height)%nat →
        rgbAt data ((y * width + x) * 4) = rgbAt data ((y' * width + x') * 4) →
        cellAt colorGrid x y = cellAt colorGrid x' y'.
Proof.
  intros Hne.
  pose (cell := λ x y,
    default transparent
      (cellOf palette removeBackground bgs t
         (rgbAt data ((y * width + x) * 4)))).
  assert (Hcell : ∀ x y,
    cellOf palette removeBackground bgs t (rgbAt data ((y * width + x) * 4))
    = Some (cell x y)).
  { intros x y. unfold cell.
    by destruct (cellOf_is_Some palette removeBackground bgs t
                   (rgbAt data ((y * width + x) * 4)) Hne) as [c ->]. }
  eexists. split_and!.
  - apply (freq_quantize_plain_spec _ _ _ _ _ _ _ cell).
    intros x y _ _. apply Hcell.
  - by rewrite length_fmap, length_seq.
  - intros x y Hx Hy. by rewrite cellAt_tabulate, Hcell.
  - intros x y x' y' Hx Hy Hx' Hy' E.
    rewrite !cellAt_tabulate by done. unfold cell. by rewrite E.
Qed.

Lemma cell_depends_on_colour_only_witness :
  standard ≠ []
  ∧ ∃ colorGrid,
      quantize standard 5 5 true (backgroundColors ringImage 5 5 true 30) 30
        false ringImage = Ok colorGrid
      ∧ length colorGrid = 5%nat
      ∧ (∀ x y, (x < 5)%nat → (y < 5)%nat →
           cellAt colorGrid x y
           = cellOf standard true (backgroundColors ringImage 5 5 true 30) 30
               (rgbAt ringImage ((y * 5 + x) * 4)))
      ∧ ∀ x y x' y', (x < 5)%nat → (y < 5)%nat →
          (x' < 5)%nat → (y' < 5)%nat →
          rgbAt ringImage ((y * 5 + x) * 4)
          = rgbAt ringImage ((y' * 5 + x') * 4) →
          cellAt colorGrid x y = cellAt colorGrid x' y'.
Proof.
  split; [discriminate|].
  apply (cell_depends_on_colour_only standard 5 5 true
           (backgroundColors ringImage 5 5 true 30) 30 ringImage).
  discriminate.
Defined.

(** The centre of [ringImage], enclosed by the ring, is removed by the
    variant and kept by the flood fill. *)
Example ring_centre_removed :
  match
    ByFrequency.processImage ringPhoto 10 29 standard true false true 30,
    ImageProcessor.processImage ringPhoto 10 29 standard true false true 30
  with
  | Ok (_, grid), Ok (_, grid') =>
      cellAt grid 2 2 = Some transparent
      ∧ cellAt grid' 2 2 = Some "#FFFFFF"%string
  | _, _ => False
  end.
Proof. vm_compute. split; reflexivity. Qed.

Lemma isBackgroundColor_58 data width height t rgb :
  (0 < width)%nat → (0 < height)%nat → 58 <= t →
  Forall (λ v, 0 <= v <= 255) data → inRange rgb →
  isBackgroundColor true (backgroundColors data width height true t) t rgb
  = true.
Proof.
  intros Hw Hh Ht Hdata Hrgb.
  destruct (backgroundColors_primary data width height t Hw Hh)
    as (k & n & rest & i & -> & _ & _ & Hi & _).
  unfold isBackgroundColor. cbn [length Nat.eqb negb andb existsb].
  apply orb_true_intro. left. cbn [fst].
  apply withinSimilarity_58; [done| |done].
  apply list_elem_of_lookup_2, elem_of_pixelColors in Hi
    as (x & y & _ & _ & ->).
  by apply rgbAt_range.
Qed.

Lemma freq_quantize_all_background palette width height bgs t dithering
    data :
  (∀ x y, (x < width)%nat → (y < height)%nat →
     isBackgroundColor true bgs t (rgbAt data ((y * width + x) * 4)) = true) →
  quantize palette width height true bgs t dithering data
  = Ok (replicate height (replicate width transparent)).
Proof.
  intros Hbg. rewrite <- (tabulate_const transparent width 0 height).
  unfold quantize. destruct dithering.
  - destruct (gridLoop_spec (ditherPixel palette width height true bgs t)
                (λ _ st, st.1 = data) (λ _ _, transparent) width height 0%nat
                (data, data) [])
      as (st' & -> & _); [| |done].
    + intros [pixels data'] x y Hx Hy Hp. simpl in Hp. subst pixels.
      unfold ditherPixel.
      pose proof (Hbg x y Hx ltac:(lia)) as Hb.
      destruct (rgbAt data _) as [[r g] b]. rewrite Hb. by eexists.
    + done.
  - destruct (gridLoop_spec (mapPixel palette width true bgs t)
                (untouchedFrom data) (λ _ _, transparent) width height 0%nat
                data [])
      as (st' & -> & _); [| |done].
    + intros data' x y Hx Hy Hun. apply freq_mapPixel_spec; [done|done|].
      unfold cellOf. by rewrite Hbg by (done || lia).
    + intros i _. done.
Qed.

(** X19.  In the variant a threshold of 58 or more removes the whole
    image.  The threshold is compared with the distance itself, which
    never exceeds that between black and white, about 441.7, and
    [(58 / 100) * 255 * 3] is 443.7: with removal enabled every pixel of a
    buffer of bytes is similar to the first background colour, the grid
    holds sentinels only and nothing is drawn on the cleared pattern,
    whatever the palette and with or without dithering. *)
Theorem high_threshold_removes_everything (img : image)
    (beadSize maxBeads : Z) (palette : list string)
    (showGrid dithering : bool) (backgroundThreshold : Z) (w h : Z) :
  targetSize (imgWidth img) (imgHeight img) maxBeads = (w, h) →
  0 < w → 0 < h → 58 <= backgroundThreshold →
  Forall (λ v, 0 <= v <= 255) (resampled img (Z.to_nat w) (Z.to_nat h)) →
  ByFrequency.processImage img beadSize maxBeads palette showGrid dithering
    true backgroundThreshold
  = Ok (Canvas (w * beadSize) (h * beadSize)
          [ClearRect 0 0 (w * beadSize) (h * beadSize)],
        replicate (Z.to_nat h) (replicate (Z.to_nat w) transparent)).
Proof.
  intros Hsize Hw Hh Ht Hdata. unfold ByFrequency.processImage.
  rewrite Hsize.
  destruct (Z.leb_spec w 0); [lia|]. destruct (Z.leb_spec h 0); [lia|].
  cbn [orb]. rewrite freq_quantize_all_background.
  - cbn. by rewrite drawBeads_all_transparent.
  - intros x y Hx Hy. apply isBackgroundColor_58; [lia|lia|done|done|].
    by apply rgbAt_range.
Qed.

Lemma ringPhoto_range :
  Forall (λ v, 0 <= v <= 255) (resampled ringPhoto (Z.to_nat 5) (Z.to_nat 5)).
Proof.
  apply Forall_forall. intros v Hv.
  assert (H : forallb (λ v, (0 <=? v) && (v <=? 255))
                (resampled ringPhoto (Z.to_nat 5) (Z.to_nat 5)) = true)
    by (vm_compute; reflexivity).
  rewrite forallb_forall in H. apply list_elem_of_In in Hv.
  apply H in Hv. apply andb_prop in Hv as [?%Z.leb_le ?%Z.leb_le]. lia.
Qed.

Lemma high_threshold_removes_everything_witness :
  targetSize (imgWidth ringPhoto) (imgHeight ringPhoto) 29 = (5, 5)
  ∧ 0 < 5 ∧ 0 < 5 ∧ 58 <= 58
  ∧ Forall (λ v, 0 <= v <= 255)
      (resampled ringPhoto (Z.to_nat 5) (Z.to_nat 5))
  ∧ ByFrequency.processImage ringPhoto 10 29 standard true false true 58
    = Ok (Canvas (5 * 10) (5 * 10) [ClearRect 0 0 (5 * 10) (5 * 10)],
          replicate (Z.to_nat 5) (replicate (Z.to_nat 5) transparent)).
Proof.
  split; [reflexivity|]. split; [lia|]. split; [lia|]. split; [lia|].
  split; [exact ringPhoto_range|].
  apply (high_threshold_removes_everything ringPhoto 10 29 standard true false
           58 5 5); [reflexivity|lia|lia|lia|exact ringPhoto_range].
Defined.

(** X20.  The two variants agree when the background is kept.  With
    removal disabled, [processImage] of the variant and [processImage]
    with the flood fill give the same result for the same image, palette
    and settings, be it a pattern and a grid or an exception, and the
    threshold has no part in it. *)
Theorem variants_agree_without_removal (img : image) (beadSize maxBeads : Z)
    (palette : list string) (showGrid dithering : bool) (t t' : Z) :
  ByFrequency.processImage img beadSize maxBeads palette showGrid dithering
    false t
  = ImageProcessor.processImage img beadSize maxBeads palette showGrid
      dithering false t'.
Proof.
  unfold ByFrequency.processImage, ImageProcessor.processImage.
  destruct (targetSize _ _ _) as [w h]. destruct (_ || _); [done|].
  cbv zeta.
  assert (E : quantize palette (Z.to_nat w) (Z.to_nat h) false
                (backgroundColors (resampled img (Z.to_nat w) (Z.to_nat h))
                   (Z.to_nat w) (Z.to_nat h) false t) t dithering
                (resampled img (Z.to_nat w) (Z.to_nat h))
              = ImageProcessor.quantize palette (Z.to_nat w) (Z.to_nat h) false
                  (backgroundPixels (resampled img (Z.to_nat w) (Z.to_nat h))
                     (Z.to_nat w) (Z.to_nat h) false t') dithering
                  (resampled img (Z.to_nat w) (Z.to_nat h))).
  { unfold quantize, ImageProcessor.quantize. destruct dithering.
    - erewrite gridLoop_ext; [done|]. intros [pixels data] x y.
      unfold ditherPixel, ImageProcessor.ditherPixel.
      by destruct (rgbAt pixels _) as [[r g] b].
    - erewrite gridLoop_ext; [done|]. intros data x y.
      unfold mapPixel, ImageProcessor.mapPixel.
      by destruct (rgbAt data _) as [[r g] b]. }
  by rewrite E.
Qed.

End ByFrequencyFacts.
